(** * PsyLLM batch pipeline: a shallow embedding of the four stage scripts

    The repository holds four Python scripts,
    - [Code/agent1_extract_information.py]  (theme extraction),
    - [Code/agent2_conversations.py]        (dialogue scaffolding),
    - [Code/agent3_thinking_psy.py]         (turn-level replies),
    - [Code/agent4_filter.py]               (quality filter),
    which all read a collection of records, call a hosted model, parse
    its answer and write the results back.  This file embeds the parts of
    those scripts that decide resumption, retry, parsing, checkpointing and
    client rotation, and proves what they do.

    Conventions of the embedding.
    - A Python [str] is a list of code points ([list N]).
    - A value produced by [json.loads] is a [pyval]; a Python exception is
      the [None] of an [option] or the [Raised] of an [outcome].
    - The hosted model is an oracle: a function giving the answer to each call.
    - Files are a finite map from path to text; a write is a sequence of
      steps, so that a kill between two steps can be told.
    - Workers that run side by side are taken one after the other where
      only their results matter, and step by step, under any schedule, where
      the shared rotation index is concerned.

    The definitions come first, module by module and script by script; the
    notions used in the statements and the concrete inputs follow; the
    properties come last. *)

From Stdlib Require Import ZArith NArith List Ascii String Bool Lia.
From stdpp Require Import base option list gmap strings pretty.
From Equations Require Import Equations.

Local Open Scope N_scope.
Local Set Warnings "-register-all".

(** ** Python strings *)

Abbreviation str := (list N).

Module Py.

(** [lit "abc"] is the Python literal ['abc']. *)
Definition lit (s : string) : str := N_of_ascii <$> list_ascii_of_string s.

(** [qlit] is [lit] with every apostrophe read as a double quote, so that
    JSON text can be written inside a Rocq string. *)
Definition qlit (s : string) : str :=
  (fun c => if c =? 39 then 34 else c) <$> lit s.

(** [str.isspace] on one code point (the code points for which CPython's
    [Py_UNICODE_ISSPACE] holds). *)
Definition isspace (c : N) : bool :=
  ((9 <=? c) && (c <=? 13)) || ((28 <=? c) && (c <=? 32))
  || (c =? 133) || (c =? 160) || (c =? 5760)
  || ((8192 <=? c) && (c <=? 8202))
  || (c =? 8232) || (c =? 8233) || (c =? 8239) || (c =? 8287) || (c =? 12288).

Fixpoint lstrip (s : str) : str :=
  match s with
  | [] => []
  | c :: r => if isspace c then lstrip r else s
  end.

Definition rstrip (s : str) : str := reverse (lstrip (reverse s)).

(** [s.strip()] *)
Definition strip (s : str) : str := rstrip (lstrip s).

(** [s.startswith(p)] *)
Fixpoint startswith (p s : str) : bool :=
  match p, s with
  | [], _ => true
  | a :: p', b :: s' => (a =? b) && startswith p' s'
  | _ :: _, [] => false
  end.

(** [s.endswith(p)] *)
Definition endswith (p s : str) : bool := startswith (reverse p) (reverse s).

(** [s[n:]] and [s[:-n]] *)
Definition slice_from (n : nat) (s : str) : str := drop n s.
Definition slice_to_minus (n : nat) (s : str) : str := take (length s - n) s.

(** [s.rstrip(",")] *)
Fixpoint lstrip_char (x : N) (s : str) : str :=
  match s with
  | [] => []
  | c :: r => if c =? x then lstrip_char x r else s
  end.
Definition rstrip_char (x : N) (s : str) : str := reverse (lstrip_char x (reverse s)).

(** Line boundaries of [str.splitlines]. *)
Definition is_linebreak (c : N) : bool :=
  ((10 <=? c) && (c <=? 13)) || ((28 <=? c) && (c <=? 30))
  || (c =? 133) || (c =? 8232) || (c =? 8233).

(** [s.splitlines()]: [cur] is the line being read, reversed; a carriage
    return directly followed by a line feed is one boundary. *)
Fixpoint splitlines_from (cur : str) (s : str) : list str :=
  match s with
  | [] => match cur with [] => [] | _ => [reverse cur] end
  | c :: r =>
      if is_linebreak c then
        match c, r with
        | 13, 10 :: r' => reverse cur :: splitlines_from [] r'
        | _, _ => reverse cur :: splitlines_from [] r
        end
      else splitlines_from (c :: cur) r
  end.
Definition splitlines (s : str) : list str := splitlines_from [] s.

(** ["\n".join(ls)] *)
Fixpoint join_nl (ls : list str) : str :=
  match ls with
  | [] => []
  | [l] => l
  | l :: r => l ++ 10 :: join_nl r
  end.

(** The lines of a text file as [for line in f] yields them: split after
    every line feed, the line feed kept. *)
Fixpoint file_lines_from (cur : str) (s : str) : list str :=
  match s with
  | [] => match cur with [] => [] | _ => [reverse cur] end
  | c :: r =>
      if c =? 10 then reverse (c :: cur) :: file_lines_from [] r
      else file_lines_from (c :: cur) r
  end.
Definition file_lines (s : str) : list str := file_lines_from [] s.

(** The suffix of [s] that starts at the first occurrence of [x]. *)
Fixpoint from_first (x : N) (s : str) : option str :=
  match s with
  | [] => None
  | c :: r => if c =? x then Some s else from_first x r
  end.

(** The prefix of [s] that ends at the last occurrence of [x]. *)
Definition upto_last (x : N) (s : str) : option str :=
  reverse <$> from_first x (reverse s).

(** [re.compile(r"\{.*\}", re.DOTALL).search(s)]: the leftmost opening
    brace, and greedily everything up to the last closing brace after it. *)
Definition search_braces (s : str) : option str :=
  match from_first 123 s with
  | Some (c :: r) =>
      match upto_last 125 r with
      | Some m => Some (c :: m)
      | None => None
      end
  | _ => None
  end.

(** The longest prefix of [s] with no code point satisfying [stop]. *)
Fixpoint take_until (stop : N -> bool) (s : str) : str :=
  match s with
  | [] => []
  | c :: r => if stop c then [] else c :: take_until stop r
  end.

(** [a in b] for two strings: substring test. *)
Fixpoint substring_in (a s : str) : bool :=
  startswith a s ||
  match s with
  | [] => false
  | _ :: r => substring_in a r
  end.

End Py.

(** ** Python values

    The values [json.loads] can return.  A [dict] is kept as an association
    list in insertion order with no repeated key, which is what a Python
    dict built by successive assignments is.  An integer literal becomes a
    [PInt]; a literal with a fraction or an exponent becomes a [PFloat] that
    keeps the literal's text, since floating point rounding is not modelled. *)

Inductive pyval : Type :=
| PNone
| PBool (b : bool)
| PInt (z : Z)
| PFloat (literal : str)
| PStr (s : str)
| PList (items : list pyval)
| PDict (d : list (str * pyval)).

Abbreviation dict := (list (str * pyval)).

(** The exceptions the scripts can meet.  [GatewayError] is whatever the
    client library raises when a call to the hosted model fails;
    [RetriesExhausted] is the [Exception] that stage 2 raises itself. *)
Inductive exn : Type :=
| TypeError | KeyError | AttributeError | ValueError | JSONDecodeError
| FileNotFoundError | GatewayError | RetriesExhausted.

(** How a piece of Python code ends: with a value or with an exception. *)
Inductive outcome (A : Type) : Type :=
| Returned (a : A)
| Raised (e : exn).
Arguments Returned {A} a.
Arguments Raised {A} e.

Module Val.

Definition str_eqb (a b : str) : bool := bool_decide (a = b).

(** [d.get(k)] on the association list. *)
Fixpoint lookup (k : str) (d : dict) : option pyval :=
  match d with
  | [] => None
  | (k', v) :: r => if str_eqb k k' then Some v else lookup k r
  end.

(** [d[k] = v]: overwrite in place when the key is present, append otherwise. *)
Fixpoint assign (k : str) (v : pyval) (d : dict) : dict :=
  match d with
  | [] => [(k, v)]
  | (k', v') :: r => if str_eqb k k' then (k', v) :: r else (k', v') :: assign k v r
  end.

(** [x[k]] for a string key [k]: [KeyError] on a dict without the key,
    [TypeError] on anything that is not a dict. *)
Definition subscript (x : pyval) (k : str) : outcome pyval :=
  match x with
  | PDict d => match lookup k d with Some v => Returned v | None => Raised KeyError end
  | _ => Raised TypeError
  end.

(** [x.get(k)]: [None] for a missing key; [AttributeError] when [x] is not
    a dict. *)
Definition get (x : pyval) (k : str) : outcome pyval :=
  match x with
  | PDict d => Returned (default PNone (lookup k d))
  | _ => Raised AttributeError
  end.

(** [x.get(k, dflt)] *)
Definition get_default (x : pyval) (k : str) (dflt : pyval) : outcome pyval :=
  match x with
  | PDict d => Returned (default dflt (lookup k d))
  | _ => Raised AttributeError
  end.

(** [x[k] = v] for a string key: [TypeError] unless [x] is a dict. *)
Definition setitem (x : pyval) (k : str) (v : pyval) : outcome pyval :=
  match x with
  | PDict d => Returned (PDict (assign k v d))
  | _ => Raised TypeError
  end.

(** Structural equality of values, used for [==] between identifiers.
    (Python also equates numbers across types, as in [1 == 1.0 == True];
    identifiers of this pipeline are strings.) *)
Fixpoint eqb (a b : pyval) {struct a} : bool :=
  match a, b with
  | PNone, PNone => true
  | PBool x, PBool y => Bool.eqb x y
  | PInt x, PInt y => Z.eqb x y
  | PFloat x, PFloat y => str_eqb x y
  | PStr x, PStr y => str_eqb x y
  | PList x, PList y =>
      (fix go (l1 l2 : list pyval) {struct l1} : bool :=
         match l1, l2 with
         | [], [] => true
         | u :: l1', v :: l2' => eqb u v && go l1' l2'
         | _, _ => false
         end) x y
  | PDict x, PDict y =>
      (fix go (l1 l2 : dict) {struct l1} : bool :=
         match l1, l2 with
         | [], [] => true
         | (k1, u) :: l1', (k2, v) :: l2' => str_eqb k1 k2 && eqb u v && go l1' l2'
         | _, _ => false
         end) x y
  | _, _ => false
  end.

(** [k in x] for a string [k]: key test on a dict, element test on a list,
    substring test on a string, [TypeError] on the rest. *)
Definition contains (x : pyval) (k : str) : outcome bool :=
  match x with
  | PDict d => Returned (bool_decide (is_Some (lookup k d)))
  | PList l => Returned (existsb (eqb (PStr k)) l)
  | PStr s => Returned (Py.substring_in k s)
  | _ => Raised TypeError
  end.

(** [for x in v]: the items a loop over [v] visits; [TypeError] when [v] is
    not iterable. *)
Definition iterate (v : pyval) : outcome (list pyval) :=
  match v with
  | PList l => Returned l
  | PDict d => Returned ((fun kv => PStr (fst kv)) <$> d)
  | PStr s => Returned ((fun c => PStr [c]) <$> s)
  | _ => Raised TypeError
  end.

(** [v is None] *)
Definition is_none (v : pyval) : bool :=
  match v with
  | PNone => true
  | _ => false
  end.

(** Whether [len(v)] is defined. *)
Definition has_len (v : pyval) : bool :=
  match v with
  | PList _ | PDict _ | PStr _ => true
  | _ => false
  end.

(** [len(v)]: [TypeError] when [v] has no length. *)
Definition len (v : pyval) : outcome nat :=
  match v with
  | PList l => Returned (length l)
  | PDict d => Returned (length d)
  | PStr s => Returned (length s)
  | _ => Raised TypeError
  end.

(** Truth value of [x] in a condition.  A float literal is false when its
    mantissa has no digit other than zero. *)
Definition float_truthy (l : str) : bool :=
  let mantissa := Py.take_until (fun c => (c =? 101) || (c =? 69)) l in
  existsb (fun c => negb ((48 =? c) || (c =? 45) || (c =? 46))) mantissa.

Definition truthy (x : pyval) : bool :=
  match x with
  | PNone => false
  | PBool b => b
  | PInt z => negb (Z.eqb z 0)
  | PFloat l => float_truthy l
  | PStr s => negb (bool_decide (s = []))
  | PList l => negb (bool_decide (length l = 0%nat))
  | PDict d => negb (bool_decide (length d = 0%nat))
  end.

(** Whether a value can be put in a Python [set]. *)
Definition hashable (x : pyval) : bool :=
  match x with
  | PList _ | PDict _ => false
  | _ => true
  end.

End Val.

(** ** [json.loads] and [json.dump]

    The scripts only use the two library calls; they are modelled here after
    CPython's [json] package: a lexer that reads the text one code point at
    a time, and a push-down parser over its tokens.  [json_loads s] is
    [Some v] when [json.loads(s)] returns [v] and [None] when it raises
    [JSONDecodeError].  Not modelled: the interpreter's recursion limit on
    deeply nested documents, its limit on the number of digits of an
    integer literal, and the rounding of float literals. *)

Module Json.

Inductive token : Type :=
| TLBrace | TRBrace | TLBrack | TRBrack | TColon | TComma
| TAtom (v : pyval)
| TString (s : str).

(** Lexer states.  Inside a string literal [hi] is a high surrogate that was
    written as an escape and still waits for its low half. *)
Inductive lexst : Type :=
| LBetween
| LAtom (run : str)
| LStr (acc : str) (hi : option N)
| LEsc (acc : str) (hi : option N)
| LHex (acc : str) (hi : option N) (digits : list N).

Definition is_ws (c : N) : bool :=
  (c =? 32) || (c =? 9) || (c =? 10) || (c =? 13).

Definition is_digit (c : N) : bool := (48 <=? c) && (c <=? 57).

Definition is_alpha (c : N) : bool :=
  ((65 <=? c) && (c <=? 90)) || ((97 <=? c) && (c <=? 122)).

(** Code points that can occur in a number or in a literal name. *)
Definition is_atom_char (c : N) : bool :=
  is_digit c || is_alpha c || (c =? 45) || (c =? 43) || (c =? 46).

Definition hex_value (c : N) : option N :=
  if is_digit c then Some (c - 48)
  else if (97 <=? c) && (c <=? 102) then Some (c - 87)
  else if (65 <=? c) && (c <=? 70) then Some (c - 55)
  else None.

Fixpoint span_digits (s : str) : str * str :=
  match s with
  | c :: r => if is_digit c then let '(d, t) := span_digits r in (c :: d, t) else ([], s)
  | [] => ([], [])
  end.

Definition digits_value (ds : str) : Z :=
  fold_left (fun acc c => (10 * acc + Z.of_N (c - 48))%Z) ds 0%Z.

(** The number grammar, matched against the whole run: an optional minus
    sign; a single zero, or a nonzero digit and more digits; optionally a
    dot and one or more digits; optionally [e] or [E], a sign and one or
    more digits. *)
Definition number_value (s : str) : option pyval :=
  let '(neg, s1) := match s with 45 :: r => (true, r) | _ => (false, s) end in
  let '(ip, s2) := span_digits s1 in
  let int_ok := match ip with
                | [] => false
                | [_] => true
                | c :: _ => negb (c =? 48)
                end in
  let frac := match s2 with
              | 46 :: r => let '(fp, s3) := span_digits r in
                           Some (negb (bool_decide (fp = [])), s3)
              | _ => None
              end in
  let s3 := match frac with Some (_, t) => t | None => s2 end in
  let frac_ok := match frac with Some (ok, _) => ok | None => true end in
  let exp := match s3 with
             | c :: r =>
                 if (c =? 101) || (c =? 69) then
                   let r' := match r with
                             | c' :: r'' => if (c' =? 45) || (c' =? 43) then r'' else r
                             | [] => r
                             end in
                   let '(ep, s4) := span_digits r' in
                   Some (negb (bool_decide (ep = [])), s4)
                 else None
             | [] => None
             end in
  let s4 := match exp with Some (_, t) => t | None => s3 end in
  let exp_ok := match exp with Some (ok, _) => ok | None => true end in
  if int_ok && frac_ok && exp_ok && bool_decide (s4 = []) then
    match frac, exp with
    | None, None => Some (PInt (if neg then - digits_value ip else digits_value ip)%Z)
    | _, _ => Some (PFloat s)
    end
  else None.

(** The value of a complete run of atom characters. *)
Definition atom_value (s : str) : option pyval :=
  if bool_decide (s = Py.lit "true") then Some (PBool true)
  else if bool_decide (s = Py.lit "false") then Some (PBool false)
  else if bool_decide (s = Py.lit "null") then Some PNone
  else if bool_decide (s = Py.lit "NaN") || bool_decide (s = Py.lit "Infinity")
          || bool_decide (s = Py.lit "-Infinity") then Some (PFloat s)
  else number_value s.

Definition push_hi (hi : option N) (acc : str) : str :=
  match hi with Some h => h :: acc | None => acc end.

Definition is_high_surrogate (u : N) : bool := (55296 <=? u) && (u <=? 56319).
Definition is_low_surrogate (u : N) : bool := (56320 <=? u) && (u <=? 57343).

(** The code point a [\uXXXX] escape adds, given the pending high surrogate. *)
Definition after_escape (acc : str) (hi : option N) (u : N) : lexst :=
  match hi with
  | Some h =>
      if is_low_surrogate u
      then LStr ((65536 + ((h - 55296) * 1024 + (u - 56320))) :: acc) None
      else if is_high_surrogate u then LStr (h :: acc) (Some u)
      else LStr (u :: h :: acc) None
  | None =>
      if is_high_surrogate u then LStr acc (Some u) else LStr (u :: acc) None
  end.

Definition simple_escape (c : N) : option N :=
  if c =? 34 then Some 34          (* escaped double quote *)
  else if c =? 92 then Some 92     (* escaped backslash *)
  else if c =? 47 then Some 47     (* escaped slash *)
  else if c =? 98 then Some 8      (* b: backspace *)
  else if c =? 102 then Some 12    (* f: form feed *)
  else if c =? 110 then Some 10    (* n: line feed *)
  else if c =? 114 then Some 13    (* r: carriage return *)
  else if c =? 116 then Some 9     (* t: tab *)
  else None.

(** One code point outside any atom or string. *)
Definition lex_between (out : list token) (c : N) : option (lexst * list token) :=
  if is_ws c then Some (LBetween, out)
  else if c =? 123 then Some (LBetween, TLBrace :: out)
  else if c =? 125 then Some (LBetween, TRBrace :: out)
  else if c =? 91 then Some (LBetween, TLBrack :: out)
  else if c =? 93 then Some (LBetween, TRBrack :: out)
  else if c =? 58 then Some (LBetween, TColon :: out)
  else if c =? 44 then Some (LBetween, TComma :: out)
  else if c =? 34 then Some (LStr [] None, out)
  else if is_atom_char c then Some (LAtom [c], out)
  else None.

(** One step of the lexer; [out] holds the tokens read so far, last first. *)
Definition lex_step (st : lexst) (out : list token) (c : N)
  : option (lexst * list token) :=
  match st with
  | LBetween => lex_between out c
  | LAtom run =>
      if is_atom_char c then Some (LAtom (c :: run), out)
      else match atom_value (reverse run) with
           | Some v => lex_between (TAtom v :: out) c
           | None => None
           end
  | LStr acc hi =>
      if c =? 34 then Some (LBetween, TString (reverse (push_hi hi acc)) :: out)
      else if c =? 92 then Some (LEsc acc hi, out)
      else if c <? 32 then None
      else Some (LStr (c :: push_hi hi acc) None, out)
  | LEsc acc hi =>
      if c =? 117 then Some (LHex acc hi [], out)
      else match simple_escape c with
           | Some e => Some (LStr (e :: push_hi hi acc) None, out)
           | None => None
           end
  | LHex acc hi ds =>
      match hex_value c with
      | Some d =>
          match ds with
          | [d1; d2; d3] =>
              Some (after_escape acc hi (((d1 * 16 + d2) * 16 + d3) * 16 + d), out)
          | _ => Some (LHex acc hi (ds ++ [d]), out)
          end
      | None => None
      end
  end.

(** End of the text: only a finished token sequence is accepted. *)
Definition lex_finish (st : lexst) (out : list token) : option (list token) :=
  match st with
  | LBetween => Some (reverse out)
  | LAtom run =>
      match atom_value (reverse run) with
      | Some v => Some (reverse (TAtom v :: out))
      | None => None
      end
  | _ => None
  end.

Fixpoint lex (st : lexst) (out : list token) (s : str) : option (list token) :=
  match s with
  | [] => lex_finish st out
  | c :: r =>
      match lex_step st out c with
      | Some (st', out') => lex st' out' r
      | None => None
      end
  end.

Definition tokenize (s : str) : option (list token) := lex LBetween [] s.

(** *** The parser: a stack of open containers *)

Inductive frame : Type :=
| FList (items : list pyval)                  (* elements so far, last first *)
| FDict (d : dict) (key : option str).        (* members so far, pending key *)

Inductive pstate : Type :=
| SValue (stk : list frame)        (* a value must follow *)
| SValueOrClose (stk : list frame) (* just after an opening bracket *)
| SKeyOrClose (stk : list frame)   (* just after an opening brace *)
| SKey (stk : list frame)          (* after a comma inside an object *)
| SColon (stk : list frame)        (* after a key *)
| SAfter (stk : list frame)        (* after a value inside a container *)
| SDone (v : pyval).               (* the document is complete *)

(** A finished value goes into the innermost open container. *)
Definition deliver (v : pyval) (stk : list frame) : option pstate :=
  match stk with
  | [] => Some (SDone v)
  | FList items :: r => Some (SAfter (FList (v :: items) :: r))
  | FDict d (Some k) :: r => Some (SAfter (FDict (Val.assign k v d) None :: r))
  | FDict _ None :: _ => None
  end.

Definition start_value (stk : list frame) (t : token) : option pstate :=
  match t with
  | TAtom v => deliver v stk
  | TString s => deliver (PStr s) stk
  | TLBrack => Some (SValueOrClose (FList [] :: stk))
  | TLBrace => Some (SKeyOrClose (FDict [] None :: stk))
  | _ => None
  end.

Definition parse_step (st : pstate) (t : token) : option pstate :=
  match st with
  | SValue stk => start_value stk t
  | SValueOrClose stk =>
      match t, stk with
      | TRBrack, FList _ :: r => deliver (PList []) r
      | _, _ => start_value stk t
      end
  | SKeyOrClose stk =>
      match t, stk with
      | TRBrace, FDict d None :: r => deliver (PDict d) r
      | TString k, FDict d None :: r => Some (SColon (FDict d (Some k) :: r))
      | _, _ => None
      end
  | SKey stk =>
      match t, stk with
      | TString k, FDict d None :: r => Some (SColon (FDict d (Some k) :: r))
      | _, _ => None
      end
  | SColon stk =>
      match t with
      | TColon => Some (SValue stk)
      | _ => None
      end
  | SAfter stk =>
      match t, stk with
      | TComma, FList _ :: _ => Some (SValue stk)
      | TRBrack, FList items :: r => deliver (PList (reverse items)) r
      | TComma, FDict _ None :: _ => Some (SKey stk)
      | TRBrace, FDict d None :: r => deliver (PDict d) r
      | _, _ => None
      end
  | SDone _ => None
  end.

Fixpoint parse (st : pstate) (ts : list token) : option pyval :=
  match ts with
  | [] => match st with SDone v => Some v | _ => None end
  | t :: r =>
      match parse_step st t with
      | Some st' => parse st' r
      | None => None
      end
  end.

(** [json.loads(s)] *)
Definition json_loads (s : str) : option pyval :=
  match tokenize s with
  | Some ts => parse (SValue []) ts
  | None => None
  end.

(** *** The serialiser

    [json.dumps(v, ensure_ascii=False)] when [indent] is [None] and
    [json.dumps(v, ensure_ascii=False, indent=n)] when it is [Some n]. *)

Definition hex_digit (n : N) : N := if n <? 10 then 48 + n else 87 + n.

Definition escape_char (c : N) : str :=
  if c =? 34 then [92; 34]
  else if c =? 92 then [92; 92]
  else if c =? 10 then [92; 110]
  else if c =? 13 then [92; 114]
  else if c =? 9 then [92; 116]
  else if c =? 8 then [92; 98]
  else if c =? 12 then [92; 102]
  else if c <? 32 then [92; 117; 48; 48; hex_digit (c / 16); hex_digit (c mod 16)]
  else [c].

Definition quote (s : str) : str := 34 :: concat (escape_char <$> s) ++ [34].

(** The separator written before an item at nesting depth [level]. *)
Definition newline_indent (indent : option nat) (level : nat) : str :=
  match indent with
  | Some n => 10 :: replicate (n * level) 32
  | None => []
  end.

Definition item_separator (indent : option nat) (level : nat) : str :=
  match indent with
  | Some _ => 44 :: newline_indent indent level
  | None => [44; 32]
  end.

Fixpoint dumps (indent : option nat) (level : nat) (v : pyval) : str :=
  match v with
  | PNone => Py.lit "null"
  | PBool true => Py.lit "true"
  | PBool false => Py.lit "false"
  | PInt z => Py.lit (pretty z)
  | PFloat l => l
  | PStr s => quote s
  | PList [] => [91; 93]
  | PList items =>
      91 :: newline_indent indent (S level)
      ++ (fix go (l : list pyval) : str :=
            match l with
            | [] => []
            | [x] => dumps indent (S level) x
            | x :: r => dumps indent (S level) x ++ item_separator indent (S level) ++ go r
            end) items
      ++ newline_indent indent level ++ [93]
  | PDict [] => [123; 125]
  | PDict d =>
      123 :: newline_indent indent (S level)
      ++ (fix go (l : dict) : str :=
            match l with
            | [] => []
            | [(k, x)] => quote k ++ [58; 32] ++ dumps indent (S level) x
            | (k, x) :: r =>
                quote k ++ [58; 32] ++ dumps indent (S level) x
                ++ item_separator indent (S level) ++ go r
            end) d
      ++ newline_indent indent level ++ [125]
  end.

(** [json.dumps(v, ensure_ascii=False)] *)
Definition json_dumps (v : pyval) : str := dumps None 0 v.

(** The text [json.dump(v, f, ensure_ascii=False, indent=2)] writes. *)
Definition json_dump_indent2 (v : pyval) : str := dumps (Some 2%nat) 0 v.

End Json.

(** ** Exceptions as a monad *)

#[export] Instance outcome_ret : MRet outcome := fun _ a => Returned a.
#[export] Instance outcome_bind : MBind outcome := fun _ _ f m =>
  match m with
  | Returned a => f a
  | Raised e => Raised e
  end.
#[export] Instance outcome_fmap : FMap outcome := fun _ _ f m =>
  match m with
  | Returned a => Returned (f a)
  | Raised e => Raised e
  end.

(** Run [f] over a list, stopping at the first exception. *)
Fixpoint traverse {A B : Type} (f : A -> outcome B) (l : list A) : outcome (list B) :=
  match l with
  | [] => Returned []
  | x :: r => y ← f x; ys ← traverse f r; Returned (y :: ys)
  end.

(** A Python [set] of identifiers, kept as a list without repetition. *)
Module IdSet.

Definition mem (x : pyval) (s : list pyval) : bool := existsb (Val.eqb x) s.

Definition add (x : pyval) (s : list pyval) : list pyval :=
  if mem x s then s else s ++ [x].

(** [x in s]: [TypeError] when [x] cannot be hashed. *)
Definition contains (s : list pyval) (x : pyval) : outcome bool :=
  if Val.hashable x then Returned (mem x s) else Raised TypeError.

(** [s.add(x)] *)
Definition insert (x : pyval) (s : list pyval) : outcome (list pyval) :=
  if Val.hashable x then Returned (add x s) else Raised TypeError.

End IdSet.

(** ** Files

    A file system is a finite map from path to text.  Writing a file is not
    one step: [open(p, "w")] empties the file and the text then arrives one
    piece after the other, so a process killed on the way leaves a prefix. *)

Module Fs.

Inductive op : Type :=
| Truncate (p : string)
| Append (p : string) (c : N)
| Remove (p : string)
| Rename (src dst : string).

Definition apply (fs : gmap string str) (o : op) : gmap string str :=
  match o with
  | Truncate p => <[p := []]> fs
  | Append p c =>
      match fs !! p with
      | Some t => <[p := t ++ [c]]> fs
      | None => fs
      end
  | Remove p => delete p fs
  | Rename src dst =>
      match fs !! src with
      | Some t => <[dst := t]> (delete src fs)
      | None => fs
      end
  end.

Definition run (fs : gmap string str) (ops : list op) : gmap string str :=
  foldl apply fs ops.

(** [with open(p, "w") as f: f.write(text)] *)
Definition write_ops (p : string) (text : str) : list op :=
  Truncate p :: (Append p <$> text).

(** The states a kill can leave behind: the run of any prefix of [ops]. *)
Definition crash_state (fs : gmap string str) (ops : list op) (k : nat)
  : gmap string str := run fs (take k ops).

End Fs.

(** ** Code shared by stage 1 and stage 2

    [agent1_extract_information.py] lines 50-54 and
    [agent2_conversations.py] lines 95-99 are the same statements:
<<
    text = output.strip()
    if text.startswith("```json"): text = text[len("```json"):].strip()
    if text.endswith("```"): text = text[:-3].strip()
>> *)

Definition strip_json_fence (output : str) : str :=
  let text := Py.strip output in
  let text := if Py.startswith (Py.lit "```json") text
              then Py.strip (Py.slice_from 7 text) else text in
  if Py.endswith (Py.lit "```") text
  then Py.strip (Py.slice_to_minus 3 text) else text.

(** ** Stage 1: [agent1_extract_information.py] *)

Module Agent1.

(** The value of [data] in [extract_round_info]: the fence-stripped text
    parsed strictly; failing that, the span [JSON_OBJ_RE] finds, parsed
    inside the handler (so its failure is raised), or [{}] without a span. *)
Definition parse_output (output : str) : outcome pyval :=
  let text := strip_json_fence output in
  match Json.json_loads text with
  | Some data => Returned data
  | None =>
      match Py.search_braces text with
      | Some m =>
          match Json.json_loads m with
          | Some data => Returned data
          | None => Raised JSONDecodeError
          end
      | None => Returned (PDict [])
      end
  end.

Definition extract_round_info (output : str) : outcome (pyval * pyval) :=
  data ← parse_output output;
  rounds ← Val.get data (Py.lit "rounds");
  info ← Val.get data (Py.lit "info_by_round");
  Returned (rounds, info).

(** [load_processed_ids]: one identifier per line that parses; a line that
    raises anything is skipped. *)
Definition load_processed_ids (file : option str) : list pyval :=
  match file with
  | None => []
  | Some text =>
      foldl (fun processed line =>
               match Json.json_loads line with
               | Some v =>
                   match (pid ← Val.get v (Py.lit "post_id"); IdSet.insert pid processed) with
                   | Returned processed' => processed'
                   | Raised _ => processed
                   end
               | None => processed
               end) [] (Py.file_lines text)
  end.

(** The text of the f-string of [build_prompt] (lines 78-91) before and
    after [{content}]; [8211] is the dash of the two ranges, and a doubled
    brace of the f-string is one brace. *)
Definition prompt_before : str :=
  [10]
  ++ Py.lit "You are a compassionate and experienced psychological counselor. " ++ [10]
  ++ Py.lit "Analyze the following user post and simulate the planning process " ++ [10]
  ++ Py.lit "of a brief therapeutic conversation (1" ++ [8211] ++ Py.lit "3 rounds)." ++ [10]
  ++ [10]
  ++ Py.lit "Post content:" ++ [10]
  ++ Py.qlit "['".

Definition prompt_after : str :=
  Py.qlit "']" ++ [10]
  ++ [10]
  ++ Py.lit "Return your output strictly in this JSON format:" ++ [10]
  ++ Py.lit "{" ++ [10]
  ++ Py.qlit "  'rounds': number (1" ++ [8211] ++ Py.lit "3)," ++ [10]
  ++ Py.qlit "  'info_by_round': [list of strings, each describing the focus of one round]"
  ++ [10]
  ++ Py.lit "}" ++ [10].

(** [build_prompt(content)] for a string [content]. *)
Definition build_prompt (content : str) : str :=
  Py.strip (prompt_before ++ content ++ prompt_after).

(** What [worker] can change: the text appended to the output file and the
    set of processed identifiers. *)
Record state : Type := { outf : str; processed_ids : list pyval }.

(** The body of the [try] in [worker], given the model's answer [out].
    [pid] went through [pid in processed_ids] before, so it can be hashed
    and [processed_ids.add(pid)] does not raise. *)
Definition worker_try (post pid : pyval) (out : str) (st : state) : outcome state :=
  '(rounds, info) ← extract_round_info out;
  if Val.is_none rounds || Val.is_none info then Returned st
  else
    file ← Val.get post (Py.lit "file");
    let result := PDict [(Py.lit "post_id", pid); (Py.lit "file", file);
                         (Py.lit "rounds", rounds); (Py.lit "info_by_round", info)] in
    Returned {| outf := outf st ++ Json.json_dumps result ++ [10];
                processed_ids := IdSet.add pid (processed_ids st) |}.

(** [worker(post)]: [response] is what [inference_with_deepseek] does for
    this post.  The result is the state afterwards and the number of calls
    made to the hosted model; an exception that escapes the worker is held
    by its future and changes nothing. *)
Definition worker (post : pyval) (response : outcome str) (st : state) : state * nat :=
  match Val.get post (Py.lit "post_id") with
  | Raised _ => (st, 0%nat)
  | Returned pid =>
      match IdSet.contains (processed_ids st) pid with
      | Raised _ => (st, 0%nat)
      | Returned true => (st, 0%nat)
      | Returned false =>
          match Val.get_default post (Py.lit "content") (PStr []) with
          | Raised _ => (st, 0%nat)
          | Returned _ =>
              match response with
              | Raised _ => (st, 1%nat)
              | Returned out =>
                  match worker_try post pid out st with
                  | Returned st' => (st', 1%nat)
                  | Raised _ => (st, 1%nat)
                  end
              end
          end
      end
  end.

(** [main], with the workers taken one after the other in input order.
    [gw i] is what the hosted model does for the [i]-th post.  The result
    is the final state and, for every post, the number of calls made. *)
Fixpoint run_workers (gw : nat -> outcome str) (i : nat) (posts : list pyval)
    (st : state) : state * list (pyval * nat) :=
  match posts with
  | [] => (st, [])
  | post :: rest =>
      let '(st1, n) := worker post (gw i) st in
      let '(st2, log) := run_workers gw (S i) rest st1 in
      (st2, (post, n) :: log)
  end.

Definition main (posts : list pyval) (output_file : option str)
    (gw : nat -> outcome str) : state * list (pyval * nat) :=
  run_workers gw 0 posts
    {| outf := default [] output_file;
       processed_ids := load_processed_ids output_file |}.

End Agent1.

(** ** Stage 2: [agent2_conversations.py] *)

Module Agent2.

Definition OUTPUT_PATH : string := "path/to/output.json".
Definition INPUT_PATH : string := "path/to/input.json".
Definition TEMP_OUTPUT_PATH : string := OUTPUT_PATH +:+ ".temp".
Definition MAX_RETRIES : nat := 3.
Definition BATCH_SIZE : nat := 25.

(** Lines 95-101: the answer's text, fence-stripped and parsed strictly. *)
Definition parse_content (content : str) : option pyval :=
  Json.json_loads (strip_json_fence content).

(** The body of the [try] of [inference_generate_conversation]: [response]
    is what the call to the hosted model does. *)
Definition attempt (post_id : pyval) (response : outcome str) : outcome pyval :=
  content ← response;
  match parse_content content with
  | None => Raised JSONDecodeError
  | Some conv =>
      c ← Val.subscript conv (Py.lit "conversation");
      Returned (PDict [(Py.lit "post_id", post_id); (Py.lit "conversation", c)])
  end.

(** Lines 79-83: the user message sent with the plan of a record. *)
Definition user_message (info_by_round : pyval) : outcome str :=
  n ← Val.len info_by_round;
  let prompt_payload := PDict [(Py.lit "rounds", PInt (Z.of_nat n));
                               (Py.lit "info_by_round", info_by_round)] in
  Returned (Py.lit "Input JSON:" ++ [10] ++ Json.json_dumps prompt_payload).

(** [inference_generate_conversation(post_id, info_by_round, retry_count)].
    [gw k] is what the hosted model does at the attempt made with
    [retry_count = k].  The second component counts the calls made to the
    hosted model.  [len(info_by_round)] is evaluated before the [try]. *)
Equations inference_generate_conversation
    (gw : nat -> outcome str) (post_id info_by_round : pyval) (retry_count : nat)
    : outcome pyval * nat by wf (MAX_RETRIES - retry_count)%nat lt :=
  inference_generate_conversation gw post_id info_by_round retry_count
    with Val.has_len info_by_round => {
    | false => (Raised TypeError, 0%nat)
    | true with attempt post_id (gw retry_count) => {
      | Returned r => (Returned r, 1%nat)
      | Raised _ with lt_dec retry_count MAX_RETRIES => {
        | left _ =>
            let '(r, n) := inference_generate_conversation
                             gw post_id info_by_round (S retry_count) in
            (r, S n)
        | right _ => (Raised RetriesExhausted, 1%nat) } } }.
Next Obligation. unfold MAX_RETRIES in *. lia. Qed.

(** [process_record(record)]: the two subscripts are outside the [try],
    the call is inside; [None] is the record's failure marker. *)
Definition process_record (gw : nat -> outcome str) (record : pyval)
    : outcome (option pyval) * nat :=
  match Val.subscript record (Py.lit "post_id") with
  | Raised e => (Raised e, 0%nat)
  | Returned post_id =>
      match Val.subscript record (Py.lit "info_by_round") with
      | Raised e => (Raised e, 0%nat)
      | Returned info_by_round =>
          match inference_generate_conversation gw post_id info_by_round 0 with
          | (Returned result, n) => (Returned (Some result), n)
          | (Raised _, n) => (Returned None, n)
          end
      end
  end.

(** [load_ndjson]: every non-blank line that parses. *)
Definition load_ndjson (text : str) : list pyval :=
  omap (fun line =>
          let line := Py.strip line in
          if bool_decide (line = []) then None else Json.json_loads line)
       (Py.file_lines text).

(** [{rec["post_id"] for rec in records}] *)
Fixpoint post_id_set (records : list pyval) (acc : list pyval) : outcome (list pyval) :=
  match records with
  | [] => Returned acc
  | rec :: rest =>
      pid ← Val.subscript rec (Py.lit "post_id");
      acc' ← IdSet.insert pid acc;
      post_id_set rest acc'
  end.

(** The line-by-line fallback of [load_processed_records].  An exception
    other than [JSONDecodeError] leaves the loop through the outer handler,
    with the record already appended. *)
Fixpoint load_lines (lines : list str) (records ids : list pyval)
    : list pyval * list pyval :=
  match lines with
  | [] => (records, ids)
  | line :: rest =>
      let line := Py.rstrip_char 44 (Py.strip line) in
      if bool_decide (line = []) || bool_decide (line = [91]) || bool_decide (line = [93])
      then load_lines rest records ids
      else
        match Json.json_loads line with
        | None => load_lines rest records ids
        | Some record =>
            match (pid ← Val.subscript record (Py.lit "post_id"); IdSet.insert pid ids) with
            | Returned ids' => load_lines rest (records ++ [record]) ids'
            | Raised _ => (records ++ [record], ids)
            end
        end
  end.

(** What [load_processed_records] makes of the text of the file it opened.
    A text that starts with a bracket and parses is a list (lemma
    [json_loads_bracket]), so the case of another value never occurs. *)
Definition load_text (text : str) : list pyval * list pyval :=
  let content := Py.strip text in
  match (if Py.startswith [91] content then Json.json_loads content else None) with
  | Some (PList records) =>
      match post_id_set records [] with
      | Returned ids => (records, ids)
      | Raised _ => (records, [])
      end
  | Some _ => ([], [])
  | None => load_lines (Py.file_lines text) [] []
  end.

(** [load_processed_records(output_path)]: returns [(records, processed_ids)]. *)
Definition load_processed_records (fs : gmap string str) (output_path : string)
    : list pyval * list pyval :=
  let temp_path := output_path +:+ ".temp" in
  let output_path := if bool_decide (is_Some (fs !! temp_path))
                     then temp_path else output_path in
  match fs !! output_path with
  | None => ([], [])
  | Some text => load_text text
  end.

(** [save_progress(output_path, records)], as the file operations it
    performs on [fs], in order: the dump into the temporary file, then
    [os.remove] of the destination when it exists, then [os.rename].
    Directories ([os.makedirs]) are not modelled. *)
Definition save_progress (fs : gmap string str) (output_path : string)
    (records : list pyval) : list Fs.op :=
  let temp_path := output_path +:+ ".temp" in
  let written := Fs.write_ops temp_path (Json.json_dump_indent2 (PList records)) in
  written ++
  (if bool_decide (output_path <> temp_path) then
     (if bool_decide (is_Some (Fs.run fs written !! output_path))
      then [Fs.Remove output_path] else [])
     ++ [Fs.Rename temp_path output_path]
   else []).

(** What [process_record] puts on the progress queue (lines 121-127): [1]
    beside a result, [0] beside the failure marker. *)
Definition reported (result : option pyval) : Z :=
  match result with
  | Some _ => 1%Z
  | None => 0%Z
  end.

(** The counters of [update_progress], and the number of times the bar was
    advanced. *)
Record progress : Type := {
  success_count : nat;
  fail_count : nat;
  advanced : nat;
}.

(** [update_progress] (lines 207-220).  [queue] is what [progress_queue.get]
    delivers, in order: [Some status] for a status put by a worker, [None]
    for the sentinel that the main block puts at the end.  The loop leaves
    at the sentinel; when the queue runs dry before it, the thread waits
    for ever and the result is [None]. *)
Fixpoint update_progress_from (queue : list (option Z)) (st : progress)
    : option progress :=
  match queue with
  | [] => None
  | None :: _ => Some st
  | Some status :: rest =>
      update_progress_from rest
        (if (status =? 1)%Z
         then {| success_count := S (success_count st); fail_count := fail_count st;
                 advanced := S (advanced st) |}
         else {| success_count := success_count st; fail_count := S (fail_count st);
                 advanced := S (advanced st) |})
  end.

Definition update_progress (queue : list (option Z)) : option progress :=
  update_progress_from queue {| success_count := 0; fail_count := 0; advanced := 0 |}.

(** Line 239: [[rec for rec in records if rec["post_id"] not in processed_ids]] *)
Fixpoint records_to_process (records processed_ids : list pyval)
    : outcome (list pyval) :=
  match records with
  | [] => Returned []
  | rec :: rest =>
      pid ← Val.subscript rec (Py.lit "post_id");
      seen ← IdSet.contains processed_ids pid;
      todo ← records_to_process rest processed_ids;
      Returned (if (seen : bool) then todo else rec :: todo)
  end.

(** [[l[i:i + n] for i in range(0, len(l), n)]]: [cur] is the batch being
    filled, last first, with room for [room] more. *)
Fixpoint batches_from {A : Type} (n room : nat) (cur : list A) (l : list A)
    : list (list A) :=
  match l with
  | [] => match cur with [] => [] | _ => [reverse cur] end
  | x :: r =>
      match room with
      | 0%nat | 1%nat => reverse (x :: cur) :: batches_from n n [] r
      | S room' => batches_from n room' (x :: cur) r
      end
  end.
Definition batches {A : Type} (n : nat) (l : list A) : list (list A) :=
  batches_from n n [] l.

(** [pool.map(process_func, batch)]: every record of the batch is
    processed; the first exception, if any, is raised once all are done.
    [log] records one entry per call to the hosted model: the record's
    position in the pending list. *)
Fixpoint pool_map (gw : nat -> nat -> outcome str) (batch : list (nat * pyval))
    : outcome (list (option pyval)) * list nat :=
  match batch with
  | [] => (Returned [], [])
  | (i, record) :: rest =>
      let '(r, n) := process_record (gw i) record in
      let '(rs, log) := pool_map gw rest in
      (x ← r; xs ← rs; Returned (x :: xs), replicate n i ++ log)
  end.

(** Lines 265 and 279: [combined_records = existing_records + results] *)
Definition combined_records (existing_records results : list pyval) : list pyval :=
  existing_records ++ results.

(** The state of the [for] loop over the batches; [flushed] keeps every
    collection handed to [save_progress], oldest first. *)
Record loop_state : Type := {
  results : list pyval;
  disk : gmap string str;
  calls : list nat;
  flushed : list (list pyval);
}.

(** The [for] loop inside the [try]: an exception ends it. *)
Fixpoint batch_loop (gw : nat -> nat -> outcome str) (existing_records : list pyval)
    (bs : list (list (nat * pyval))) (st : loop_state) : loop_state :=
  match bs with
  | [] => st
  | batch :: rest =>
      let '(r, log) := pool_map gw batch in
      match r with
      | Raised _ =>
          {| results := results st; disk := disk st; calls := calls st ++ log;
             flushed := flushed st |}
      | Returned batch_results =>
          let successful_results := omap id batch_results in
          let results' := results st ++ successful_results in
          let combined := combined_records existing_records results' in
          batch_loop gw existing_records rest
            {| results := results';
               disk := Fs.run (disk st)
                         (save_progress (disk st) TEMP_OUTPUT_PATH combined);
               calls := calls st ++ log;
               flushed := flushed st ++ [combined] |}
      end
  end.

(** What a run leaves behind. *)
Record run : Type := {
  pending : list pyval;           (* [records_to_process] *)
  new_results : list pyval;       (* [results] *)
  flushes : list (list pyval);    (* every collection flushed, oldest first *)
  final_disk : gmap string str;
  gateway_calls : list nat;       (* positions in [pending], one per call *)
}.

(** The main block.  [gw i k] is what the hosted model does at the [k]-th
    attempt for the [i]-th pending record.  A missing input file and a
    record without identifier end the run before anything is written; with
    nothing pending the script exits without writing. *)
Definition main (fs : gmap string str) (gw : nat -> nat -> outcome str) : outcome run :=
  let '(existing_records, processed_ids) := load_processed_records fs OUTPUT_PATH in
  match fs !! INPUT_PATH with
  | None => Raised FileNotFoundError
  | Some text =>
      let records := load_ndjson text in
      todo ← records_to_process records processed_ids;
      match todo with
      | [] => Returned {| pending := []; new_results := []; flushes := [];
                          final_disk := fs; gateway_calls := [] |}
      | _ =>
          let st := batch_loop gw existing_records
                      (batches BATCH_SIZE (zip (seq 0 (length todo)) todo))
                      {| results := []; disk := fs; calls := []; flushed := [] |} in
          let combined := combined_records existing_records (results st) in
          Returned {| pending := todo; new_results := results st;
                      flushes := flushed st ++ [combined];
                      final_disk := Fs.run (disk st)
                                      (save_progress (disk st) OUTPUT_PATH combined);
                      gateway_calls := calls st |}
      end
  end.

End Agent2.

(** ** Stage 3: [agent3_thinking_psy.py] *)

Module Agent3.

Definition input_file : string := "path/to/input.json".
Definition output_file : string := "path/to/output.json".



(** One entry of [tasks]: [(i, j, conv["patient"], conversation_history)]. *)
Record task : Type := {
  post_idx : nat;
  conv_idx : nat;
  patient : pyval;
  history : list (string * pyval);     (* role and content of each message *)
}.

(** Lines 86-91: the messages of the turns before the current one. *)
Fixpoint conversation_history (prev : list pyval) : outcome (list (string * pyval)) :=
  match prev with
  | [] => Returned []
  | prev_conv :: rest =>
      cc ← Val.get prev_conv (Py.lit "counselor_content");
      p ← Val.get prev_conv (Py.lit "patient");
      more ← conversation_history rest;
      Returned ((if Val.truthy cc then [("assistant"%string, cc)] else [])
                ++ (if Val.truthy p then [("user"%string, p)] else [])
                ++ more)
  end.

(** Line 84: [not conv.get("counselor_content") and conv.get("patient")] *)
Definition needs_reply (conv : pyval) : outcome bool :=
  cc ← Val.get conv (Py.lit "counselor_content");
  p ← Val.get conv (Py.lit "patient");
  Returned (negb (Val.truthy cc) && Val.truthy p).

(** The inner loop, lines 83-93, from turn [j] on; [conversation] is the
    whole list of turns of post [i]. *)
Fixpoint conv_tasks (i : nat) (conversation : list pyval) (j : nat)
    (convs : list pyval) : outcome (list task) :=
  match convs with
  | [] => Returned []
  | conv :: rest =>
      pending ← needs_reply conv;
      here ← (if (pending : bool) then
                h ← conversation_history (take j conversation);
                p ← Val.subscript conv (Py.lit "patient");
                Returned [{| post_idx := i; conv_idx := j; patient := p; history := h |}]
              else Returned []);
      more ← conv_tasks i conversation (S j) rest;
      Returned (here ++ more)
  end.

Definition post_tasks (i : nat) (post : pyval) : outcome (list task) :=
  c ← Val.get_default post (Py.lit "conversation") (PList []);
  convs ← Val.iterate c;
  conv_tasks i convs 0 convs.

(** The outer loop, lines 81-93. *)
Fixpoint build_tasks (i : nat) (posts : list pyval) : outcome (list task) :=
  match posts with
  | [] => Returned []
  | post :: rest =>
      here ← post_tasks i post;
      more ← build_tasks (S i) rest;
      Returned (here ++ more)
  end.

(** Lines 137-139: the two assignments into
    [posts[post_idx]["conversation"][conv_idx]]. *)
Definition update_turn (posts : list pyval) (i j : nat) (reply think : pyval)
    : outcome (list pyval) :=
  match posts !! i with
  | Some (PDict d) =>
      match Val.lookup (Py.lit "conversation") d with
      | Some (PList convs) =>
          match convs !! j with
          | Some conv =>
              conv1 ← Val.setitem conv (Py.lit "counselor_content") reply;
              conv2 ← Val.setitem conv1 (Py.lit "counselor_think") think;
              Returned (<[i := PDict (Val.assign (Py.lit "conversation")
                                        (PList (<[j := conv2]> convs)) d)]> posts)
          | None => Raised KeyError
          end
      | _ => Raised TypeError
      end
  | _ => Raised TypeError
  end.

(** [write_json_file(filename, posts)]: the file is opened for writing and
    the text is written into it in place. *)
Definition write_json_file (filename : string) (posts : list pyval) : list Fs.op :=
  Fs.write_ops filename (Json.json_dump_indent2 (PList posts)).

Record loop_state : Type := {
  posts_now : list pyval;
  update_counter : nat;
  disk : gmap string str;
}.

(** The loop over [as_completed], lines 127-147.  [order] lists the tasks
    (by position in [tasks]) in the order their futures complete;
    [answers k] is the result of the future of task [k]. *)
Fixpoint completion_loop (tasks : list task) (answers : nat -> outcome (pyval * pyval))
    (order : list nat) (st : loop_state) : outcome loop_state :=
  match order with
  | [] => Returned st
  | k :: rest =>
      match tasks !! k with
      | None => completion_loop tasks answers rest st
      | Some t =>
          match answers k with
          | Raised _ => completion_loop tasks answers rest st
          | Returned (reply, think) =>
              posts' ← update_turn (posts_now st) (post_idx t) (conv_idx t) reply think;
              let counter := S (update_counter st) in
              completion_loop tasks answers rest
                {| posts_now := posts';
                   update_counter := counter;
                   disk := if bool_decide (counter mod 10 = 0)%nat
                           then Fs.run (disk st) (write_json_file output_file posts')
                           else disk st |}
          end
      end
  end.

(** [main] from the loaded [posts] on.  Without a pending turn it returns
    before anything is written. *)
Definition main_from (posts : list pyval) (fs : gmap string str)
    (answers : nat -> outcome (pyval * pyval)) (order : list nat)
    : outcome (list pyval * gmap string str) :=
  tasks ← build_tasks 0 posts;
  match tasks with
  | [] => Returned (posts, fs)
  | _ =>
      st ← completion_loop tasks answers order
             {| posts_now := posts; update_counter := 0; disk := fs |};
      Returned (posts_now st,
                Fs.run (disk st) (write_json_file output_file (posts_now st)))
  end.

(** [main]: the output file, when it exists, is the input of the run. *)
Definition main (fs : gmap string str)
    (answers : nat -> outcome (pyval * pyval)) (order : list nat)
    : outcome (list pyval * gmap string str) :=
  let source := if bool_decide (is_Some (fs !! output_file))
                then output_file else input_file in
  match fs !! source with
  | None => Raised FileNotFoundError
  | Some text =>
      match Json.json_loads text with
      | None => Raised JSONDecodeError
      | Some v =>
          match v with
          | PList posts => main_from posts fs answers order
          | _ =>
              (* anything else either has nothing to visit or fails at its
                 first item *)
              items ← Val.iterate v;
              tasks ← build_tasks 0 items;
              match tasks with
              | [] => Returned ([], fs)
              | _ => Raised TypeError
              end
          end
      end
  end.

End Agent3.

(** ** Stage 4: [agent4_filter.py] *)

Module Agent4.

Definition input_file : string := "path/to/input.json".
Definition output_file : string := "path/to/output.json".

(** Lines 73-76: the lines up to the first one that starts with a fence. *)
Fixpoint content_lines (lines : list str) : list str :=
  match lines with
  | [] => []
  | line :: rest =>
      if Py.startswith (Py.lit "```") (Py.strip line) then []
      else line :: content_lines rest
  end.

(** Lines 70-77. *)
Definition unwrap_code_block (result_text : str) : str :=
  if Py.startswith (Py.lit "```") result_text
  then Py.strip (Py.join_nl (content_lines (tail (Py.splitlines result_text))))
  else result_text.

(** The name of an exception stands for the text Python prints for it. *)
Definition exn_text (e : exn) : str :=
  match e with
  | TypeError => Py.lit "TypeError"
  | KeyError => Py.lit "KeyError"
  | AttributeError => Py.lit "AttributeError"
  | ValueError => Py.lit "Missing required keys in response JSON."
  | JSONDecodeError => Py.lit "JSONDecodeError"
  | FileNotFoundError => Py.lit "FileNotFoundError"
  | GatewayError => Py.lit "GatewayError"
  | RetriesExhausted => Py.lit "RetriesExhausted"
  end.

(** Lines 88-92: the fallback result. *)
Definition reject (e : exn) (result_text : str) : pyval :=
  PDict [(Py.lit "keep", PBool false);
         (Py.lit "issues", PList []);
         (Py.lit "reason",
          PStr (Py.lit "Invalid model response: " ++ exn_text e
                ++ Py.lit " | Raw output: " ++ result_text))].

(** Line 82: [all(k in result for k in ("keep", "issues", "reason"))] *)
Definition has_required_keys (result : pyval) : outcome bool :=
  a ← Val.contains result (Py.lit "keep");
  if (a : bool) then
    b ← Val.contains result (Py.lit "issues");
    if (b : bool) then Val.contains result (Py.lit "reason") else Returned false
  else Returned false.

(** Lines 67-92: what the function makes of the text of the answer. *)
Definition interpret (content : str) : pyval :=
  let result_text := unwrap_code_block (Py.strip content) in
  match Json.json_loads result_text with
  | None => reject JSONDecodeError result_text
  | Some result =>
      match has_required_keys result with
      | Returned true => result
      | Returned false => reject ValueError result_text
      | Raised e => reject e result_text
      end
  end.

(** [inference_with_deepseek_v3]: the call to the hosted model is outside
    the [try], so its failure is raised. *)
Definition inference_with_deepseek_v3 (response : outcome str) : outcome pyval :=
  content ← response;
  Returned (interpret content).

(** The loop of [main], lines 119-125; [gw i] is what the hosted model does
    for the [i]-th post. *)
Fixpoint filter_posts (gw : nat -> outcome str) (i : nat) (posts : list pyval)
    : outcome (list pyval) :=
  match posts with
  | [] => Returned []
  | post :: rest =>
      post_id ← Val.get post (Py.lit "post_id");
      result ← inference_with_deepseek_v3 (gw i);
      result' ← Val.setitem result (Py.lit "post_id") post_id;
      results ← filter_posts gw (S i) rest;
      Returned (result' :: results)
  end.

Definition write_json_file (filepath : string) (data : list pyval) : list Fs.op :=
  Fs.write_ops filepath (Json.json_dump_indent2 (PList data)).

(** [main]: the results are written once, after the loop. *)
Definition main (fs : gmap string str) (gw : nat -> outcome str)
    : outcome (list pyval * gmap string str) :=
  match fs !! input_file with
  | None => Raised FileNotFoundError
  | Some text =>
      match Json.json_loads text with
      | None => Raised JSONDecodeError
      | Some v =>
          posts ← Val.iterate v;
          results ← filter_posts gw 0 posts;
          Returned (results, Fs.run fs (write_json_file output_file results))
      end
  end.

End Agent4.

(** ** Client rotation under an interleaving of threads

    [get_client] of stage 1 (lines 26-31) and of stage 3 (lines 105-111)
    run the same three steps on the shared index: look the client up, compute
    the next index, store it.  Stage 3 runs them inside [with client_lock];
    stage 1 takes no lock.  A thread can be preempted between any two steps.
    Clients are named by their position in [clients]. *)

Module Rotation.

Inductive pc : Type :=
| AtAcquire                      (* stage 3 only: entering [with client_lock] *)
| AtLookup                       (* about to read [clients[client_index]] *)
| AtAdd (client : nat)           (* about to evaluate [client_index + 1] *)
| AtStore (client next : nat)    (* about to assign [client_index] *)
| AtRelease (client : nat)       (* stage 3 only: leaving the [with] block *)
| Finished (client : nat).       (* [get_client] has returned [client] *)

Record world : Type := {
  client_index : nat;
  lock_held : bool;
  threads : list pc;
}.

(** One step of thread [t]; [None] when the thread is blocked on the lock,
    has returned, or does not exist.  [guarded] tells the two scripts apart
    and [n] is [len(clients)]. *)
Definition step (guarded : bool) (n : nat) (w : world) (t : nat) : option world :=
  match threads w !! t with
  | None => None
  | Some AtAcquire =>
      if lock_held w then None
      else Some {| client_index := client_index w; lock_held := true;
                   threads := <[t := AtLookup]> (threads w) |}
  | Some AtLookup =>
      Some {| client_index := client_index w; lock_held := lock_held w;
              threads := <[t := AtAdd (client_index w)]> (threads w) |}
  | Some (AtAdd c) =>
      Some {| client_index := client_index w; lock_held := lock_held w;
              threads := <[t := AtStore c (client_index w + 1)]> (threads w) |}
  | Some (AtStore c next) =>
      Some {| client_index := (next mod n)%nat; lock_held := lock_held w;
              threads := <[t := if guarded then AtRelease c else Finished c]> (threads w) |}
  | Some (AtRelease c) =>
      Some {| client_index := client_index w; lock_held := false;
              threads := <[t := Finished c]> (threads w) |}
  | Some (Finished _) => None
  end.

(** A schedule names the thread that runs next; a thread that cannot move
    loses its turn. *)
Fixpoint run (guarded : bool) (n : nat) (w : world) (schedule : list nat) : world :=
  match schedule with
  | [] => w
  | t :: rest => run guarded n (default w (step guarded n w t)) rest
  end.

(** [k] workers about to call [get_client]. *)
Definition start (guarded : bool) (index k : nat) : world :=
  {| client_index := index; lock_held := false;
     threads := replicate k (if guarded then AtAcquire else AtLookup) |}.

(** Stage 1: [get_client] as written, without the lock. *)
Definition agent1_get_client := run false.
(** Stage 3: [get_client] inside [with client_lock]. *)
Definition agent3_get_client := run true.

Definition returned (p : pc) : option nat :=
  match p with
  | Finished c => Some c
  | _ => None
  end.

(** The clients handed out, when every thread has returned. *)
Definition handed_out (w : world) : option (list nat) := mapM returned (threads w).

End Rotation.

(** ** The parser the specification describes *)

Module Spec.

(** Strict parse, then parse of the fence-stripped text, then parse of the
    largest embedded object, then reject.  The fence stripping is read as
    the one of stages 1 and 2 and the largest embedded object as the span
    from the first opening brace to the last closing brace, the readings
    closest to the code. *)
Definition lenient_parse (text : str) : option pyval :=
  match Json.json_loads text with
  | Some v => Some v
  | None =>
      match Json.json_loads (strip_json_fence text) with
      | Some v => Some v
      | None =>
          match Py.search_braces text with
          | Some m => Json.json_loads m
          | None => None
          end
      end
  end.

(** The first two steps of the chain alone. *)
Definition strict_or_fenced (text : str) : option pyval :=
  match Json.json_loads text with
  | Some v => Some v
  | None => Json.json_loads (strip_json_fence text)
  end.

End Spec.

(** * Notions used in the statements *)

(** The attempt of stage 2 made with [retry_count = k] fails. *)
Definition attempt_fails (gw : nat -> outcome str) (post_id : pyval) (k : nat) : Prop :=
  exists e, Agent2.attempt post_id (gw k) = Raised e.

(** Number of calls a log holds for the record at position [i]. *)
Definition calls_for (i : nat) (log : list nat) : nat :=
  length (filter (fun j => j = i) log).

(** Operations that write into [p] and do nothing else. *)
Definition writes_into (p : string) (o : Fs.op) : Prop :=
  match o with
  | Fs.Truncate p' | Fs.Append p' _ => p' = p
  | _ => False
  end.

(** The pieces of a flush by [save_progress]: the temporary path, the text,
    the writes that put the text there, and the moves that follow. *)
Definition temp_of (output_path : string) : string := output_path +:+ ".temp".

Definition flush_text (records : list pyval) : str :=
  Json.json_dump_indent2 (PList records).

Definition flush_writes (output_path : string) (records : list pyval) : list Fs.op :=
  Fs.write_ops (temp_of output_path) (flush_text records).

Definition flush_swap (fs : gmap string str) (output_path : string) : list Fs.op :=
  (if bool_decide (is_Some (fs !! output_path)) then [Fs.Remove output_path] else [])
  ++ [Fs.Rename (temp_of output_path) output_path].

(** [rec["post_id"]] *)
Definition identifier (rec : pyval) : outcome pyval :=
  Val.subscript rec (Py.lit "post_id").





(** The turn carries a completed counselor response. *)
Definition has_response (conv : pyval) : bool :=
  match Val.get conv (Py.lit "counselor_content") with
  | Returned cc => Val.truthy cc
  | Raised _ => false
  end.

(** The turn is one for which line 84 schedules a task. *)
Definition scheduled (conv : pyval) : bool :=
  match Agent3.needs_reply conv with
  | Returned b => b
  | Raised _ => false
  end.

(** What may happen to a turn: nothing, when no task is scheduled for it;
    otherwise at most the two fields change. *)
Definition turn_frame (conv conv' : pyval) : Prop :=
  (scheduled conv = false -> conv' = conv)
  /\ (conv' = conv
      \/ exists dc dc',
           conv = PDict dc /\ conv' = PDict dc'
           /\ forall k, k <> Py.lit "counselor_content" -> k <> Py.lit "counselor_think" ->
                        Val.lookup k dc' = Val.lookup k dc).

(** What may happen to a post: nothing, or its list of turns is replaced, in
    place, by a list of the same turns in the same order. *)
Definition post_frame (post post' : pyval) : Prop :=
  post' = post
  \/ exists d convs convs',
       post = PDict d
       /\ Val.lookup (Py.lit "conversation") d = Some (PList convs)
       /\ post' = PDict (Val.assign (Py.lit "conversation") (PList convs') d)
       /\ Forall2 turn_frame convs convs'.

(** The turn a task points to. *)
Definition target (posts : list pyval) (t : Agent3.task) (conv : pyval) : Prop :=
  exists d convs,
    posts !! Agent3.post_idx t = Some (PDict d)
    /\ Val.lookup (Py.lit "conversation") d = Some (PList convs)
    /\ convs !! Agent3.conv_idx t = Some conv.

(** The thread is inside the rotation: between taking the lock (or, in
    stage 1, starting) and returning. *)
Definition critical (p : Rotation.pc) : option unit :=
  match p with
  | Rotation.AtLookup | Rotation.AtAdd _ | Rotation.AtStore _ _ | Rotation.AtRelease _ =>
      Some tt
  | _ => None
  end.

(** The client a thread holds once it has advanced the index. *)
Definition obtained (p : Rotation.pc) : option nat :=
  match p with
  | Rotation.AtRelease c | Rotation.Finished c => Some c
  | _ => None
  end.

(** What a thread has read agrees with the shared index. *)
Definition local_ok (index : nat) (p : Rotation.pc) : Prop :=
  match p with
  | Rotation.AtAdd c => c = index
  | Rotation.AtStore c next => c = index /\ next = (index + 1)%nat
  | _ => True
  end.

(** The clients [k] calls in turn hand out, from index [i0], with [n]
    clients. *)
Definition rotation (n i0 k : nat) : list nat :=
  (fun j => ((i0 + j) mod n)%nat) <$> seq 0 k.

(** What holds of stage 3's rotation at every moment: the lock is held by
    the one thread inside, the index counts the clients handed out, the
    thread inside has read the current index, and the clients handed out
    are those of calls made in turn. *)
Definition locked_inv (n i0 : nat) (w : Rotation.world) : Prop :=
  let ths := Rotation.threads w in
  length (omap critical ths) = (if Rotation.lock_held w then 1 else 0)%nat
  /\ Rotation.client_index w = ((i0 + length (omap obtained ths)) mod n)%nat
  /\ Forall (local_ok (Rotation.client_index w)) ths
  /\ omap obtained ths ≡ₚ rotation n i0 (length (omap obtained ths)).

(** The outermost open container of the parser is a list, and a parser
    state that can only end in a list. *)
Definition bottom_is_list (stk : list Json.frame) : Prop :=
  exists rest items, stk = rest ++ [Json.FList items].

Definition list_document (st : Json.pstate) : Prop :=
  match st with
  | Json.SValue stk | Json.SValueOrClose stk | Json.SKeyOrClose stk
  | Json.SKey stk | Json.SColon stk | Json.SAfter stk =>
      bottom_is_list stk
  | Json.SDone v => exists items, v = PList items
  end.

(** A string that a text file takes: no code point of the surrogate range,
    for which UTF-8 has no encoding. *)
Definition encodable (s : str) : bool :=
  forallb (fun c => negb (Json.is_high_surrogate c || Json.is_low_surrogate c)) s.

(** A value that is written and read back as it is: no fractional number,
    no string or key that a text file refuses, and no object that repeats a
    key, at any depth. *)
Fixpoint plain (v : pyval) : bool :=
  match v with
  | PFloat _ => false
  | PStr s => encodable s
  | PList items => forallb plain items
  | PDict d =>
      bool_decide (NoDup d.*1) && forallb (fun kv => encodable kv.1 && plain kv.2) d
  | _ => true
  end.

(** The pieces of [parts] with [sep] between them. *)
Fixpoint join_with {A : Type} (sep : list A) (parts : list (list A)) : list A :=
  match parts with
  | [] => []
  | [x] => x
  | x :: r => x ++ sep ++ join_with sep r
  end.

(** The tokens of the text that [json.dump] writes for a value. *)
Fixpoint tokens_of (v : pyval) : list Json.token :=
  match v with
  | PStr s => [Json.TString s]
  | PList items =>
      Json.TLBrack :: join_with [Json.TComma] (tokens_of <$> items) ++ [Json.TRBrack]
  | PDict d =>
      Json.TLBrace
      :: join_with [Json.TComma]
           ((fun kv => Json.TString kv.1 :: Json.TColon :: tokens_of kv.2) <$> d)
      ++ [Json.TRBrace]
  | _ => [Json.TAtom v]
  end.

(** The text that follows a value ends any number or name before it. *)
Definition delimited (rest : str) : Prop :=
  match rest with
  | [] => True
  | c :: _ => Json.is_atom_char c = false
  end.

(** [res] is the result lines 102-105 of stage 2 build for the record
    [rec]: its identifier and a conversation, and nothing else. *)
Definition result_of (rec res : pyval) : Prop :=
  exists pid c,
    identifier rec = Returned pid
    /\ res = PDict [(Py.lit "post_id", pid); (Py.lit "conversation", c)].

(** The line does not open or close a code block. *)
Definition no_fence (line : str) : Prop :=
  Py.startswith (Py.lit "```") (Py.strip line) = false.

(** The text is empty or ends with a line feed, as a file does to which
    only whole lines were written. *)
Definition line_terminated (text : str) : Prop :=
  text = [] \/ exists t, text = t ++ [10].

(** A record as stage 1 writes it: the four fields, with a plan. *)
Definition stage1_record (rec : pyval) : Prop :=
  exists pid file rounds info,
    rec = PDict [(Py.lit "post_id", pid); (Py.lit "file", file);
                 (Py.lit "rounds", rounds); (Py.lit "info_by_round", info)]
    /\ Val.is_none rounds = false /\ Val.is_none info = false.




(** In [posts], the turn the task points to carries a reply. *)
Definition answered (posts : list pyval) (t : Agent3.task) : Prop :=
  exists conv, target posts t conv /\ has_response conv = true.

(** Records as line-delimited JSON: one compact object per line. *)
Definition ndjson (records : list pyval) : str :=
  concat ((fun rec => Json.json_dumps rec ++ [10]) <$> records).

(** The code returns, rather than raises. *)
Definition returns {A : Type} (o : outcome A) : bool :=
  match o with
  | Returned _ => true
  | Raised _ => false
  end.

(** * Concrete inputs *)

(** A hosted model that never answers, and one run of stage 2 with it. *)
Definition never_answers : nat -> outcome str := fun _ => Raised GatewayError.

Definition one_pending_record : gmap string str :=
  {[ Agent2.INPUT_PATH := Py.qlit "{'post_id': 'p1', 'info_by_round': ['worry']}" ]}.

(** An interrupted run left a checkpoint with [p2] beside an older output
    file with [p1]. *)
Definition disk_with_artifact : gmap string str :=
  <[ Agent2.TEMP_OUTPUT_PATH := Py.qlit "[{'post_id': 'p2', 'conversation': []}]" ]>
    {[ Agent2.OUTPUT_PATH := Py.qlit "[{'post_id': 'p1', 'conversation': []}]" ]}.

(** One post with one unanswered turn, as stage 3 finds it in its output
    file, and the answer the hosted model gives. *)
Definition reply_stage_disk : gmap string str :=
  {[ Agent3.output_file :=
       Py.qlit "[{'post_id': 'p1', 'conversation': [{'patient': 'hello'}]}]" ]}.

Definition one_reply : nat -> outcome (pyval * pyval) :=
  fun _ => Returned (PStr (Py.lit "I hear you"), PStr (Py.lit "reflect")).


(** An answer that is a list of the three key names. *)
Definition list_answer : str := Py.qlit "['keep', 'issues', 'reason']".

(** A run of stage 2 in which [p1] was done before and [p2] is pending. *)
Definition resumed_disk : gmap string str :=
  <[ Agent2.INPUT_PATH :=
       Py.qlit "{'post_id': 'p1', 'info_by_round': ['a']}
{'post_id': 'p2', 'info_by_round': ['b']}
" ]>
    {[ Agent2.OUTPUT_PATH := Py.qlit "[{'post_id': 'p1', 'conversation': []}]" ]}.

Definition always_answers : nat -> nat -> outcome str :=
  fun _ _ => Returned (Py.qlit "{'conversation': [{'round': 1}]}").

(** A conversation whose first turn is answered and whose second is not. *)
Definition half_answered : list pyval :=
  [PDict [(Py.lit "post_id", PStr (Py.lit "p1"));
          (Py.lit "conversation",
           PList [PDict [(Py.lit "patient", PStr (Py.lit "hello"));
                         (Py.lit "counselor_content", PStr (Py.lit "welcome"))];
                  PDict [(Py.lit "patient", PStr (Py.lit "I feel anxious"))]])]].

(** Two posts for stage 1, the second without a file name, and a hosted
    model that plans one round for every post. *)
Definition two_posts : list pyval :=
  [PDict [(Py.lit "post_id", PStr (Py.lit "p1")); (Py.lit "file", PStr (Py.lit "a.json"));
          (Py.lit "content", PStr (Py.lit "I cannot sleep"))];
   PDict [(Py.lit "post_id", PStr (Py.lit "p2"));
          (Py.lit "content", PStr (Py.lit "I feel alone"))]].

Definition plans_one_round : nat -> outcome str :=
  fun _ => Returned (Py.qlit "{'rounds': 1, 'info_by_round': ['rest']}").

(** A conversation of two turns, none of them answered yet. *)
Definition unanswered : list pyval :=
  [PDict [(Py.lit "post_id", PStr (Py.lit "p1"));
          (Py.lit "conversation",
           PList [PDict [(Py.lit "patient", PStr (Py.lit "hello"))];
                  PDict [(Py.lit "patient", PStr (Py.lit "I feel anxious"))]])]].

(** * Properties *)

(** ** The library model at work *)

Example json_loads_nested :
  Json.json_loads (Py.qlit " {'a': [1, -2, 2.5, null, true], 'b': {}} ")
  = Some (PDict [(Py.lit "a", PList [PInt 1; PInt (-2); PFloat (Py.lit "2.5");
                                     PNone; PBool true]);
                 (Py.lit "b", PDict [])]).
Proof. vm_compute. reflexivity. Qed.

Example json_loads_last_key_wins :
  Json.json_loads (Py.qlit "{'a': 1, 'b': 2, 'a': 3}")
  = Some (PDict [(Py.lit "a", PInt 3); (Py.lit "b", PInt 2)]).
Proof. vm_compute. reflexivity. Qed.

Example json_loads_rejects :
  Json.json_loads (Py.qlit "[1,]") = None
  /\ Json.json_loads (Py.qlit "{'a' 1}") = None
  /\ Json.json_loads (Py.lit "01") = None
  /\ Json.json_loads (Py.lit "[1] x") = None
  /\ Json.json_loads [] = None.
Proof. repeat split; vm_compute; reflexivity. Qed.

Example json_loads_escape :
  Json.json_loads (Py.qlit "'A\n\ud83d\ude00'") = Some (PStr [65; 10; 128512]).
Proof. vm_compute. reflexivity. Qed.

Example json_dump_indent2_layout :
  Json.json_dump_indent2 (PList [PDict [(Py.lit "post_id", PStr (Py.lit "p1"));
                                        (Py.lit "conversation", PList [])]])
  = Py.qlit "[
  {
    'post_id': 'p1',
    'conversation': []
  }
]".
Proof. vm_compute. reflexivity. Qed.

Example json_dumps_layout :
  Json.json_dumps (PDict [(Py.lit "post_id", PStr (Py.lit "p1")); (Py.lit "rounds", PInt 2)])
  = Py.qlit "{'post_id': 'p1', 'rounds': 2}".
Proof. vm_compute. reflexivity. Qed.

Example strip_json_fence_block :
  strip_json_fence (Py.qlit "```json
{'rounds': 1}
```
") = Py.qlit "{'rounds': 1}".
Proof. vm_compute. reflexivity. Qed.

Example unwrap_code_block_block :
  Agent4.unwrap_code_block (Py.qlit "```
{'keep': true}
```") = Py.qlit "{'keep': true}".
Proof. vm_compute. reflexivity. Qed.

Example search_braces_greedy :
  Py.search_braces (Py.lit "a {b} c {d} e") = Some (Py.lit "{b} c {d}").
Proof. vm_compute. reflexivity. Qed.

Example batches_of_two :
  Agent2.batches 2 [1; 2; 3; 4; 5]%nat = [[1; 2]; [3; 4]; [5]]%nat.
Proof. reflexivity. Qed.

(** Scenario B of the specification, for one record: two failures, then an
    answer; three calls are made and the result carries the identifier. *)
Example third_attempt_succeeds :
  Agent2.inference_generate_conversation
    (fun k => if (k <? 2)%nat then Raised GatewayError
              else Returned (Py.qlit "{'conversation': []}"))
    (PStr (Py.lit "p1")) (PList []) 0
  = (Returned (PDict [(Py.lit "post_id", PStr (Py.lit "p1"));
                      (Py.lit "conversation", PList [])]), 3%nat).
Proof. vm_compute. reflexivity. Qed.


(** ** Retry policy of stage 2 *)

Section Retry.
Import Agent2.
Variable gw : nat -> outcome str.
Variables post_id info : pyval.

(** What [inference_generate_conversation] does from [retry_count = k] on,
    when the payload has a length. *)
Lemma inference_from (k : nat) :
  Val.has_len info = true ->
  (k <= MAX_RETRIES)%nat ->
  let res := inference_generate_conversation gw post_id info k in
  (1 <= res.2 <= S MAX_RETRIES - k)%nat
  /\ (forall j, (k <= j < k + res.2 - 1)%nat -> attempt_fails gw post_id j)
  /\ (forall v, res.1 = Returned v -> attempt post_id (gw (k + res.2 - 1)%nat) = Returned v)
  /\ (forall e, res.1 = Raised e ->
        e = RetriesExhausted /\ res.2 = (S MAX_RETRIES - k)%nat
        /\ attempt_fails gw post_id (k + res.2 - 1)%nat).
Proof.
  funelim (inference_generate_conversation gw post_id info k);
    intros Hlen Hk; try congruence; cbn zeta.
  - (* the attempt succeeds *)
    cbn [fst snd]. split; [lia|]. split; [intros; lia|]. split.
    + intros v [= <-]. by replace (retry_count + 1 - 1)%nat with retry_count by lia.
    + discriminate.
  - (* the attempt fails and a retry is left *)
    destruct (inference_generate_conversation gw post_id info (S retry_count))
      as [r n] eqn:Hrec.
    destruct (H Hlen ltac:(lia)) as (Hn & Hfail & Hok & Hraise). cbn [fst snd] in *.
    assert (Hidx : (retry_count + S n - 1 = S retry_count + n - 1)%nat) by lia.
    split; [lia|]. split; [|split].
    + intros j Hj. destruct (decide (j = retry_count)) as [->|Hne].
      * by exists e.
      * apply Hfail. lia.
    + intros v Hv. rewrite Hidx. by apply Hok.
    + intros e' He'. destruct (Hraise e' He') as (-> & Hcalls & Hlast).
      rewrite Hidx. repeat split; [lia | done].
  - (* the attempt fails and no retry is left *)
    cbn [fst snd]. assert (retry_count = MAX_RETRIES) as -> by lia.
    split; [lia|]. split; [intros; lia|]. split; [discriminate|].
    intros e' [= <-]. split; [done|]. split; [lia|].
    replace (MAX_RETRIES + 1 - 1)%nat with MAX_RETRIES by lia. by exists e.
Qed.

Lemma inference_no_len (k : nat) :
  Val.has_len info = false ->
  inference_generate_conversation gw post_id info k = (Raised TypeError, 0%nat).
Proof. intros H. simp inference_generate_conversation. by rewrite H. Qed.

Lemma inference_calls_le :
  ((inference_generate_conversation gw post_id info 0).2 <= S MAX_RETRIES)%nat.
Proof.
  destruct (Val.has_len info) eqn:Hlen.
  - pose proof (inference_from 0 Hlen ltac:(lia)) as [H _]. cbn zeta in H. lia.
  - rewrite inference_no_len by done. cbn. lia.
Qed.
End Retry.

Lemma calls_for_app i l1 l2 : calls_for i (l1 ++ l2) = (calls_for i l1 + calls_for i l2)%nat.
Proof. unfold calls_for. by rewrite filter_app, length_app. Qed.

Lemma calls_for_replicate i n j :
  calls_for i (replicate n j) = if decide (j = i) then n else 0%nat.
Proof.
  unfold calls_for. induction n as [|n IH].
  - by destruct (decide (j = i)).
  - change (replicate (S n) j) with (j :: replicate n j).
    rewrite filter_cons. destruct (decide (j = i)); cbn [length]; by rewrite IH.
Qed.

Lemma batches_from_concat {A} (n room : nat) (cur l : list A) :
  concat (Agent2.batches_from n room cur l) = reverse cur ++ l.
Proof.
  revert room cur. induction l as [|x l IH]; intros room cur.
  - destruct cur; cbn [Agent2.batches_from concat]; by rewrite ?app_nil_r.
  - destruct room as [|[|room]]; cbn [Agent2.batches_from concat];
      rewrite IH, ?reverse_nil, ?reverse_cons, <- ?app_assoc; reflexivity.
Qed.

Lemma batches_concat {A} (n : nat) (l : list A) : concat (Agent2.batches n l) = l.
Proof. unfold Agent2.batches. by rewrite batches_from_concat. Qed.

Section RunCalls.
Import Agent2.
Variable gw : nat -> nat -> outcome str.

Lemma process_record_calls_le g record :
  ((process_record g record).2 <= S MAX_RETRIES)%nat.
Proof.
  unfold process_record.
  destruct (Val.subscript record _); [|cbn; lia].
  destruct (Val.subscript record _); [|cbn; lia].
  pose proof (inference_calls_le g a a0) as H.
  destruct (inference_generate_conversation g a a0 0) as [[r|e] n]; exact H.
Qed.

Lemma pool_map_calls batch i :
  (calls_for i (pool_map gw batch).2
   <= S MAX_RETRIES * calls_for i (batch.*1))%nat.
Proof.
  induction batch as [|[j record] rest IH]; [cbn; lia|].
  cbn [pool_map fmap list_fmap fst].
  pose proof (process_record_calls_le (gw j) record) as Hle.
  destruct (process_record (gw j) record) as [r n].
  destruct (pool_map gw rest) as [rs log]. cbn [fst snd] in *.
  rewrite calls_for_app, calls_for_replicate.
  change (j :: rest.*1) with (replicate 1 j ++ rest.*1).
  rewrite (calls_for_app i (replicate 1 j)), calls_for_replicate.
  destruct (decide (j = i)); lia.
Qed.

Lemma batch_loop_calls existing bs st i :
  (calls_for i (calls (batch_loop gw existing bs st))
   <= calls_for i (calls st) + S MAX_RETRIES * calls_for i ((concat bs).*1))%nat.
Proof.
  revert st. induction bs as [|batch rest IH]; intros st; [cbn; lia|].
  cbn [batch_loop concat].
  pose proof (pool_map_calls batch i) as Hb.
  destruct (pool_map gw batch) as [[rs|e] log]; cbn [fst snd] in *.
  - etrans; [apply IH|]. cbn [calls]. rewrite fmap_app, !calls_for_app. lia.
  - cbn [calls]. rewrite fmap_app, !calls_for_app. lia.
Qed.

Lemma calls_for_seq i n : (calls_for i (seq 0 n) <= 1)%nat.
Proof.
  unfold calls_for.
  assert (H : NoDup (filter (fun j => j = i) (seq 0 n))).
  { apply NoDup_filter, NoDup_seq. }
  destruct (filter _ _) as [|a [|b l]] eqn:E; cbn; [lia|lia|].
  exfalso.
  assert (a = i) by (eapply (list_elem_of_filter (fun j => j = i)); rewrite E; left).
  assert (b = i) by (eapply (list_elem_of_filter (fun j => j = i)); rewrite E; right; left).
  subst. apply NoDup_cons in H as [H _]. apply H. left.
Qed.

Lemma main_calls fs r i :
  main fs gw = Returned r ->
  (calls_for i (gateway_calls r) <= S MAX_RETRIES)%nat.
Proof.
  unfold main. destruct (load_processed_records fs OUTPUT_PATH) as [existing ids].
  destruct (fs !! INPUT_PATH) as [text|]; [|discriminate].
  destruct (records_to_process _ _) as [todo|]; [|discriminate]. cbn.
  destruct todo as [|rec todo]; intros [= <-]; cbn [gateway_calls].
  - cbn. lia.
  - etrans; [apply batch_loop_calls|]. cbn [calls].
    rewrite batches_concat.
    change ((0%nat, rec) :: zip (seq 1 (length todo)) todo)
      with (zip (seq 0 (length (rec :: todo))) (rec :: todo)).
    rewrite fst_zip by (rewrite length_seq; lia).
    pose proof (calls_for_seq i (length (rec :: todo))).
    change (calls_for i []) with 0%nat. unfold MAX_RETRIES. lia.
Qed.
End RunCalls.

(** C1, as stated, fails: with a hosted model that fails every time,
    [inference_generate_conversation] raises after four calls, one more than
    [MAX_RETRIES]. *)
Lemma C1_four_calls_counterexample :
  let res := Agent2.inference_generate_conversation
               (fun _ => Raised GatewayError) (PStr (Py.lit "p1")) (PList []) 0 in
  res.1 = Raised RetriesExhausted /\ res.2 = 4%nat
  /\ ~ (res.2 <= Agent2.MAX_RETRIES)%nat.
Proof.
  assert (E : Agent2.inference_generate_conversation
                (fun _ => Raised GatewayError) (PStr (Py.lit "p1")) (PList []) 0
              = (Raised RetriesExhausted, 4%nat)) by (vm_compute; reflexivity).
  cbn zeta. rewrite E. cbn [fst snd]. unfold Agent2.MAX_RETRIES.
  repeat split; lia.
Qed.

(** C1, amended: the first attempt is not a retry, so the bound is
    [MAX_RETRIES + 1].  [inference_generate_conversation] calls the hosted
    model at most [MAX_RETRIES + 1] times; it raises its own exception only
    after [MAX_RETRIES + 1] consecutive failed attempts, and does raise it
    when all of them fail; and in a run no pending record gets more than
    [MAX_RETRIES + 1] calls. *)
Theorem C1_retry_attempts :
  (forall gw post_id info,
     let res := Agent2.inference_generate_conversation gw post_id info 0 in
     (res.2 <= Agent2.MAX_RETRIES + 1)%nat
     /\ (res.1 = Raised RetriesExhausted ->
         res.2 = (Agent2.MAX_RETRIES + 1)%nat
         /\ forall k, (k <= Agent2.MAX_RETRIES)%nat -> attempt_fails gw post_id k)
     /\ (Val.has_len info = true ->
         (forall k, (k <= Agent2.MAX_RETRIES)%nat -> attempt_fails gw post_id k) ->
         res = (Raised RetriesExhausted, (Agent2.MAX_RETRIES + 1)%nat)))
  /\ (forall fs gw r i,
        Agent2.main fs gw = Returned r ->
        (calls_for i (Agent2.gateway_calls r) <= Agent2.MAX_RETRIES + 1)%nat).
Proof.
  split.
  - intros gw post_id info res. subst res.
    pose proof (inference_calls_le gw post_id info) as Hle.
    split; [lia|]. split.
    + intros Hraise. destruct (Val.has_len info) eqn:Hlen.
      * destruct (inference_from gw post_id info 0 Hlen ltac:(lia))
          as (Hn & Hfail & _ & Hex). cbn zeta in *.
        destruct (Hex _ Hraise) as (_ & Hcalls & Hlast).
        split; [lia|]. intros k Hk.
        destruct (decide (k = Agent2.MAX_RETRIES)) as [->|Hne].
        -- rewrite Hcalls in Hlast.
           by replace (0 + (S Agent2.MAX_RETRIES - 0) - 1)%nat
             with Agent2.MAX_RETRIES in Hlast by lia.
        -- apply Hfail. lia.
      * rewrite inference_no_len in Hraise by done. discriminate.
    + intros Hlen Hall.
      destruct (inference_from gw post_id info 0 Hlen ltac:(lia))
        as (Hn & _ & Hok & Hex). cbn zeta in *.
      destruct (Agent2.inference_generate_conversation gw post_id info 0)
        as [[v|e] n]; cbn [fst snd] in *.
      * destruct (Hall (0 + n - 1)%nat ltac:(lia)) as [e He].
        rewrite (Hok v eq_refl) in He. discriminate.
      * destruct (Hex e eq_refl) as (-> & -> & _). f_equal; lia.
  - intros fs gw r i Hmain. pose proof (main_calls gw fs r i Hmain). lia.
Qed.

Lemma C1_retry_attempts_witness :
  Agent2.inference_generate_conversation never_answers (PStr (Py.lit "p1")) (PList []) 0
  = (Raised RetriesExhausted, 4%nat)
  /\ match Agent2.main one_pending_record (fun _ => never_answers) with
     | Returned r => (calls_for 0 (Agent2.gateway_calls r) <= 4)%nat
     | Raised _ => False
     end.
Proof.
  split.
  - apply (proj1 C1_retry_attempts never_answers (PStr (Py.lit "p1")) (PList [])).
    + reflexivity.
    + intros k _. exists GatewayError. reflexivity.
  - destruct (Agent2.main one_pending_record (fun _ => never_answers)) as [r|e] eqn:E.
    + exact (proj2 C1_retry_attempts _ _ r 0%nat E).
    + assert (H : returns (Agent2.main one_pending_record (fun _ => never_answers)) = true) by (vm_compute; reflexivity).
      rewrite E in H. discriminate.
Defined.

(** ** Paths *)

Lemma string_length_app (s t : string) :
  String.length (s +:+ t) = (String.length s + String.length t)%nat.
Proof. induction s as [|a s IH]; simpl; [done|]. by f_equal. Qed.

(** A path and the path of its temporary artifact are different files. *)
Lemma temp_path_ne (p : string) : p <> p +:+ ".temp".
Proof.
  intros H. apply (f_equal String.length) in H.
  rewrite string_length_app in H. cbn in H. lia.
Qed.

(** ** Resumption in stage 2: which file is loaded *)

Section LoadProcessed.
Import Agent2.

Lemma load_from_temp (fs : gmap string str) output_path text :
  fs !! (output_path +:+ ".temp") = Some text ->
  load_processed_records fs output_path = load_text text.
Proof.
  intros H. unfold load_processed_records.
  rewrite bool_decide_eq_true_2 by (rewrite H; eauto). by rewrite H.
Qed.

Lemma load_without_temp (fs : gmap string str) output_path :
  fs !! (output_path +:+ ".temp") = None ->
  load_processed_records fs output_path
  = match fs !! output_path with
    | Some text => load_text text
    | None => ([], [])
    end.
Proof.
  intros H. unfold load_processed_records.
  rewrite bool_decide_eq_false_2; [done|]. rewrite H. by intros [? ?].
Qed.
End LoadProcessed.

(** C9: when the recovery artifact [output_path + ".temp"] exists,
    [load_processed_records] takes the records and the identifiers from
    that file alone; whatever the main output file holds, or whether it
    exists at all, makes no difference. *)
Theorem C9_temp_artifact_is_the_only_source
    (fs : gmap string str) (output_path : string) (text : str) :
  fs !! (output_path +:+ ".temp") = Some text ->
  Agent2.load_processed_records fs output_path = Agent2.load_text text
  /\ (forall other,
        Agent2.load_processed_records (<[output_path := other]> fs) output_path
        = Agent2.load_processed_records fs output_path)
  /\ Agent2.load_processed_records (delete output_path fs) output_path
     = Agent2.load_processed_records fs output_path.
Proof.
  intros H. pose proof (temp_path_ne output_path) as Hne.
  rewrite (load_from_temp fs _ _ H). split; [done|]. split.
  - intros other. apply load_from_temp. by rewrite lookup_insert_ne.
  - apply load_from_temp. by rewrite lookup_delete_ne.
Qed.

Lemma C9_temp_artifact_is_the_only_source_witness :
  Agent2.load_processed_records disk_with_artifact Agent2.OUTPUT_PATH
  = Agent2.load_text (Py.qlit "[{'post_id': 'p2', 'conversation': []}]").
Proof.
  apply (C9_temp_artifact_is_the_only_source disk_with_artifact Agent2.OUTPUT_PATH).
  reflexivity.
Defined.

(** ** Stage 1: answers without the expected keys *)

Section Worker.
Import Agent1.

Lemma extract_round_info_dict output d :
  parse_output output = Returned (PDict d) ->
  extract_round_info output
  = Returned (default PNone (Val.lookup (Py.lit "rounds") d),
              default PNone (Val.lookup (Py.lit "info_by_round") d)).
Proof. intros H. unfold extract_round_info. by rewrite H. Qed.

(** A missing value ends the [try] block at its [return]. *)
Lemma worker_try_incomplete post pid out st rounds info :
  extract_round_info out = Returned (rounds, info) ->
  Val.is_none rounds || Val.is_none info = true ->
  worker_try post pid out st = Returned st.
Proof. intros H Hn. unfold worker_try. rewrite H. cbn. by rewrite Hn. Qed.

Lemma worker_incomplete post out st rounds info :
  extract_round_info out = Returned (rounds, info) ->
  Val.is_none rounds || Val.is_none info = true ->
  (worker post (Returned out) st).1 = st.
Proof.
  intros H Hn. unfold worker.
  destruct (Val.get post _) as [pid|]; [|done].
  destruct (IdSet.contains _ _) as [[|]|]; try done.
  destruct (Val.get_default _ _ _); [|done].
  by rewrite (worker_try_incomplete _ _ _ _ _ _ H Hn).
Qed.
End Worker.

(** C10: when the call to the hosted model succeeds and the parsed answer
    has no ["rounds"] key or no ["info_by_round"] key, [worker] changes
    nothing: no line is written to the output file and the identifier is not
    added to [processed_ids], so a later run finds the record unprocessed. *)
Theorem C10_incomplete_answer_writes_nothing
    (post : pyval) (out : str) (d : dict) (st : Agent1.state) :
  Agent1.parse_output out = Returned (PDict d) ->
  Val.lookup (Py.lit "rounds") d = None \/ Val.lookup (Py.lit "info_by_round") d = None ->
  let st' := (Agent1.worker post (Returned out) st).1 in
  Agent1.outf st' = Agent1.outf st
  /\ Agent1.processed_ids st' = Agent1.processed_ids st
  /\ Agent1.load_processed_ids (Some (Agent1.outf st'))
     = Agent1.load_processed_ids (Some (Agent1.outf st)).
Proof.
  intros Hparse Hmiss st'. subst st'.
  rewrite (worker_incomplete post out st _ _ (extract_round_info_dict out d Hparse));
    [done|].
  destruct Hmiss as [-> | ->]; cbn; [done|]. apply orb_true_r.
Qed.

(** A post whose answer names the rounds but not their themes. *)
Lemma C10_incomplete_answer_writes_nothing_witness :
  let post := PDict [(Py.lit "post_id", PStr (Py.lit "p1"));
                     (Py.lit "content", PStr (Py.lit "I feel anxious"))] in
  let st := {| Agent1.outf := []; Agent1.processed_ids := [] |} in
  let st' := (Agent1.worker post (Returned (Py.qlit "{'rounds': 2}")) st).1 in
  Agent1.outf st' = []
  /\ Agent1.processed_ids st' = []
  /\ Agent1.load_processed_ids (Some (Agent1.outf st')) = Agent1.load_processed_ids (Some []).
Proof.
  intros post st.
  apply (C10_incomplete_answer_writes_nothing post (Py.qlit "{'rounds': 2}")
           [(Py.lit "rounds", PInt 2)] st).
  - vm_compute. reflexivity.
  - right. vm_compute. reflexivity.
Defined.

(** ** Checkpoint writes and kills *)

Section FileOps.
Implicit Types (fs : gmap string str) (p q : string) (text : str).

Lemma run_app fs ops1 ops2 :
  Fs.run fs (ops1 ++ ops2) = Fs.run (Fs.run fs ops1) ops2.
Proof. apply foldl_app. Qed.

Lemma run_appends fs p t text :
  fs !! p = Some t ->
  Fs.run fs (Fs.Append p <$> text) = <[p := t ++ text]> fs.
Proof.
  revert fs t. induction text as [|c text IH]; intros fs t Hp; cbn.
  - by rewrite app_nil_r, insert_id.
  - rewrite Hp. erewrite IH by apply lookup_insert_eq.
    by rewrite insert_insert_eq, <- app_assoc.
Qed.

(** A completed write leaves exactly the text in the file. *)
Lemma run_write_ops fs p text :
  Fs.run fs (Fs.write_ops p text) = <[p := text]> fs.
Proof.
  unfold Fs.write_ops. cbn.
  rewrite (run_appends _ p []) by apply lookup_insert_eq.
  by rewrite insert_insert_eq.
Qed.

Lemma write_ops_writes_into p text : Forall (writes_into p) (Fs.write_ops p text).
Proof.
  unfold Fs.write_ops. constructor; [done|].
  apply Forall_fmap, Forall_forall. by intros.
Qed.

Lemma run_writes_other fs p q ops :
  Forall (writes_into p) ops -> q <> p -> Fs.run fs ops !! q = fs !! q.
Proof.
  intros Hall Hq. revert fs. induction Hall as [|o ops Ho _ IH]; intros fs; [done|].
  cbn. rewrite IH. destruct o; cbn in *; try done; subst.
  - by rewrite lookup_insert_ne.
  - destruct (fs !! p); [by rewrite lookup_insert_ne|done].
Qed.

(** What a kill during a write leaves in the file: a prefix of the text. *)
Lemma crash_during_write fs p text k :
  (0 < k)%nat ->
  Fs.crash_state fs (Fs.write_ops p text) k !! p = Some (take (k - 1) text).
Proof.
  intros Hk. unfold Fs.crash_state, Fs.write_ops.
  destruct k as [|k]; [lia|]. cbn [take]. replace (S k - 1)%nat with k by lia.
  rewrite <- fmap_take. cbn.
  rewrite (run_appends _ p []) by apply lookup_insert_eq.
  by rewrite lookup_insert_eq.
Qed.
End FileOps.

Section SaveProgress.
Import Agent2.
Variables (fs : gmap string str) (output_path : string) (records : list pyval).

Local Abbreviation temp_path := (temp_of output_path).
Local Abbreviation text := (flush_text records).
Local Abbreviation written := (flush_writes output_path records).
Local Abbreviation swap := (flush_swap fs output_path).

Lemma save_progress_ops : save_progress fs output_path records = written ++ swap.
Proof.
  unfold save_progress. fold temp_path. fold text. fold written.
  rewrite bool_decide_eq_true_2 by apply temp_path_ne. f_equal.
  unfold flush_swap.
  by rewrite (run_writes_other fs temp_path output_path written)
    by (apply write_ops_writes_into || apply temp_path_ne).
Qed.



Lemma save_progress_done :
  Fs.run fs (save_progress fs output_path records) !! output_path = Some text
  /\ Fs.run fs (save_progress fs output_path records) !! temp_path = None.
Proof.
  pose proof (temp_path_ne output_path) as Hne. fold temp_path in Hne.
  rewrite save_progress_ops, run_app. unfold flush_writes. rewrite run_write_ops.
  unfold flush_swap. case_bool_decide; cbn.
  - rewrite lookup_delete_ne, lookup_insert_eq by done.
    rewrite lookup_insert_eq, lookup_insert_ne, lookup_delete_eq by done. done.
  - rewrite lookup_insert_eq, lookup_insert_eq, lookup_insert_ne, lookup_delete_eq by done.
    done.
Qed.
End SaveProgress.




(** ** Stage 4: the fallback result *)

Section Filter.
Import Agent4.

Lemma reject_has_keys e t : has_required_keys (reject e t) = Returned true.
Proof. reflexivity. Qed.

(** What [interpret] returns passes the test of line 82: it is the
    fallback result or an answer on which the test succeeded. *)
Lemma interpret_passes_key_test content :
  has_required_keys (interpret content) = Returned true.
Proof.
  unfold interpret. destruct (Json.json_loads _) as [result|]; [|apply reject_has_keys].
  destruct (has_required_keys result) as [[|]|] eqn:E; auto using reject_has_keys.
Qed.

(** An answer that does not parse gives the fallback result. *)
Lemma interpret_unparseable content :
  Json.json_loads (unwrap_code_block (Py.strip content)) = None ->
  interpret content = reject JSONDecodeError (unwrap_code_block (Py.strip content)).
Proof. intros H. unfold interpret. by rewrite H. Qed.

(** A parsed object without one of the keys gives the fallback result. *)
Lemma interpret_missing_key content d :
  Json.json_loads (unwrap_code_block (Py.strip content)) = Some (PDict d) ->
  Val.lookup (Py.lit "keep") d = None \/ Val.lookup (Py.lit "issues") d = None
    \/ Val.lookup (Py.lit "reason") d = None ->
  interpret content = reject ValueError (unwrap_code_block (Py.strip content)).
Proof.
  intros H Hmiss. unfold interpret. rewrite H.
  unfold has_required_keys, Val.contains.
  destruct (Val.lookup (Py.lit "keep") d) eqn:E1,
           (Val.lookup (Py.lit "issues") d) eqn:E2,
           (Val.lookup (Py.lit "reason") d) eqn:E3;
    try reflexivity.
  by destruct Hmiss as [?|[?|?]].
Qed.

(** When the loop returns, it returns one result per post. *)
Lemma filter_posts_length gw i posts results :
  filter_posts gw i posts = Returned results -> length results = length posts.
Proof.
  revert i results. induction posts as [|post rest IH]; intros i results; cbn.
  - by intros [= <-].
  - destruct (Val.get post _); [|done]. cbn.
    destruct (inference_with_deepseek_v3 (gw i)); [|done]. cbn.
    destruct (Val.setitem _ _ _); [|done]. cbn.
    destruct (filter_posts gw (S i) rest) eqn:E; [|done]. cbn.
    intros [= <-]. cbn. f_equal. by eapply IH.
Qed.
End Filter.

(** C6, where the code departs from it: an answer that is a JSON list of
    the three key names passes the membership test of line 82, so
    [inference_with_deepseek_v3] returns the list itself, not a result with
    [keep] set to false; the assignment of [post_id] in [main] then raises
    and the run ends without any output. *)
Lemma C6_list_answer_passes_validation :
  Agent4.inference_with_deepseek_v3 (Returned list_answer)
    = Returned (PList [PStr (Py.lit "keep"); PStr (Py.lit "issues"); PStr (Py.lit "reason")])
  /\ Agent4.filter_posts (fun _ => Returned list_answer) 0
       [PDict [(Py.lit "post_id", PStr (Py.lit "p1"))]] = Raised TypeError
  /\ Agent4.main {[ Agent4.input_file := Py.qlit "[{'post_id': 'p1'}]" ]}
       (fun _ => Returned list_answer) = Raised TypeError.
Proof. repeat split; vm_compute; reflexivity. Qed.

(** ** Client rotation *)

(** C7, where the code departs from it: stage 1 rotates without taking the
    lock.  Two workers, two clients, index 0: when each step of the second
    worker follows the same step of the first, both get client 0 and the
    index ends at 1, where two calls in turn hand out clients 0 and 1 and
    bring the index back to 0. *)
Lemma C7_unlocked_rotation_loses_an_update :
  let interleaved := Rotation.agent1_get_client 2 (Rotation.start false 0 2)
                       [0; 1; 0; 1; 0; 1]%nat in
  let in_turn := Rotation.agent1_get_client 2 (Rotation.start false 0 2)
                   [0; 0; 0; 1; 1; 1]%nat in
  Rotation.handed_out interleaved = Some [0; 0]%nat
  /\ Rotation.client_index interleaved = 1%nat
  /\ Rotation.handed_out in_turn = Some [0; 1]%nat
  /\ Rotation.client_index in_turn = 0%nat.
Proof. repeat split; vm_compute; reflexivity. Qed.

(** ** Equality of Python values *)

Lemma pyval_nested_ind (P : pyval -> Prop) :
  P PNone -> (forall b, P (PBool b)) -> (forall z, P (PInt z)) ->
  (forall l, P (PFloat l)) -> (forall s, P (PStr s)) ->
  (forall items, Forall P items -> P (PList items)) ->
  (forall d, Forall (fun kv => P kv.2) d -> P (PDict d)) ->
  forall v, P v.
Proof.
  intros HN HB HI HF HS HL HD. fix IH 1.
  intros [|b|z|l|s|items|d];
    [exact HN | exact (HB b) | exact (HI z) | exact (HF l) | exact (HS s) | | ].
  - apply HL. induction items as [|x r IHr]; constructor; [apply IH | apply IHr].
  - apply HD. induction d as [|[k x] r IHr]; constructor; [apply IH | apply IHr].
Qed.

Lemma str_eqb_eq (a b : str) : Val.str_eqb a b = true <-> a = b.
Proof. unfold Val.str_eqb. apply bool_decide_eq_true. Qed.

Lemma eqb_eq (a b : pyval) : Val.eqb a b = true <-> a = b.
Proof.
  revert b. induction a as [| | | | |items IH|d IH] using pyval_nested_ind;
    intros [| | | | |items'|d']; cbn; try (split; congruence).
  - rewrite Bool.eqb_true_iff. split; congruence.
  - rewrite Z.eqb_eq. split; congruence.
  - rewrite str_eqb_eq. split; congruence.
  - rewrite str_eqb_eq. split; congruence.
  - transitivity (items = items'); [|split; congruence].
    revert items'. induction IH as [|x r Hx _ IHr]; intros [|y r']; try (split; congruence).
    rewrite andb_true_iff, Hx, IHr. split; [intros [-> ->]; done | intros [= -> ->]; done].
  - transitivity (d = d'); [|split; congruence].
    revert d'. induction IH as [|[k x] r Hx _ IHr]; intros [|[k' y] r']; try (split; congruence).
    cbn in Hx. rewrite !andb_true_iff, str_eqb_eq, Hx, IHr.
    split; [intros [[-> ->] ->]; done | intros [= -> -> ->]; done].
Qed.

(** ** Dicts and identifier sets *)

Section Dicts.
Implicit Types (k : str) (v : pyval) (d : dict).

Lemma lookup_assign_eq k v d : Val.lookup k (Val.assign k v d) = Some v.
Proof.
  induction d as [|[k' v'] d IH]; cbn.
  - unfold Val.str_eqb. by rewrite bool_decide_eq_true_2.
  - destruct (Val.str_eqb k k') eqn:E; cbn; rewrite E; [done|apply IH].
Qed.

Lemma lookup_assign_ne k k' v d :
  k <> k' -> Val.lookup k' (Val.assign k v d) = Val.lookup k' d.
Proof.
  intros Hne. induction d as [|[k0 v0] d IH]; cbn.
  - unfold Val.str_eqb. by rewrite bool_decide_eq_false_2.
  - destruct (Val.str_eqb k k0) eqn:E; cbn; [|by rewrite IH].
    apply str_eqb_eq in E as <-.
    unfold Val.str_eqb. by rewrite bool_decide_eq_false_2.
Qed.


End Dicts.

(** ** Resumption: which records are pending *)



Section Loading.
Import Agent2.


Lemma post_id_set_cons rec rest acc :
  post_id_set (rec :: rest) acc
  = match identifier rec with
    | Returned pid =>
        match IdSet.insert pid acc with
        | Returned acc' => post_id_set rest acc'
        | Raised e => Raised e
        end
    | Raised e => Raised e
    end.
Proof. cbn [post_id_set]. unfold identifier. by destruct (Val.subscript _ _). Qed.


Lemma load_lines_cons line rest records ids :
  load_lines (line :: rest) records ids
  = let text := Py.rstrip_char 44 (Py.strip line) in
    if bool_decide (text = []) || bool_decide (text = [91]) || bool_decide (text = [93])
    then load_lines rest records ids
    else match Json.json_loads text with
         | None => load_lines rest records ids
         | Some record =>
             match identifier record with
             | Returned pid =>
                 if Val.hashable pid
                 then load_lines rest (records ++ [record]) (IdSet.add pid ids)
                 else (records ++ [record], ids)
             | Raised _ => (records ++ [record], ids)
             end
         end.
Proof.
  cbn [load_lines]. cbv zeta. destruct (_ || _); [done|].
  destruct (Json.json_loads _) as [record|]; [|done].
  unfold identifier, IdSet.insert. destruct (Val.subscript _ _) as [pid|]; [|done].
  cbn. by destruct (Val.hashable pid).
Qed.







End Loading.

Section Stage2Run.
Import Agent2.
Variable gw : nat -> nat -> outcome str.



(** The parts of a run that returns. *)
Lemma main_returned fs r :
  main fs gw = Returned r ->
  exists text,
    fs !! INPUT_PATH = Some text
    /\ records_to_process (load_ndjson text) (load_processed_records fs OUTPUT_PATH).2
       = Returned (pending r)
    /\ let existing := (load_processed_records fs OUTPUT_PATH).1 in
       let st := batch_loop gw existing
                   (batches BATCH_SIZE (zip (seq 0 (length (pending r))) (pending r)))
                   {| results := []; disk := fs; calls := []; flushed := [] |} in
       (pending r = [] /\ gateway_calls r = [] /\ flushes r = [] /\ new_results r = [])
       \/ (gateway_calls r = calls st /\ new_results r = results st
           /\ flushes r = flushed st ++ [combined_records existing (results st)]).
Proof.
  unfold main. destruct (load_processed_records fs OUTPUT_PATH) as [existing ids].
  destruct (fs !! INPUT_PATH) as [text|]; [|done].
  destruct (records_to_process _ _) as [todo|] eqn:Htodo; [|done].
  cbn [mbind outcome_bind]. intros H. exists text. split; [done|].
  destruct todo as [|rec todo]; injection H as <-; cbn [pending snd fst]; split; auto.
Qed.

End Stage2Run.

Section Stage1Run.
Import Agent1.
Variable gw : nat -> outcome str.



End Stage1Run.






(** ** The collections stage 2 flushes *)



Section Results.
Import Agent2.

Lemma attempt_identifier post_id response v :
  attempt post_id response = Returned v -> identifier v = Returned post_id.
Proof.
  unfold attempt. destruct response as [content|]; [|done]. cbn [mbind outcome_bind].
  destruct (parse_content content) as [conv|]; [|done].
  destruct (Val.subscript conv _) as [c|]; [|done]. by intros [= <-].
Qed.

Lemma inference_identifier g post_id info v n :
  inference_generate_conversation g post_id info 0 = (Returned v, n) ->
  identifier v = Returned post_id.
Proof.
  intros H. destruct (Val.has_len info) eqn:Hlen.
  - destruct (inference_from g post_id info 0 Hlen ltac:(lia)) as (_ & _ & Hok & _).
    cbv zeta in Hok. rewrite H in Hok. eapply attempt_identifier, Hok. done.
  - rewrite inference_no_len in H by done. discriminate.
Qed.

(** A successful result carries the identifier of its record. *)
Lemma process_record_identifier g record result n :
  process_record g record = (Returned (Some result), n) ->
  identifier result = identifier record.
Proof.
  unfold process_record. fold (identifier record).
  destruct (identifier record) as [pid|]; [|done].
  destruct (Val.subscript record _) as [info|]; [|done].
  destruct (inference_generate_conversation g pid info 0) as [[v|e] m] eqn:E; [|done].
  intros [= <- _]. by eapply inference_identifier.
Qed.

Lemma pool_map_results gw batch rs log :
  pool_map gw batch = (Returned rs, log) ->
  identifier <$> omap id rs `sublist_of` identifier <$> batch.*2.
Proof.
  revert rs log. induction batch as [|[j record] rest IH]; intros rs log.
  - cbn. intros [= <- _]. constructor.
  - cbn [pool_map].
    destruct (process_record (gw j) record) as [[[result|]|e] n] eqn:Hp;
      destruct (pool_map gw rest) as [[rs'|e'] log'] eqn:Hr; cbn; try done.
    + intros [= <- _]. cbn. rewrite (process_record_identifier _ _ _ _ Hp).
      constructor. by eapply IH.
    + intros [= <- _]. cbn. constructor. by eapply IH.
Qed.

(** The loop only appends to [results], and what it appends stems from
    the records of the batches, in their order; every collection it
    flushes is [existing_records] followed by the results so far. *)
Lemma batch_loop_results gw existing bs st :
  let st' := batch_loop gw existing bs st in
  (exists more,
     results st' = results st ++ more
     /\ identifier <$> more `sublist_of` identifier <$> (concat bs).*2)
  /\ (forall c, c ∈ flushed st' ->
        c ∈ flushed st
        \/ exists rs, c = combined_records existing rs /\ rs `prefix_of` results st').
Proof.
  revert st. induction bs as [|batch rest IH]; intros st; cbn zeta.
  - split; [|by left]. exists []. rewrite app_nil_r. split; [done|constructor].
  - cbn [batch_loop concat].
    destruct (pool_map gw batch) as [[rs|e] log] eqn:Hp.
    + match goal with |- context [batch_loop gw existing rest ?s] => set (st1 := s) end.
      destruct (IH st1) as [(more & Hres & Hsub) Hfl]. cbv zeta in *.
      set (st' := batch_loop gw existing rest st1) in *.
      split.
      * exists (omap id rs ++ more). subst st1. cbn [results] in Hres.
        rewrite Hres, <- app_assoc. split; [done|].
        rewrite !fmap_app. apply sublist_app; [|done].
        by eapply pool_map_results.
      * intros c Hc. apply Hfl in Hc as [Hc|Hc]; [|by right].
        subst st1. cbn [flushed] in Hc. apply elem_of_app in Hc as [Hc|Hc]; [by left|].
        apply list_elem_of_singleton in Hc as ->. right.
        exists (results st ++ omap id rs). split; [done|].
        rewrite Hres. cbn [results]. by apply prefix_app_r.
    + cbn [results flushed]. split; [|by left].
      exists []. rewrite app_nil_r. split; [done|apply sublist_nil_l].
Qed.
End Results.

(** The shape of what a run flushes: the loaded collection followed by a
    prefix of the results, which stem from the pending records in order. *)
Lemma main_flushes_shape fs gw r :
  Agent2.main fs gw = Returned r ->
  identifier <$> Agent2.new_results r `sublist_of` identifier <$> Agent2.pending r
  /\ forall c, c ∈ Agent2.flushes r ->
       exists rs, c = (Agent2.load_processed_records fs Agent2.OUTPUT_PATH).1 ++ rs
                  /\ rs `prefix_of` Agent2.new_results r.
Proof.
  intros Hmain. destruct (main_returned gw fs r Hmain) as (text & _ & _ & Hrun).
  cbv zeta in Hrun. set (existing := (Agent2.load_processed_records fs _).1) in *.
  destruct Hrun as [(_ & _ & Hfl & Hres)|(_ & Hres & Hfl)].
  { rewrite Hfl, Hres. split; [apply sublist_nil_l|].
    intros c Hc. by apply elem_of_nil in Hc. }
  destruct (batch_loop_results gw existing
              (Agent2.batches Agent2.BATCH_SIZE
                 (zip (seq 0 (length (Agent2.pending r))) (Agent2.pending r)))
              {| Agent2.results := []; Agent2.disk := fs; Agent2.calls := [];
                 Agent2.flushed := [] |}) as [(more & Hm & Hsub) Hflushed].
  cbv zeta in Hm, Hflushed. rewrite <- Hres in Hm, Hflushed.
  cbn [Agent2.results Agent2.flushed app] in Hm, Hflushed.
  rewrite batches_concat, snd_zip in Hsub by (rewrite length_seq; lia).
  split; [by rewrite Hm|].
  intros c Hc. rewrite Hfl in Hc. apply elem_of_app in Hc as [Hc|Hc].
  - apply Hflushed in Hc as [Hc|(rs & -> & Hrs)]; [by apply elem_of_nil in Hc|].
    by exists rs.
  - apply list_elem_of_singleton in Hc as ->. rewrite <- Hres.
    by exists (Agent2.new_results r).
Qed.






(** ** Stage 3: which turns are touched *)


Lemma turn_frame_refl conv : turn_frame conv conv.
Proof. split; auto. Qed.

Lemma post_frame_refl post : post_frame post post.
Proof. by left. Qed.

Lemma assign_assign k v w (d : dict) :
  Val.assign k v (Val.assign k w d) = Val.assign k v d.
Proof.
  induction d as [|[k' x] d IH]; cbn.
  - unfold Val.str_eqb. by rewrite bool_decide_eq_true_2.
  - destruct (Val.str_eqb k k') eqn:E; cbn; rewrite E; [done|by rewrite IH].
Qed.

Section Tasks.
Import Agent3.

Lemma conv_tasks_cons i conversation j conv rest :
  conv_tasks i conversation j (conv :: rest)
  = match needs_reply conv with
    | Raised e => Raised e
    | Returned pending =>
        here ← (if pending then
                  h ← conversation_history (take j conversation);
                  p ← Val.subscript conv (Py.lit "patient");
                  Returned [{| post_idx := i; conv_idx := j; patient := p; history := h |}]
                else Returned []);
        more ← conv_tasks i conversation (S j) rest;
        Returned (here ++ more)
    end.
Proof. cbn [conv_tasks]. by destruct (needs_reply conv). Qed.

Lemma conv_tasks_target i conversation j convs ts t :
  conv_tasks i conversation j convs = Returned ts -> t ∈ ts ->
  post_idx t = i /\ (j <= conv_idx t)%nat
  /\ exists conv, convs !! (conv_idx t - j)%nat = Some conv /\ scheduled conv = true.
Proof.
  revert j ts. induction convs as [|conv rest IH]; intros j ts.
  - intros [= <-] H. by apply elem_of_nil in H.
  - rewrite conv_tasks_cons. destruct (needs_reply conv) as [pending|] eqn:Hn; [|done].
    destruct (if pending then _ else _) as [here|] eqn:Hhere; [|done].
    cbn [mbind outcome_bind].
    destruct (conv_tasks i conversation (S j) rest) as [more|] eqn:Hmore; [|done].
    cbn [mbind outcome_bind]. intros [= <-] Hin.
    apply elem_of_app in Hin as [Hin|Hin].
    + destruct pending; [|injection Hhere as <-; by apply elem_of_nil in Hin].
      destruct (conversation_history _) as [h|]; [|done].
      destruct (Val.subscript conv _) as [p|]; [|done].
      injection Hhere as <-. apply list_elem_of_singleton in Hin as ->. cbn.
      split; [done|]. split; [lia|]. exists conv.
      replace (j - j)%nat with 0%nat by lia. split; [done|].
      unfold scheduled. by rewrite Hn.
    + destruct (IH (S j) more Hmore Hin) as (Hi & Hj & conv' & Hl & Hs).
      split; [done|]. split; [lia|]. exists conv'. split; [|done].
      replace (conv_idx t - j)%nat with (S (conv_idx t - S j)) by lia. done.
Qed.

Lemma scheduled_is_dict conv : scheduled conv = true -> exists dc, conv = PDict dc.
Proof.
  unfold scheduled, needs_reply. destruct conv; try done. eauto.
Qed.

Lemma post_tasks_target i post ts t :
  post_tasks i post = Returned ts -> t ∈ ts ->
  post_idx t = i
  /\ exists d convs conv,
       post = PDict d
       /\ Val.lookup (Py.lit "conversation") d = Some (PList convs)
       /\ convs !! conv_idx t = Some conv /\ scheduled conv = true.
Proof.
  unfold post_tasks. destruct post as [| | | | | |d]; try done.
  cbn [Val.get_default mbind outcome_bind].
  destruct (Val.lookup (Py.lit "conversation") d) as [c|] eqn:Hc;
    cbn [default from_option id].
  - destruct (Val.iterate c) as [items|] eqn:Hit; cbn [mbind outcome_bind]; [|done].
    intros Hts Hin.
    destruct (conv_tasks_target _ _ _ _ _ _ Hts Hin) as (Hi & _ & conv & Hl & Hs).
    split; [done|]. rewrite Nat.sub_0_r in Hl.
    destruct (scheduled_is_dict _ Hs) as [dc ->].
    destruct c as [| | | |s|convs|dd]; try done; cbn in Hit; injection Hit as <-.
    + apply list_lookup_fmap_Some in Hl as (? & ? & ?). done.
    + exists d, convs, (PDict dc). done.
    + apply list_lookup_fmap_Some in Hl as (? & ? & ?). done.
  - cbn. intros [= <-] H. by apply elem_of_nil in H.
Qed.

Lemma build_tasks_target i posts ts t :
  build_tasks i posts = Returned ts -> t ∈ ts ->
  (i <= post_idx t)%nat
  /\ exists d convs conv,
       posts !! (post_idx t - i)%nat = Some (PDict d)
       /\ Val.lookup (Py.lit "conversation") d = Some (PList convs)
       /\ convs !! conv_idx t = Some conv /\ scheduled conv = true.
Proof.
  revert i ts. induction posts as [|post rest IH]; intros i ts; cbn [build_tasks].
  - intros [= <-] H. by apply elem_of_nil in H.
  - destruct (post_tasks i post) as [here|] eqn:Hhere; [|done]. cbn [mbind outcome_bind].
    destruct (build_tasks (S i) rest) as [more|] eqn:Hmore; [|done].
    cbn [mbind outcome_bind]. intros [= <-] Hin.
    apply elem_of_app in Hin as [Hin|Hin].
    + destruct (post_tasks_target _ _ _ _ Hhere Hin) as (-> & d & convs & conv & -> & H).
      split; [lia|]. exists d, convs, conv. by rewrite Nat.sub_diag.
    + destruct (IH _ _ Hmore Hin) as (Hi & d & convs & conv & Hl & H).
      split; [lia|]. exists d, convs, conv. split; [|done].
      replace (post_idx t - i)%nat with (S (post_idx t - S i)) by lia. done.
Qed.
End Tasks.

Section Updates.
Import Agent3.

(** The two assignments leave every other field of the turn alone. *)
Lemma setitem_twice_frame conv reply think conv1 conv2 :
  Val.setitem conv (Py.lit "counselor_content") reply = Returned conv1 ->
  Val.setitem conv1 (Py.lit "counselor_think") think = Returned conv2 ->
  exists dc dc',
    conv = PDict dc /\ conv2 = PDict dc'
    /\ forall k, k <> Py.lit "counselor_content" -> k <> Py.lit "counselor_think" ->
                 Val.lookup k dc' = Val.lookup k dc.
Proof.
  destruct conv as [| | | | | |dc]; try done. intros [= <-]. intros [= <-].
  eexists _, _. split; [done|]. split; [done|].
  intros k H1 H2. by rewrite !lookup_assign_ne.
Qed.

Lemma turn_frame_step conv0 conv1 conv2 :
  scheduled conv0 = true ->
  turn_frame conv0 conv1 ->
  (exists dc dc',
     conv1 = PDict dc /\ conv2 = PDict dc'
     /\ forall k, k <> Py.lit "counselor_content" -> k <> Py.lit "counselor_think" ->
                  Val.lookup k dc' = Val.lookup k dc) ->
  turn_frame conv0 conv2.
Proof.
  intros Hs [_ H01] (dc1 & dc2 & -> & -> & H12). split; [congruence|]. right.
  destruct H01 as [<-|(dc0 & dc1' & -> & [= <-] & H01)].
  - eauto.
  - exists dc0, dc2. split; [done|]. split; [done|].
    intros k Hk1 Hk2. by rewrite H12, H01.
Qed.

(** One completed task keeps the frame, when its target was scheduled. *)
Lemma update_turn_frame posts cur i j reply think cur' d0 convs0 conv0 :
  Forall2 post_frame posts cur ->
  posts !! i = Some (PDict d0) ->
  Val.lookup (Py.lit "conversation") d0 = Some (PList convs0) ->
  convs0 !! j = Some conv0 ->
  scheduled conv0 = true ->
  update_turn cur i j reply think = Returned cur' ->
  Forall2 post_frame posts cur'.
Proof.
  intros Hframe Hpost Hconvs Hconv Hs. unfold update_turn.
  destruct (cur !! i) as [[| | | | | |d]|] eqn:Hcur; try done.
  destruct (Val.lookup (Py.lit "conversation") d) as [[| | | | |convs|]|] eqn:Hd; try done.
  destruct (convs !! j) as [conv|] eqn:Hj; [|done].
  destruct (Val.setitem conv _ reply) as [conv1|] eqn:H1; [|done].
  cbn [mbind outcome_bind].
  destruct (Val.setitem conv1 _ think) as [conv2|] eqn:H2; [|done].
  cbn [mbind outcome_bind]. intros [= <-].
  pose proof (setitem_twice_frame _ _ _ _ _ H1 H2) as Hstep.
  rewrite <- (list_insert_id posts i (PDict d0)) by done.
  apply Forall2_insert; [done|].
  pose proof (Forall2_lookup_lr _ _ _ _ _ _ Hframe Hpost Hcur) as Hp.
  right. exists d0, convs0.
  destruct Hp as [[= ->]|(d0' & convs0' & convs1 & [= <-] & Hl & [= ->] & Hturns)].
  - rewrite Hconvs in Hd. injection Hd as <-.
    exists (<[j := conv2]> convs0). split; [done|]. split; [done|]. split; [done|].
    rewrite <- (list_insert_id convs0 j conv0) at 1 by done.
    apply Forall2_insert; [apply Forall_Forall2_diag, Forall_forall; intros; apply turn_frame_refl|].
    eapply turn_frame_step; eauto using turn_frame_refl.
    rewrite Hconv in Hj. by injection Hj as <-.
  - rewrite Hconvs in Hl. injection Hl as <-.
    rewrite lookup_assign_eq in Hd. injection Hd as <-.
    exists (<[j := conv2]> convs1). split; [done|]. split; [done|].
    split; [by rewrite assign_assign|].
    rewrite <- (list_insert_id convs0 j conv0) at 1 by done.
    apply Forall2_insert; [done|].
    eapply turn_frame_step; eauto.
    eapply Forall2_lookup_lr; eauto.
Qed.

(** Under the frame, the update of a scheduled turn does not raise. *)
Lemma update_turn_returns posts cur i j reply think d0 convs0 conv0 :
  Forall2 post_frame posts cur ->
  posts !! i = Some (PDict d0) ->
  Val.lookup (Py.lit "conversation") d0 = Some (PList convs0) ->
  convs0 !! j = Some conv0 ->
  scheduled conv0 = true ->
  exists cur', update_turn cur i j reply think = Returned cur'.
Proof.
  intros Hframe Hpost Hconvs Hconv Hs.
  destruct (Forall2_lookup_l _ _ _ _ _ Hframe Hpost) as (post1 & Hcur & Hp).
  assert (Hshape : exists d convs conv dc,
             post1 = PDict d
             /\ Val.lookup (Py.lit "conversation") d = Some (PList convs)
             /\ convs !! j = Some conv /\ conv = PDict dc).
  { destruct (scheduled_is_dict _ Hs) as [dc0 ->].
    destruct Hp as [->|(d0' & convs0' & convs1 & [= <-] & Hl & -> & Hturns)].
    - by exists d0, convs0, (PDict dc0), dc0.
    - rewrite Hconvs in Hl. injection Hl as <-.
      destruct (Forall2_lookup_l _ _ _ _ _ Hturns Hconv) as (conv1 & Hj & _ & Ht).
      exists (Val.assign (Py.lit "conversation") (PList convs1) d0), convs1, conv1.
      destruct Ht as [->|(dc & dc' & _ & -> & _)].
      + exists dc0. by rewrite lookup_assign_eq.
      + exists dc'. by rewrite lookup_assign_eq. }
  destruct Hshape as (d & convs & conv & dc & -> & Hd & Hj & ->).
  unfold update_turn. rewrite Hcur, Hd, Hj. cbn. eauto.
Qed.

Lemma completion_loop_frame posts tasks answers order st st' :
  build_tasks 0 posts = Returned tasks ->
  Forall2 post_frame posts (posts_now st) ->
  completion_loop tasks answers order st = Returned st' ->
  Forall2 post_frame posts (posts_now st').
Proof.
  intros Htasks. revert st. induction order as [|k rest IH]; intros st Hframe.
  - by intros [= <-].
  - cbn [completion_loop].
    destruct (tasks !! k) as [t|] eqn:Ht; [|by apply IH].
    destruct (answers k) as [[reply think]|]; [|by apply IH].
    destruct (update_turn _ _ _ _ _) as [posts1|] eqn:Hup; [|done].
    cbn [mbind outcome_bind]. apply IH. cbn [posts_now].
    destruct (build_tasks_target 0 posts tasks t Htasks)
      as (_ & d & convs & conv & Hp & Hc & Hj & Hs).
    { by eapply list_elem_of_lookup_2. }
    rewrite Nat.sub_0_r in Hp.
    eapply update_turn_frame; eauto.
Qed.

Lemma main_from_frame posts fs answers order posts' fs' :
  main_from posts fs answers order = Returned (posts', fs') ->
  Forall2 post_frame posts posts'.
Proof.
  unfold main_from. destruct (build_tasks 0 posts) as [tasks|] eqn:Htasks; [|done].
  cbn [mbind outcome_bind].
  assert (Hrefl : Forall2 post_frame posts posts).
  { apply Forall_Forall2_diag, Forall_forall. intros; apply post_frame_refl. }
  destruct tasks as [|t tasks]; [by intros [= <- _]|].
  destruct (completion_loop _ _ _ _) as [st|] eqn:Hloop; [|done].
  cbn [mbind outcome_bind]. intros [= <- _].
  eapply (completion_loop_frame posts _ answers order _ st Htasks); [|exact Hloop].
  exact Hrefl.
Qed.
(** Once the tasks are built, the rest of the run does not raise. *)
Lemma completion_loop_returns posts tasks answers order st :
  build_tasks 0 posts = Returned tasks ->
  Forall2 post_frame posts (posts_now st) ->
  exists st', completion_loop tasks answers order st = Returned st'.
Proof.
  intros Htasks. revert st. induction order as [|k rest IH]; intros st Hframe.
  - by eexists.
  - cbn [completion_loop].
    destruct (tasks !! k) as [t|] eqn:Ht; [|by apply IH].
    destruct (answers k) as [[reply think]|]; [|by apply IH].
    destruct (build_tasks_target 0 posts tasks t Htasks)
      as (_ & d & convs & conv & Hp & Hc & Hj & Hs).
    { by eapply list_elem_of_lookup_2. }
    rewrite Nat.sub_0_r in Hp.
    destruct (update_turn_returns posts (posts_now st) (post_idx t) (conv_idx t)
                reply think d convs conv Hframe Hp Hc Hj Hs) as [cur' Hup].
    rewrite Hup. cbn [mbind outcome_bind]. apply IH. cbn [posts_now].
    eapply update_turn_frame; eauto.
Qed.

Lemma main_from_returns posts fs answers order tasks :
  build_tasks 0 posts = Returned tasks ->
  exists posts' fs', main_from posts fs answers order = Returned (posts', fs').
Proof.
  intros Htasks. unfold main_from. rewrite Htasks. cbn [mbind outcome_bind].
  destruct tasks as [|t tasks]; [by eexists _, _|].
  destruct (completion_loop_returns posts (t :: tasks) answers order
              {| posts_now := posts; update_counter := 0; disk := fs |} Htasks)
    as [st' Hst].
  { apply Forall_Forall2_diag, Forall_forall. intros; apply post_frame_refl. }
  rewrite Hst. cbn [mbind outcome_bind]. by eexists _, _.
Qed.
End Updates.



(** ** Facts about the string operations *)

Section Strings.
Import Py.
Implicit Types (s p w : str) (c x : N).

Lemma startswith_app p s : startswith p (p ++ s) = true.
Proof. induction p as [|a p IH]; cbn; [done|]. by rewrite N.eqb_refl. Qed.

Lemma startswith_true p s : startswith p s = true -> exists r, s = p ++ r.
Proof.
  revert s. induction p as [|a p IH]; intros s; cbn.
  - by exists s.
  - destruct s as [|b s]; [done|]. intros [Hab Hp]%andb_true_iff.
    apply N.eqb_eq in Hab as ->. destruct (IH s Hp) as [r ->]. by exists r.
Qed.

Lemma endswith_true p s : endswith p s = true -> exists r, s = r ++ p.
Proof.
  unfold endswith. intros [r Hr]%startswith_true. exists (reverse r).
  apply (f_equal reverse) in Hr. by rewrite reverse_involutive, reverse_app,
    reverse_involutive in Hr.
Qed.

(** [lstrip] removes a run of spaces and stops at the first other code
    point. *)
Lemma lstrip_split s :
  exists w, s = w ++ lstrip s /\ Forall (fun c => isspace c = true) w.
Proof.
  induction s as [|c s (w & Hs & Hw)]; cbn.
  - by exists [].
  - destruct (isspace c) eqn:Hc.
    + exists (c :: w). split; [by rewrite <- app_comm_cons, <- Hs|by constructor].
    + by exists [].
Qed.

Lemma rstrip_split s :
  exists w, s = rstrip s ++ w /\ Forall (fun c => isspace c = true) w.
Proof.
  unfold rstrip. destruct (lstrip_split (reverse s)) as (w & Hs & Hw).
  exists (reverse w). split.
  - apply (f_equal reverse) in Hs. by rewrite reverse_involutive, reverse_app in Hs.
  - by apply Forall_reverse.
Qed.

Lemma strip_split s :
  exists w1 w2, s = w1 ++ strip s ++ w2
                /\ Forall (fun c => isspace c = true) w1
                /\ Forall (fun c => isspace c = true) w2.
Proof.
  unfold strip. destruct (lstrip_split s) as (w1 & Hs & Hw1).
  destruct (rstrip_split (lstrip s)) as (w2 & Hr & Hw2).
  exists w1, w2. by rewrite <- Hr.
Qed.

Lemma from_first_Some x s t : from_first x s = Some t -> exists r, t = x :: r.
Proof.
  induction s as [|c s IH]; cbn; [done|].
  destruct (N.eqb_spec c x) as [->|]; [|done]. intros [= <-]. eauto.
Qed.

Lemma from_first_skip x w s :
  Forall (fun c => c <> x) w -> from_first x (w ++ s) = from_first x s.
Proof.
  induction 1 as [|c w Hc _ IH]; cbn; [done|].
  by rewrite (proj2 (N.eqb_neq c x) Hc).
Qed.

Lemma from_first_app x s w :
  Forall (fun c => c <> x) w ->
  from_first x (s ++ w) = (fun t => t ++ w) <$> from_first x s.
Proof.
  intros Hw. induction s as [|c s IH]; cbn.
  - rewrite <- (app_nil_r w), from_first_skip by done. done.
  - by destruct (c =? x).
Qed.

Lemma upto_last_app x s w :
  Forall (fun c => c <> x) w -> upto_last x (s ++ w) = upto_last x s.
Proof.
  intros Hw. unfold upto_last.
  by rewrite reverse_app, from_first_skip by by apply Forall_reverse.
Qed.

(** Cutting off a prefix and a suffix without braces does not move the
    span the pattern finds. *)
Lemma search_braces_trim w1 s w2 :
  Forall (fun c => c <> 123 /\ c <> 125) w1 ->
  Forall (fun c => c <> 123 /\ c <> 125) w2 ->
  search_braces (w1 ++ s ++ w2) = search_braces s.
Proof.
  intros H1 H2. unfold search_braces.
  rewrite from_first_skip by (eapply Forall_impl; [exact H1|]; by intros ? [? ?]).
  rewrite from_first_app by (eapply Forall_impl; [exact H2|]; by intros ? [? ?]).
  destruct (from_first 123 s) as [t|] eqn:E; cbn; [|done].
  apply from_first_Some in E as [r ->]. cbn.
  by rewrite upto_last_app by (eapply Forall_impl; [exact H2|]; by intros ? [? ?]).
Qed.

Lemma space_not_brace c : isspace c = true -> c <> 123 /\ c <> 125.
Proof. intros H. split; intros ->; discriminate. Qed.

Lemma search_braces_strip s : search_braces (strip s) = search_braces s.
Proof.
  destruct (strip_split s) as (w1 & w2 & Hs & H1 & H2).
  rewrite Hs at 2. symmetry. apply search_braces_trim;
    (eapply Forall_impl; [eassumption|]); apply space_not_brace.
Qed.
End Strings.

Lemma search_braces_strip_json_fence (text : str) :
  Py.search_braces (strip_json_fence text) = Py.search_braces text.
Proof.
  unfold strip_json_fence.
  rewrite <- (search_braces_strip text). set (t0 := Py.strip text). clearbody t0.
  assert (H1 : Py.search_braces
                 (if Py.startswith (Py.lit "```json") t0
                  then Py.strip (Py.slice_from 7 t0) else t0)
               = Py.search_braces t0).
  { destruct (Py.startswith _ t0) eqn:E; [|done].
    apply startswith_true in E as [r ->]. rewrite search_braces_strip.
    change (Py.slice_from 7 (Py.lit "```json" ++ r)) with r.
    symmetry. rewrite <- (app_nil_r r) at 1.
    apply search_braces_trim; [|constructor].
    repeat constructor; discriminate. }
  rewrite <- H1. set (t1 := if Py.startswith _ t0 then _ else _). clearbody t1.
  destruct (Py.endswith _ t1) eqn:E; [|done].
  apply endswith_true in E as [r ->]. rewrite search_braces_strip.
  unfold Py.slice_to_minus. rewrite length_app. cbn [length Py.lit].
  replace (length r + length (Py.lit "```") - 3)%nat with (length r)
    by (cbn; lia).
  rewrite take_app_length. symmetry.
  apply (search_braces_trim [] r (Py.lit "```")); [constructor|].
  repeat constructor; discriminate.
Qed.

(** ** Facts about the JSON lexer *)

(** Turns the boolean tests of a hypothesis into arithmetic. *)
Ltac tests_to_prop H :=
  repeat rewrite ?orb_true_iff, ?andb_true_iff, ?N.eqb_eq, ?N.leb_le, ?N.ltb_lt in H.

(** Settles the tests of the goal that arithmetic decides. *)
Ltac decide_tests :=
  repeat match goal with
    | |- context [N.eqb ?a ?b] =>
        first [ rewrite (proj2 (N.eqb_neq a b)) by lia
              | rewrite (proj2 (N.eqb_eq a b)) by lia ]
    | |- context [N.leb ?a ?b] =>
        first [ rewrite (proj2 (N.leb_le a b)) by lia
              | rewrite (proj2 (N.leb_gt a b)) by lia ]
    | |- context [N.ltb ?a ?b] =>
        first [ rewrite (proj2 (N.ltb_lt a b)) by lia
              | rewrite (proj2 (N.ltb_ge a b)) by lia ]
    end.

Section Lexer.
Import Json.
Implicit Types (s w : str) (c : N) (st : lexst) (out : list token).

(** A space is JSON whitespace, or a control character, or lies beyond
    ASCII. *)
Lemma isspace_cases c :
  Py.isspace c = true ->
  (c = 9 \/ c = 10 \/ c = 13 \/ c = 32)
  \/ (c = 11 \/ c = 12 \/ 28 <= c <= 31)
  \/ 133 <= c.
Proof. unfold Py.isspace. intros H. tests_to_prop H. lia. Qed.

Lemma lex_between_space out c :
  Py.isspace c = true ->
  lex_between out c = if is_ws c then Some (LBetween, out) else None.
Proof.
  intros [H|[H|H]]%isspace_cases.
  - by destruct H as [-> | [-> | [-> | ->]]].
  - unfold lex_between, is_ws, is_atom_char, is_digit, is_alpha.
    destruct H as [-> | [-> | H]]; [done|done|]. by decide_tests.
  - unfold lex_between, is_ws, is_atom_char, is_digit, is_alpha. by decide_tests.
Qed.

Lemma space_in_token c :
  Py.isspace c = true ->
  (c =? 34) = false /\ (c =? 92) = false /\ (c =? 117) = false
  /\ is_atom_char c = false /\ simple_escape c = None /\ hex_value c = None.
Proof.
  intros [H|[H|H]]%isspace_cases.
  - by destruct H as [-> | [-> | [-> | ->]]].
  - unfold is_atom_char, simple_escape, hex_value, is_digit, is_alpha.
    destruct H as [-> | [-> | H]]; [done|done|]. by decide_tests.
  - unfold is_atom_char, simple_escape, hex_value, is_digit, is_alpha. by decide_tests.
Qed.

(** Reading a space never turns an unfinished text into a finished one. *)
Lemma lex_step_space st out c st' out' ts :
  Py.isspace c = true ->
  lex_step st out c = Some (st', out') ->
  lex_finish st' out' = Some ts ->
  lex_finish st out = Some ts.
Proof.
  intros Hc. destruct (space_in_token c Hc) as (H34 & H92 & H117 & Hatom & Hesc & Hhex).
  destruct st as [|run|acc hi|acc hi|acc hi ds]; cbn [lex_step].
  - rewrite lex_between_space by done. destruct (is_ws c); [|done]. by intros [= <- <-].
  - rewrite Hatom. destruct (atom_value (reverse run)) as [v|] eqn:Hv; [|done].
    rewrite lex_between_space by done. destruct (is_ws c); [|done].
    intros [= <- <-]. cbn [lex_finish]. by rewrite Hv.
  - rewrite H34, H92. destruct (c <? 32); [done|]. by intros [= <- <-].
  - by rewrite H117, Hesc.
  - by rewrite Hhex.
Qed.

Lemma lex_lstrip out s ts :
  lex LBetween out s = Some ts -> lex LBetween out (Py.lstrip s) = Some ts.
Proof.
  induction s as [|c s IH]; [done|]. cbn [Py.lstrip].
  destruct (Py.isspace c) eqn:Hc; [|done].
  cbn [lex lex_step]. rewrite lex_between_space by done.
  by destruct (is_ws c).
Qed.

Lemma lex_spaces st out w ts :
  Forall (fun c => Py.isspace c = true) w ->
  lex st out w = Some ts -> lex_finish st out = Some ts.
Proof.
  intros Hw. revert st out. induction Hw as [|c w Hc _ IH]; intros st out; [done|].
  cbn [lex]. destruct (lex_step st out c) as [[st' out']|] eqn:Hstep; [|done].
  intros H. eapply lex_step_space; eauto.
Qed.

Lemma lex_trailing st out s w ts :
  Forall (fun c => Py.isspace c = true) w ->
  lex st out (s ++ w) = Some ts -> lex st out s = Some ts.
Proof.
  intros Hw. revert st out. induction s as [|c s IH]; intros st out.
  - by apply lex_spaces.
  - cbn [app lex]. destruct (lex_step st out c) as [[st' out']|]; [apply IH|done].
Qed.

Lemma tokenize_strip s ts : tokenize s = Some ts -> tokenize (Py.strip s) = Some ts.
Proof.
  unfold tokenize, Py.strip. intros H%lex_lstrip.
  destruct (rstrip_split (Py.lstrip s)) as (w & Hs & Hw).
  rewrite Hs in H. by eapply lex_trailing.
Qed.

(** A text that parses still parses, to the same value, once stripped. *)
Lemma json_loads_strip s v :
  json_loads s = Some v -> json_loads (Py.strip s) = Some v.
Proof.
  unfold json_loads. destruct (tokenize s) as [ts|] eqn:Ht; [|done].
  by rewrite (tokenize_strip s ts Ht).
Qed.

(** No JSON document starts or ends with a backtick. *)
Lemma lex_step_backtick st out st' out' :
  lex_step st out 96 = Some (st', out') -> lex_finish st' out' = None.
Proof.
  destruct st as [|run|acc hi|acc hi|acc hi ds]; cbn; try done.
  - by destruct (atom_value (reverse run)).
  - by intros [= <- <-].
Qed.

Lemma lex_backtick_last st out s : lex st out (s ++ [96]) = None.
Proof.
  revert st out. induction s as [|c s IH]; intros st out; cbn [app lex].
  - destruct (lex_step st out 96) as [[st' out']|] eqn:H; [|done].
    by apply lex_step_backtick in H.
  - by destruct (lex_step st out c) as [[st' out']|].
Qed.

Lemma tokenize_backtick_first s : tokenize (96 :: s) = None.
Proof. done. Qed.
End Lexer.

Section Fences.
Import Json.

Lemma json_loads_tokenize s v : json_loads s = Some v -> exists ts, tokenize s = Some ts.
Proof. unfold json_loads. destruct (tokenize s); [eauto|done]. Qed.

Lemma json_loads_no_fence s v :
  json_loads s = Some v ->
  Py.startswith (Py.lit "```") (Py.strip s) = false
  /\ Py.startswith (Py.lit "```json") (Py.strip s) = false
  /\ Py.endswith (Py.lit "```") (Py.strip s) = false.
Proof.
  intros [ts Hts]%json_loads_strip%json_loads_tokenize.
  split; [|split].
  - destruct (Py.startswith _ _) eqn:E; [|done].
    apply startswith_true in E as [r Hr]. rewrite Hr in Hts.
    change (Py.lit "```" ++ r) with (96 :: (96 :: 96 :: r)) in Hts.
    by rewrite tokenize_backtick_first in Hts.
  - destruct (Py.startswith _ _) eqn:E; [|done].
    apply startswith_true in E as [r Hr]. rewrite Hr in Hts.
    change (Py.lit "```json" ++ r)
      with (96 :: (96 :: 96 :: 106 :: 115 :: 111 :: 110 :: r)) in Hts.
    by rewrite tokenize_backtick_first in Hts.
  - destruct (Py.endswith _ _) eqn:E; [|done].
    apply endswith_true in E as [r Hr]. rewrite Hr in Hts.
    change (Py.lit "```") with ([96; 96] ++ [96]) in Hts.
    rewrite app_assoc in Hts. unfold tokenize in Hts.
    by rewrite lex_backtick_last in Hts.
Qed.

(** On a text that parses, the fence stripping of stages 1 and 2 and the
    code-block unwrapping of stage 4 reduce to [strip]. *)
Lemma strip_json_fence_parsed s v :
  json_loads s = Some v -> strip_json_fence s = Py.strip s.
Proof.
  intros (_ & H1 & H2)%json_loads_no_fence. unfold strip_json_fence.
  by rewrite H1, H2.
Qed.

Lemma unwrap_code_block_parsed s v :
  json_loads s = Some v -> Agent4.unwrap_code_block (Py.strip s) = Py.strip s.
Proof.
  intros (H1 & _)%json_loads_no_fence. unfold Agent4.unwrap_code_block.
  by rewrite H1.
Qed.
End Fences.

(** ** The parsing of the four stages, against the chain of the
    specification *)

Section Chains.
Import Json.

Lemma parse_content_strict text v :
  json_loads text = Some v -> Agent2.parse_content text = Some v.
Proof.
  intros H. unfold Agent2.parse_content.
  rewrite (strip_json_fence_parsed text v H). by apply json_loads_strip.
Qed.

(** Stage 2 is the first two steps of the chain. *)
Lemma parse_content_chain text :
  Agent2.parse_content text = Spec.strict_or_fenced text.
Proof.
  unfold Spec.strict_or_fenced. destruct (json_loads text) as [v|] eqn:H; [|done].
  by apply parse_content_strict.
Qed.

(** Stage 1 is the whole chain, except where the chain rejects. *)
Lemma parse_output_chain text :
  Agent1.parse_output text
  = match Spec.lenient_parse text with
    | Some v => Returned v
    | None =>
        match Py.search_braces text with
        | Some _ => Raised JSONDecodeError
        | None => Returned (PDict [])
        end
    end.
Proof.
  unfold Agent1.parse_output, Spec.lenient_parse.
  rewrite search_braces_strip_json_fence.
  destruct (json_loads text) as [v|] eqn:H.
  - pose proof (parse_content_strict text v H) as H2.
    unfold Agent2.parse_content in H2. by rewrite H2.
  - destruct (json_loads (strip_json_fence text)); [done|].
    destruct (Py.search_braces text) as [m|]; [|done].
    by destruct (json_loads m).
Qed.

Lemma interpret_strict text v :
  json_loads text = Some v ->
  Agent4.interpret text
  = match Agent4.has_required_keys v with
    | Returned true => v
    | Returned false => Agent4.reject ValueError (Py.strip text)
    | Raised e => Agent4.reject e (Py.strip text)
    end.
Proof.
  intros H. unfold Agent4.interpret.
  rewrite (unwrap_code_block_parsed text v H).
  by rewrite (json_loads_strip text v H).
Qed.
End Chains.

(** C5, as stated, fails: the stages do not share one parser.  On an answer
    with words before the object, the chain of the specification finds the
    object, stage 1 does too, stage 2 fails and stage 4 returns its
    fallback; on an answer without any object the chain rejects and stage 1
    yields an empty object. *)
Lemma C5_adapters_differ_counterexample :
  let talkative := Py.qlit "Here it is: {'conversation': []}" in
  let verdict := Py.qlit "Verdict: {'keep': true, 'issues': [], 'reason': 'ok'}" in
  let kept := PDict [(Py.lit "keep", PBool true); (Py.lit "issues", PList []);
                     (Py.lit "reason", PStr (Py.lit "ok"))] in
  Spec.lenient_parse talkative = Some (PDict [(Py.lit "conversation", PList [])])
  /\ Agent1.parse_output talkative = Returned (PDict [(Py.lit "conversation", PList [])])
  /\ Agent2.parse_content talkative = None
  /\ Spec.lenient_parse verdict = Some kept
  /\ Agent4.interpret verdict = Agent4.reject JSONDecodeError verdict
  /\ Agent4.interpret verdict <> kept
  /\ Spec.lenient_parse (Py.lit "no object here") = None
  /\ Agent1.parse_output (Py.lit "no object here") = Returned (PDict [])
  /\ ~ (forall text, Agent2.parse_content text = Spec.lenient_parse text).
Proof.
  cbn zeta.
  assert (H2 : Agent2.parse_content (Py.qlit "Here it is: {'conversation': []}") = None)
    by (vm_compute; reflexivity).
  assert (H0 : Spec.lenient_parse (Py.qlit "Here it is: {'conversation': []}")
               = Some (PDict [(Py.lit "conversation", PList [])]))
    by (vm_compute; reflexivity).
  split; [exact H0|]. split; [vm_compute; reflexivity|]. split; [exact H2|].
  split; [vm_compute; reflexivity|]. split; [vm_compute; reflexivity|].
  split; [vm_compute; discriminate|]. split; [vm_compute; reflexivity|].
  split; [vm_compute; reflexivity|].
  intros H. specialize (H (Py.qlit "Here it is: {'conversation': []}")).
  rewrite H2, H0 in H. discriminate.
Qed.

(** C5, amended: on an answer that is strict JSON, stages 1, 2 and 4 all
    take the strict parse (stage 4 then tests its three keys).  Otherwise
    they differ: stage 2 is the first two steps of the chain and fails after
    them; stage 1 is the whole chain, but where the chain rejects it yields
    an empty object when the text has no brace span and raises when the span
    does not parse; stage 4 unwraps a code block by a rule of its own, has
    no embedded-object step, and answers a text that does not parse with its
    fallback result.  (Stage 3 does not parse its answer.) *)
Theorem C5_parsing_chains (text : str) :
  (forall v, Json.json_loads text = Some v ->
     Agent1.parse_output text = Returned v
     /\ Agent2.parse_content text = Some v
     /\ Agent4.interpret text
        = match Agent4.has_required_keys v with
          | Returned true => v
          | Returned false => Agent4.reject ValueError (Py.strip text)
          | Raised e => Agent4.reject e (Py.strip text)
          end)
  /\ Agent2.parse_content text = Spec.strict_or_fenced text
  /\ Agent1.parse_output text
     = match Spec.lenient_parse text with
       | Some v => Returned v
       | None =>
           match Py.search_braces text with
           | Some _ => Raised JSONDecodeError
           | None => Returned (PDict [])
           end
       end
  /\ (Json.json_loads (Agent4.unwrap_code_block (Py.strip text)) = None ->
      Agent4.interpret text
      = Agent4.reject JSONDecodeError (Agent4.unwrap_code_block (Py.strip text))).
Proof.
  split; [|split; [|split]].
  - intros v H. split; [|split].
    + rewrite parse_output_chain. unfold Spec.lenient_parse. by rewrite H.
    + by apply parse_content_strict.
    + by apply interpret_strict.
  - apply parse_content_chain.
  - apply parse_output_chain.
  - apply interpret_unparseable.
Qed.

Lemma C5_parsing_chains_witness :
  let text := Py.qlit " {'rounds': 1, 'info_by_round': ['anxiety']} " in
  let v := PDict [(Py.lit "rounds", PInt 1);
                  (Py.lit "info_by_round", PList [PStr (Py.lit "anxiety")])] in
  (Agent1.parse_output text = Returned v
   /\ Agent2.parse_content text = Some v
   /\ Agent4.interpret text
      = match Agent4.has_required_keys v with
        | Returned true => v
        | Returned false => Agent4.reject ValueError (Py.strip text)
        | Raised e => Agent4.reject e (Py.strip text)
        end)
  /\ Agent4.interpret (Py.lit "not json")
     = Agent4.reject JSONDecodeError
         (Agent4.unwrap_code_block (Py.strip (Py.lit "not json"))).
Proof.
  intros text v. split.
  - apply (proj1 (C5_parsing_chains text) v). vm_compute. reflexivity.
  - apply (proj2 (proj2 (proj2 (C5_parsing_chains (Py.lit "not json"))))).
    vm_compute. reflexivity.
Defined.

(** ** Client rotation under the lock (stage 3) *)

Section LockedRotation.
Import Rotation.
Variables (n i0 : nat).
Hypothesis n_pos : (0 < n)%nat.

Lemma insert_Permutation {A} (l : list A) (i : nat) (x y : A) :
  l !! i = Some x -> <[i := y]> l ≡ₚ y :: delete i l.
Proof.
  revert i. induction l as [|a l IH]; intros [|i]; cbn; try done.
  intros H. rewrite (IH i H). apply perm_swap.
Qed.

Lemma critical_none_local_ok index p : critical p = None -> local_ok index p.
Proof. by destruct p. Qed.

Lemma no_critical_local_ok index (ths : list pc) :
  length (omap critical ths) = 0%nat -> Forall (local_ok index) ths.
Proof.
  induction ths as [|p ths IH]; cbn; [constructor|].
  destruct (critical p) eqn:E; cbn; [done|].
  intros H. constructor; [by apply critical_none_local_ok | by apply IH].
Qed.

Lemma rotation_S k : rotation n i0 (S k) ≡ₚ ((i0 + k) mod n)%nat :: rotation n i0 k.
Proof.
  unfold rotation. rewrite seq_S, fmap_app. cbn.
  apply Permutation_app_comm.
Qed.

(** The invariant only looks at the threads as a multiset. *)
Lemma locked_inv_perm index lock (ths ths' : list pc) :
  ths ≡ₚ ths' ->
  locked_inv n i0 {| client_index := index; lock_held := lock; threads := ths |} ->
  locked_inv n i0 {| client_index := index; lock_held := lock; threads := ths' |}.
Proof.
  intros Hp. unfold locked_inv. cbn [threads client_index lock_held].
  intros (H1 & H2 & H3 & H4).
  assert (Hc : omap critical ths ≡ₚ omap critical ths') by (by apply omap_Permutation).
  assert (Ho : omap obtained ths ≡ₚ omap obtained ths') by (by apply omap_Permutation).
  split; [|split; [|split]].
  - by rewrite <- (Permutation_length Hc).
  - by rewrite <- (Permutation_length Ho).
  - by eapply Permutation_Forall.
  - rewrite <- (Permutation_length Ho). by etrans; [symmetry; exact Ho|].
Qed.

(** One step of one thread, seen on the multiset: the thread [p] is
    replaced by [p'], the rest stays. *)
Lemma locked_inv_step index lock p rest index' lock' p' :
  locked_inv n i0 {| client_index := index; lock_held := lock; threads := p :: rest |} ->
  match p with
  | AtAcquire => lock = false /\ lock' = true /\ index' = index /\ p' = AtLookup
  | AtLookup => lock' = lock /\ index' = index /\ p' = AtAdd index
  | AtAdd c => lock' = lock /\ index' = index /\ p' = AtStore c (index + 1)
  | AtStore c next => lock' = lock /\ index' = (next mod n)%nat /\ p' = AtRelease c
  | AtRelease c => lock' = false /\ index' = index /\ p' = Finished c
  | Finished _ => False
  end ->
  locked_inv n i0 {| client_index := index'; lock_held := lock'; threads := p' :: rest |}.
Proof.
  unfold locked_inv. cbn [threads client_index lock_held].
  intros (H1 & H2 & H3 & H4) Hstep. apply Forall_cons in H3 as [Hp Hrest].
  destruct p as [| |c|c next|c|c]; cbn [omap critical obtained local_ok list_omap] in *.
  - destruct Hstep as (-> & -> & -> & ->). cbn [omap list_omap critical obtained length].
    split; [by rewrite H1|]. split; [done|]. split; [|done]. by constructor.
  - destruct Hstep as (-> & -> & ->). cbn [omap list_omap critical obtained length].
    split; [done|]. split; [done|]. split; [|done]. by constructor.
  - destruct Hstep as (-> & -> & ->). cbn [omap list_omap critical obtained length].
    split; [done|]. split; [done|]. split; [|done]. constructor; [|done].
    cbn. by subst.
  - destruct Hstep as (-> & -> & ->). destruct Hp as [-> ->].
    cbn [omap list_omap critical obtained length] in *.
    destruct lock; [|done]. injection H1 as H1.
    set (m := length (omap obtained rest)) in *.
    split; [by rewrite H1|]. split; [|split].
    + rewrite H2, Nat.Div0.add_mod_idemp_l. f_equal. lia.
    + constructor; [done|]. by apply no_critical_local_ok.
    + rewrite rotation_S, <- H2. by constructor.
  - destruct Hstep as (-> & -> & ->). cbn [omap list_omap critical obtained length] in *.
    destruct lock; [|done]. injection H1 as H1.
    split; [done|]. split; [done|]. split; [|done]. by constructor.
  - done.
Qed.

Lemma step_locked_inv w t w' :
  step true n w t = Some w' -> locked_inv n i0 w -> locked_inv n i0 w'.
Proof.
  unfold step. destruct w as [index lock ths]. cbn [threads client_index lock_held].
  destruct (ths !! t) as [p|] eqn:Ht; [|done].
  intros Hstep Hinv.
  apply (locked_inv_perm _ _ _ (p :: delete t ths)) in Hinv;
    [|by apply delete_Permutation].
  destruct p as [| |c|c next|c|c].
  - destruct lock; [done|]. injection Hstep as <-.
    eapply locked_inv_perm; [symmetry; by eapply insert_Permutation|].
    eapply locked_inv_step; [exact Hinv|]. done.
  - injection Hstep as <-.
    eapply locked_inv_perm; [symmetry; by eapply insert_Permutation|].
    eapply locked_inv_step; [exact Hinv|]. done.
  - injection Hstep as <-.
    eapply locked_inv_perm; [symmetry; by eapply insert_Permutation|].
    eapply locked_inv_step; [exact Hinv|]. done.
  - injection Hstep as <-.
    eapply locked_inv_perm; [symmetry; by eapply insert_Permutation|].
    eapply locked_inv_step; [exact Hinv|]. done.
  - injection Hstep as <-.
    eapply locked_inv_perm; [symmetry; by eapply insert_Permutation|].
    eapply locked_inv_step; [exact Hinv|]. done.
  - done.
Qed.

Lemma step_length guarded w t w' :
  step guarded n w t = Some w' -> length (threads w') = length (threads w).
Proof.
  unfold step. destruct (threads w !! t) as [[| |c|c next|c|c]|]; try done;
    try (intros [= <-]; cbn; by rewrite length_insert).
  destruct (lock_held w); [done|]. intros [= <-]. cbn. by rewrite length_insert.
Qed.

Lemma run_locked_inv schedule w :
  locked_inv n i0 w ->
  locked_inv n i0 (run true n w schedule)
  /\ length (threads (run true n w schedule)) = length (threads w).
Proof.
  revert w. induction schedule as [|t rest IH]; intros w Hinv; cbn [run]; [done|].
  destruct (step true n w t) as [w'|] eqn:Hstep; cbn [default from_option id].
  - destruct (IH w' (step_locked_inv _ _ _ Hstep Hinv)) as [H1 H2].
    split; [done|]. rewrite H2. by eapply step_length.
  - by apply IH.
Qed.

Lemma start_locked_inv k : (i0 < n)%nat -> locked_inv n i0 (start true i0 k).
Proof.
  intros Hi. unfold locked_inv, start. cbn [threads client_index lock_held].
  assert (H1 : omap critical (replicate k AtAcquire) = []) by (induction k; cbn; auto).
  assert (H2 : omap obtained (replicate k AtAcquire) = []) by (induction k; cbn; auto).
  rewrite H1, H2. cbn. rewrite Nat.add_0_r, Nat.mod_small by done.
  repeat split; auto. apply Forall_replicate. done.
Qed.

Lemma handed_out_obtained w l : handed_out w = Some l -> omap obtained (threads w) = l.
Proof.
  unfold handed_out. intros H%mapM_Some_1.
  induction H as [|p c ths l Hp _ IH]; [done|].
  destruct p; try done. cbn in *. injection Hp as ->. by rewrite IH.
Qed.

(** Under the lock, whatever the schedule, [k] calls from index [i0] hand
    out the clients of [k] calls made in turn and advance the index [k]
    times. *)
Lemma locked_rotation_in_turn k schedule l :
  (i0 < n)%nat ->
  handed_out (agent3_get_client n (start true i0 k) schedule) = Some l ->
  l ≡ₚ rotation n i0 k
  /\ client_index (agent3_get_client n (start true i0 k) schedule) = ((i0 + k) mod n)%nat.
Proof.
  intros Hi Hout. unfold agent3_get_client in *.
  destruct (run_locked_inv schedule _ (start_locked_inv k Hi)) as [(_ & H2 & _ & H4) Hlen].
  pose proof (handed_out_obtained _ _ Hout) as Hl.
  assert (Hk : length l = k).
  { apply mapM_Some_1, Forall2_length in Hout. rewrite <- Hout, Hlen.
    cbn. apply length_replicate. }
  rewrite Hl, Hk in *. done.
Qed.
End LockedRotation.

(** ** Stage 4, when every answer is read as an object *)

Section FilterObjects.
Import Agent4.
Variable gw : nat -> outcome str.

(** The hosted model answers every call, and [interpret] makes a dict of
    each answer (the parsed object, or the fallback result). *)
Hypothesis answers_are_objects :
  forall k, exists content d, gw k = Returned content /\ interpret content = PDict d.

(** Then the loop returns one result per post, each with the identifier of
    its post. *)
Lemma filter_posts_objects i posts :
  Forall (fun post => exists d, post = PDict d) posts ->
  exists results,
    filter_posts gw i posts = Returned results
    /\ Forall2 (fun post result =>
                  Val.subscript result (Py.lit "post_id")
                  = Val.get post (Py.lit "post_id"))
               posts results.
Proof.
  intros Hposts. revert i. induction Hposts as [|post rest [d ->] _ IH]; intros i.
  - exists []. split; [done|constructor].
  - destruct (answers_are_objects i) as (content & d' & Hgw & Hint).
    destruct (IH (S i)) as (results & Hres & Hall).
    cbn [filter_posts Val.get mbind outcome_bind]. unfold inference_with_deepseek_v3.
    rewrite Hgw. cbn [mbind outcome_bind]. rewrite Hint. cbn [Val.setitem mbind outcome_bind].
    rewrite Hres. cbn [mbind outcome_bind]. eexists. split; [done|].
    constructor; [|done].
    cbn [Val.subscript]. by rewrite lookup_assign_eq.
Qed.
End FilterObjects.

(** ** A document that starts with a bracket is a list *)

Section Brackets.
Import Json.

(** The tokens read so far stay at the front of the result. *)
Lemma lex_step_out st out c st' out' :
  lex_step st out c = Some (st', out') -> exists more, out' = more ++ out.
Proof.
  assert (Hb : forall o, lex_between o c = Some (st', out') -> exists more, out' = more ++ o).
  { intros o. unfold lex_between.
    repeat match goal with
           | |- context [if ?b then _ else _] => destruct b
           end; intros [= <- <-] || done;
      first [by exists [] | by exists [TLBrace] | by exists [TRBrace] | by exists [TLBrack]
            | by exists [TRBrack] | by exists [TColon] | by exists [TComma]]. }
  destruct st as [|run|acc hi|acc hi|acc hi ds]; cbn [lex_step].
  - apply Hb.
  - destruct (is_atom_char c); [intros [= <- <-]; by exists []|].
    destruct (atom_value (reverse run)) as [v|]; [|done].
    intros H. apply Hb in H as [more ->]. exists (more ++ [TAtom v]).
    by rewrite <- app_assoc.
  - destruct (c =? 34); [intros [= <- <-]; by eexists [_]|].
    destruct (c =? 92); [intros [= <- <-]; by exists []|].
    destruct (c <? 32); [done|]. intros [= <- <-]. by exists [].
  - destruct (c =? 117); [intros [= <- <-]; by exists []|].
    destruct (simple_escape c); [|done]. intros [= <- <-]. by exists [].
  - destruct (hex_value c); [|done].
    destruct ds as [|d1 [|d2 [|d3 [|d4 ds]]]]; intros [= <- <-]; by exists [].
Qed.

Lemma lex_out st out s ts :
  lex st out s = Some ts -> exists more, ts = reverse out ++ more.
Proof.
  revert st out. induction s as [|c s IH]; intros st out; cbn [lex].
  - destruct st as [|run| | |]; cbn [lex_finish]; try done.
    + intros [= <-]. exists []. by rewrite app_nil_r.
    + destruct (atom_value (reverse run)) as [v|]; [|done]. intros [= <-].
      exists [TAtom v]. by rewrite reverse_cons.
  - destruct (lex_step st out c) as [[st' out']|] eqn:Hstep; [|done].
    intros H. apply IH in H as [more ->].
    apply lex_step_out in Hstep as [more' ->].
    rewrite reverse_app, <- app_assoc. eauto.
Qed.

Lemma bottom_is_list_cons f stk :
  stk <> [] -> bottom_is_list (f :: stk) -> bottom_is_list stk.
Proof.
  intros Hne (rest & items & H). destruct rest as [|f' rest]; cbn in H.
  - injection H as _ H. done.
  - injection H as _ ->. by exists rest, items.
Qed.

Lemma bottom_is_list_push f stk : bottom_is_list stk -> bottom_is_list (f :: stk).
Proof. intros (rest & items & ->). by exists (f :: rest), items. Qed.

Lemma bottom_is_list_top_dict d key stk :
  bottom_is_list (FDict d key :: stk) -> stk <> [].
Proof. intros (rest & items & H) ->. by destruct rest as [|? [|? ?]]. Qed.

Lemma bottom_is_list_replace f f' stk :
  stk <> [] -> bottom_is_list (f :: stk) -> bottom_is_list (f' :: stk).
Proof. intros Hne H. by apply bottom_is_list_push, (bottom_is_list_cons f). Qed.

Lemma deliver_list v stk st :
  bottom_is_list stk -> deliver v stk = Some st -> list_document st.
Proof.
  intros Hb. destruct stk as [|[items|d [k|]] rest]; cbn; try done.
  - destruct Hb as ([|? ?] & ? & ?); done.
  - intros [= <-]. cbn. destruct rest as [|f rest]; [by exists [], (v :: items)|].
    by apply (bottom_is_list_replace (FList items)).
  - intros [= <-]. cbn. apply (bottom_is_list_replace (FDict d (Some k))); [|done].
    by eapply bottom_is_list_top_dict.
Qed.

Lemma deliver_close v f rest st :
  bottom_is_list (f :: rest) -> (rest = [] -> exists items, v = PList items) ->
  deliver v rest = Some st -> list_document st.
Proof.
  intros Hb Hv. destruct rest as [|f' rest'].
  - cbn. intros [= <-]. by apply Hv.
  - apply deliver_list. by apply (bottom_is_list_cons f).
Qed.

Lemma start_value_list stk t st :
  bottom_is_list stk -> start_value stk t = Some st -> list_document st.
Proof.
  intros Hb. destruct t; cbn; try done.
  - intros [= <-]. by apply bottom_is_list_push.
  - intros [= <-]. by apply bottom_is_list_push.
  - by apply deliver_list.
  - by apply deliver_list.
Qed.

Lemma parse_step_list st t st' :
  list_document st -> parse_step st t = Some st' -> list_document st'.
Proof.
  destruct st as [stk|stk|stk|stk|stk|stk|v]; cbn [list_document parse_step]; intros Hb.
  - by apply start_value_list.
  - destruct t, stk as [|[items|d key] rest]; cbn -[start_value deliver];
      try (by apply start_value_list).
    apply (deliver_close _ (FList items)); eauto.
  - destruct t, stk as [|[items|d [k|]] rest]; cbn -[start_value deliver]; try done.
    + apply (deliver_close _ (FDict d None)); [done|].
      intros ->. by apply bottom_is_list_top_dict in Hb.
    + intros [= <-]. cbn. apply (bottom_is_list_replace (FDict d None)); [|done].
      by eapply bottom_is_list_top_dict.
  - destruct t, stk as [|[items|d [k|]] rest]; cbn -[start_value deliver]; try done.
    intros [= <-]. cbn. apply (bottom_is_list_replace (FDict d None)); [|done].
    by eapply bottom_is_list_top_dict.
  - destruct t; cbn; try done. by intros [= <-].
  - destruct t, stk as [|[items|d [k|]] rest]; cbn -[start_value deliver]; try done;
      try (by intros [= <-]).
    + apply (deliver_close _ (FDict d None)); [done|].
      intros ->. by apply bottom_is_list_top_dict in Hb.
    + apply (deliver_close _ (FList items)); eauto.
  - done.
Qed.

Lemma parse_list st ts v :
  list_document st -> parse st ts = Some v -> exists items, v = PList items.
Proof.
  revert st. induction ts as [|t ts IH]; intros st Hb; cbn [parse].
  - destruct st; try done. by intros [= <-].
  - destruct (parse_step st t) as [st'|] eqn:Hstep; [|done].
    apply IH. by eapply parse_step_list.
Qed.

(** [json.loads] of a text that starts with an opening bracket returns a
    list, so the third case of [load_text] never occurs. *)
Lemma json_loads_bracket s v :
  Py.startswith [91] s = true -> json_loads s = Some v -> exists items, v = PList items.
Proof.
  intros [r ->]%startswith_true. unfold json_loads, tokenize.
  change (lex LBetween [] ([91] ++ r)) with (lex LBetween [TLBrack] r).
  destruct (lex LBetween [TLBrack] r) as [ts|] eqn:Hlex; [|done].
  apply lex_out in Hlex as [more ->].
  change (reverse [TLBrack] ++ more) with (TLBrack :: more).
  change (parse (SValue []) (TLBrack :: more))
    with (parse (SValueOrClose [FList []]) more).
  apply parse_list. by exists [], [].
Qed.
End Brackets.

Lemma load_text_array text v :
  (if Py.startswith [91] (Py.strip text) then Json.json_loads (Py.strip text) else None)
  = Some v ->
  exists items, v = PList items.
Proof.
  destruct (Py.startswith [91] (Py.strip text)) eqn:E; [|done].
  by apply json_loads_bracket.
Qed.

(** ** What is written is read back

    The scripts persist their collections with [json.dump] and [json.dumps]
    and resume from them with [json.loads]. *)
Section RoundTrip.
Import Json.
Implicit Types (s rest : str) (c : N) (st : lexst) (out : list token) (v : pyval).

Lemma forallb_Forall {A} (f : A -> bool) (l : list A) :
  forallb f l = true <-> Forall (fun x => f x = true) l.
Proof.
  induction l as [|x l IH]; cbn; [by split|].
  rewrite andb_true_iff, Forall_cons, IH. done.
Qed.

Lemma plain_dict (d : dict) :
  plain (PDict d) = true ->
  NoDup d.*1 /\ Forall (fun kv => plain kv.2 = true) d.
Proof.
  cbn [plain]. intros [Hnd Hp]%andb_true_iff. apply bool_decide_eq_true in Hnd.
  split; [done|]. apply forallb_Forall in Hp. eapply Forall_impl; [exact Hp|].
  by intros kv [_ ?]%andb_true_iff.
Qed.

Lemma plain_dict_intro (d : dict) :
  NoDup d.*1 -> Forall (fun kv => encodable kv.1 = true) d ->
  Forall (fun kv => plain kv.2 = true) d ->
  plain (PDict d) = true.
Proof.
  intros Hnd Hk Hv. cbn [plain]. rewrite bool_decide_eq_true_2 by done.
  apply forallb_Forall, Forall_forall. intros kv Hin.
  rewrite Forall_forall in Hk, Hv. by rewrite (Hk kv Hin), (Hv kv Hin).
Qed.

Lemma lex_between_atom out c :
  is_atom_char c = true -> lex_between out c = Some (LAtom [c], out).
Proof.
  unfold lex_between, is_atom_char, is_digit, is_alpha, is_ws. intros H.
  tests_to_prop H.
  destruct H as [[[[H|[H|H]]|H]|H]|H]; decide_tests; done.
Qed.

(** A run of atom characters is read into the atom state. *)
Lemma lex_atom_run run a out rest :
  Forall (fun c => is_atom_char c = true) a ->
  lex (LAtom run) out (a ++ rest) = lex (LAtom (reverse a ++ run)) out rest.
Proof.
  intros Ha. revert run. induction Ha as [|c a Hc _ IH]; intros run; [done|].
  cbn [app lex lex_step]. rewrite Hc, IH. by rewrite reverse_cons, <- app_assoc.
Qed.

Lemma lex_atom_end run out rest v :
  atom_value (reverse run) = Some v -> delimited rest ->
  lex (LAtom run) out rest = lex LBetween (TAtom v :: out) rest.
Proof.
  intros Hv Hd. destruct rest as [|c r]; cbn [lex lex_finish lex_step].
  - by rewrite Hv.
  - cbn in Hd. by rewrite Hd, Hv.
Qed.

Lemma lex_atom a out rest v :
  a <> [] -> Forall (fun c => is_atom_char c = true) a ->
  atom_value a = Some v -> delimited rest ->
  lex LBetween out (a ++ rest) = lex LBetween (TAtom v :: out) rest.
Proof.
  intros Hne Ha Hv Hd. destruct a as [|c a]; [done|].
  apply Forall_cons in Ha as [Hc Ha].
  cbn [app lex lex_step]. rewrite lex_between_atom by done.
  rewrite lex_atom_run by done. apply lex_atom_end; [|done].
  by rewrite reverse_app, reverse_involutive.
Qed.

(** *** String literals *)

Lemma lex_escape_char c acc out rest :
  lex (LStr acc None) out (escape_char c ++ rest) = lex (LStr (c :: acc) None) out rest.
Proof.
  unfold escape_char.
  destruct (c =? 34) eqn:E34; [apply N.eqb_eq in E34 as ->; done|].
  destruct (c =? 92) eqn:E92; [apply N.eqb_eq in E92 as ->; done|].
  destruct (c =? 10) eqn:E10; [apply N.eqb_eq in E10 as ->; done|].
  destruct (c =? 13) eqn:E13; [apply N.eqb_eq in E13 as ->; done|].
  destruct (c =? 9) eqn:E9; [apply N.eqb_eq in E9 as ->; done|].
  destruct (c =? 8) eqn:E8; [apply N.eqb_eq in E8 as ->; done|].
  destruct (c =? 12) eqn:E12; [apply N.eqb_eq in E12 as ->; done|].
  destruct (c <? 32) eqn:E32.
  - apply N.ltb_lt in E32.
    assert (Hc : c ∈ (N.of_nat <$> seq 0 32)).
    { apply list_elem_of_fmap. exists (N.to_nat c). split; [lia|].
      apply elem_of_seq. lia. }
    cbn [fmap list_fmap seq] in Hc.
    repeat (apply elem_of_cons in Hc as [->|Hc]; [first [discriminate|reflexivity]|]).
    by apply elem_of_nil in Hc.
  - cbn [app lex lex_step]. by rewrite E34, E92, E32.
Qed.

Lemma lex_escaped s acc out rest :
  lex (LStr acc None) out (concat (escape_char <$> s) ++ rest)
  = lex (LStr (reverse s ++ acc) None) out rest.
Proof.
  revert acc. induction s as [|c s IH]; intros acc; [done|].
  cbn [fmap list_fmap concat]. rewrite <- app_assoc, lex_escape_char, IH.
  by rewrite reverse_cons, <- app_assoc.
Qed.

(** A quoted string is read back as the string. *)
Lemma lex_quote s out rest :
  lex LBetween out (quote s ++ rest) = lex LBetween (TString s :: out) rest.
Proof.
  unfold quote. cbn [app lex lex_step]. change (lex_between out 34) with (Some (LStr [] None, out)).
  cbn beta iota. rewrite <- app_assoc, lex_escaped. cbn [app lex lex_step push_hi].
  change (34 =? 34) with true. cbn beta iota.
  by rewrite app_nil_r, reverse_involutive.
Qed.

(** *** Integer literals *)

Lemma is_digit_cases c :
  is_digit c = true -> c ∈ [48; 49; 50; 51; 52; 53; 54; 55; 56; 57].
Proof.
  unfold is_digit. intros H. tests_to_prop H.
  assert (Hc : c ∈ (fun i => 48 + N.of_nat i) <$> seq 0 10).
  { apply list_elem_of_fmap. exists (N.to_nat (c - 48)). split; [lia|].
    apply elem_of_seq. lia. }
  exact Hc.
Qed.

Lemma digit_is_atom_char c : is_digit c = true -> is_atom_char c = true.
Proof. unfold is_atom_char. by intros ->. Qed.

Lemma span_digits_all ds :
  Forall (fun c => is_digit c = true) ds -> span_digits ds = (ds, []).
Proof. induction 1 as [|c ds Hc _ IH]; [done|]. cbn. by rewrite Hc, IH. Qed.

(** A digit string without a leading zero, with or without a sign, is an
    integer literal. *)
Lemma atom_value_digits (neg : bool) d r :
  is_digit d = true -> Forall (fun c => is_digit c = true) r ->
  (r = [] \/ d <> 48) ->
  atom_value ((if neg then [45] else []) ++ d :: r)
  = Some (PInt (if neg then - digits_value (d :: r) else digits_value (d :: r))%Z).
Proof.
  intros Hd Hr Hz.
  pose proof (span_digits_all (d :: r) (Forall_cons_2 _ _ _ Hd Hr)) as Hspan.
  apply is_digit_cases in Hd.
  unfold atom_value.
  repeat (rewrite bool_decide_eq_false_2;
          [|intros Heq; vm_compute in Heq; destruct neg;
            repeat (apply elem_of_cons in Hd as [->|Hd]; [discriminate Heq|]);
            by apply elem_of_nil in Hd]).
  cbn [orb]. unfold number_value.
  assert (Hsign : (match (if neg then [45] else []) ++ d :: r with
                   | 45 :: r0 => (true, r0)
                   | _ => (false, (if neg then [45] else []) ++ d :: r)
                   end) = (neg, d :: r)).
  { destruct neg; [done|].
    repeat (apply elem_of_cons in Hd as [->|Hd]; [done|]).
    by apply elem_of_nil in Hd. }
  rewrite Hsign, Hspan. cbn beta iota zeta.
  assert (Hok : (match d :: r with
                 | [] => false
                 | [_] => true
                 | c :: _ :: _ => negb (c =? 48)
                 end) = true).
  { destruct r; [done|]. destruct Hz as [|Hz]; [done|].
    by apply negb_true_iff, N.eqb_neq. }
  rewrite Hok. done.
Qed.

Lemma pretty_N_char_code d : d < 10 -> N_of_ascii (pretty_N_char d) = 48 + d.
Proof.
  intros Hd.
  assert (Hc : d ∈ (N.of_nat <$> seq 0 10)).
  { apply list_elem_of_fmap. exists (N.to_nat d). split; [lia|]. apply elem_of_seq. lia. }
  cbn [fmap list_fmap seq] in Hc.
  repeat (apply elem_of_cons in Hc as [->|Hc]; [done|]).
  by apply elem_of_nil in Hc.
Qed.

Lemma digits_value_snoc ds e :
  digits_value (ds ++ [e]) = (10 * digits_value ds + Z.of_N (e - 48))%Z.
Proof. unfold digits_value. by rewrite fold_left_app. Qed.

(** The digits the pretty printer puts before [s]. *)
Lemma lit_pretty_N_go (x : N) (t : string) :
  exists ds,
    Py.lit (pretty_N_go x t) = ds ++ Py.lit t
    /\ Forall (fun c => is_digit c = true) ds
    /\ (x = 0 -> ds = [])
    /\ (0 < x -> exists d r, ds = d :: r /\ d <> 48)
    /\ digits_value ds = Z.of_N x.
Proof.
  revert t. induction (N.lt_wf_0 x) as [x _ IH]; intros t.
  destruct (decide (x = 0)) as [->|Hx].
  - exists []. rewrite pretty_N_go_0. split; [done|]. split; [done|]. split; [done|].
    split; [intros; lia|done].
  - rewrite pretty_N_go_step by lia.
    assert (Hm : x `mod` 10 < 10) by (apply N.mod_lt; lia).
    assert (Hlt : x `div` 10 < x) by (apply N.div_lt; lia).
    pose proof (N.div_mod x 10 ltac:(lia)) as Hx10.
    revert Hm Hlt Hx10. generalize (x `div` 10), (x `mod` 10). intros q m Hm Hlt Hx10.
    destruct (IH q Hlt (String (pretty_N_char m) t))
      as (ds & Hlit & Hds & H0 & Hpos & Hval).
    exists (ds ++ [48 + m]). split; [|split; [|split; [|split]]].
    + rewrite Hlit. unfold Py.lit. cbn [list_ascii_of_string fmap list_fmap].
      rewrite pretty_N_char_code by done. by rewrite <- app_assoc.
    + apply Forall_app. split; [done|]. apply Forall_singleton.
      unfold is_digit. apply andb_true_iff. split; apply N.leb_le; lia.
    + done.
    + intros _. destruct (decide (q = 0)) as [Hq|Hq].
      * rewrite (H0 Hq). exists (48 + m), []. split; [done|]. lia.
      * destruct Hpos as (d & r & -> & Hd); [lia|].
        exists d, (r ++ [48 + m]). done.
    + rewrite digits_value_snoc, Hval. lia.
Qed.

Lemma lit_app (a b : string) : Py.lit (a +:+ b) = Py.lit a ++ Py.lit b.
Proof.
  unfold Py.lit. induction a as [|x a IH]; [done|]. cbn. by rewrite <- IH.
Qed.

(** The text of an integer is an integer literal with the same value. *)
Lemma atom_value_pretty (z : Z) :
  Py.lit (pretty z) <> []
  /\ Forall (fun c => is_atom_char c = true) (Py.lit (pretty z))
  /\ atom_value (Py.lit (pretty z)) = Some (PInt z).
Proof.
  assert (Hpos : forall p, exists d r,
             Py.lit (pretty (Npos p)) = d :: r
             /\ is_digit d = true /\ Forall (fun c => is_digit c = true) r
             /\ d <> 48 /\ digits_value (d :: r) = Z.pos p).
  { intros p. unfold pretty, pretty_N. rewrite decide_False by done.
    destruct (lit_pretty_N_go (Npos p) "") as (ds & Hlit & Hds & _ & Hp & Hval).
    destruct Hp as (d & r & -> & Hd); [lia|].
    apply Forall_cons in Hds as [? ?]. exists d, r.
    rewrite Hlit, app_nil_r. done. }
  destruct z as [|p|p].
  - change (Py.lit (pretty 0%Z)) with [48]. split; [done|]. split; [|done].
    by apply Forall_singleton.
  - destruct (Hpos p) as (d & r & Hlit & Hd & Hr & Hnz & Hval).
    change (pretty (Z.pos p)) with (pretty (Npos p)). rewrite Hlit.
    split; [done|]. split.
    + apply Forall_cons; split; [by apply digit_is_atom_char|].
      eapply Forall_impl; [exact Hr|]. apply digit_is_atom_char.
    + pose proof (atom_value_digits false d r Hd Hr (or_intror Hnz)) as Hv.
      cbn [app] in Hv. by rewrite Hv, Hval.
  - destruct (Hpos p) as (d & r & Hlit & Hd & Hr & Hnz & Hval).
    change (pretty (Z.neg p)) with ("-" +:+ pretty (Npos p))%string.
    rewrite lit_app, Hlit. change (Py.lit "-") with [45]. cbn [app].
    split; [done|]. split.
    + apply Forall_cons; split; [done|].
      apply Forall_cons; split; [by apply digit_is_atom_char|].
      eapply Forall_impl; [exact Hr|]. apply digit_is_atom_char.
    + pose proof (atom_value_digits true d r Hd Hr (or_intror Hnz)) as Hv.
      cbn [app] in Hv. cbn [app]. by rewrite Hv, Hval.
Qed.

(** *** The shape of the serialised text *)

Lemma dumps_list ind lvl x items :
  dumps ind lvl (PList (x :: items))
  = 91 :: newline_indent ind (S lvl)
    ++ join_with (item_separator ind (S lvl)) (dumps ind (S lvl) <$> (x :: items))
    ++ newline_indent ind lvl ++ [93].
Proof.
  cbn [dumps]. do 3 f_equal. revert x. induction items as [|y r IH]; intros x; [done|].
  cbn [fmap list_fmap join_with] in *. by rewrite <- IH.
Qed.

Lemma dumps_dict ind lvl kv d :
  dumps ind lvl (PDict (kv :: d))
  = 123 :: newline_indent ind (S lvl)
    ++ join_with (item_separator ind (S lvl))
         ((fun kv => quote kv.1 ++ [58; 32] ++ dumps ind (S lvl) kv.2) <$> (kv :: d))
    ++ newline_indent ind lvl ++ [125].
Proof.
  cbn [dumps]. do 3 f_equal. revert kv. induction d as [|[k' y] r IH]; intros [k x].
  - done.
  - specialize (IH (k', y)).
    cbn [fmap list_fmap join_with fst snd] in *. rewrite <- IH. by rewrite <- !app_assoc.
Qed.

(** *** The lexer on the serialised text *)

Lemma lex_ws w out rest :
  Forall (fun c => is_ws c = true) w ->
  lex LBetween out (w ++ rest) = lex LBetween out rest.
Proof.
  induction 1 as [|c w Hc _ IH]; [done|].
  cbn [app lex lex_step]. unfold lex_between. by rewrite Hc.
Qed.

Lemma newline_indent_ws ind lvl : Forall (fun c => is_ws c = true) (newline_indent ind lvl).
Proof.
  destruct ind as [n|]; [|done]. cbn. constructor; [done|].
  apply Forall_forall. by intros c ->%elem_of_replicate_inv.
Qed.

Lemma lex_newline_indent ind lvl out rest :
  lex LBetween out (newline_indent ind lvl ++ rest) = lex LBetween out rest.
Proof. apply lex_ws, newline_indent_ws. Qed.

Lemma lex_item_separator ind lvl out rest :
  lex LBetween out (item_separator ind lvl ++ rest) = lex LBetween (TComma :: out) rest.
Proof.
  destruct ind as [n|]; [|done].
  change (item_separator (Some n) lvl) with (44 :: newline_indent (Some n) lvl).
  cbn [app lex lex_step]. change (lex_between out 44) with (Some (LBetween, TComma :: out)).
  cbn beta iota. apply lex_newline_indent.
Qed.

Lemma lex_colon out rest :
  lex LBetween out ([58; 32] ++ rest) = lex LBetween (TColon :: out) rest.
Proof. done. Qed.

Lemma delimited_separator ind lvl rest : delimited (item_separator ind lvl ++ rest).
Proof. by destruct ind. Qed.

Lemma delimited_close ind lvl c rest :
  is_atom_char c = false -> delimited (newline_indent ind lvl ++ c :: rest).
Proof. by destruct ind. Qed.

(** The lexer reads the text of a plain value into its tokens. *)
Lemma lex_dumps v :
  plain v = true ->
  forall ind lvl out rest, delimited rest ->
    lex LBetween out (dumps ind lvl v ++ rest)
    = lex LBetween (reverse (tokens_of v) ++ out) rest.
Proof.
  induction v as [|b|z|l|s|items IH|d IH] using pyval_nested_ind;
    intros Hp ind lvl out rest Hd.
  - apply (lex_atom (Py.lit "null")); [done|vm_compute; by repeat constructor|done|done].
  - destruct b.
    + apply (lex_atom (Py.lit "true")); [done|vm_compute; by repeat constructor|done|done].
    + apply (lex_atom (Py.lit "false")); [done|vm_compute; by repeat constructor|done|done].
  - destruct (atom_value_pretty z) as (Hne & Hall & Hv). by apply lex_atom.
  - done.
  - apply lex_quote.
  - destruct items as [|x items]; [done|].
    rewrite dumps_list. cbn [tokens_of].
    rewrite reverse_cons, reverse_app, <- !app_assoc. cbn [reverse app].
    change ((91 :: ?a) ++ ?b) with (91 :: (a ++ b)).
    cbn [app lex lex_step]. change (lex_between out 91) with (Some (LBetween, TLBrack :: out)).
    cbn beta iota. rewrite <- !app_assoc, lex_newline_indent.
    cbn [plain] in Hp. apply forallb_Forall in Hp.
    assert (Hitems : forall l acc,
               l <> [] -> Forall (fun v => plain v = true) l ->
               Forall (fun v => plain v = true ->
                         forall ind lvl out rest, delimited rest ->
                           lex LBetween out (dumps ind lvl v ++ rest)
                           = lex LBetween (reverse (tokens_of v) ++ out) rest) l ->
               lex LBetween acc
                 (join_with (item_separator ind (S lvl)) (dumps ind (S lvl) <$> l)
                  ++ newline_indent ind lvl ++ [93] ++ rest)
               = lex LBetween (reverse (join_with [TComma] (tokens_of <$> l)) ++ acc)
                   (newline_indent ind lvl ++ [93] ++ rest)).
    { clear. induction l as [|y [|y' r] IHl]; intros acc Hne Hpl Hall; [done| |].
      - cbn [fmap list_fmap join_with].
        apply Forall_cons in Hpl as [Hpl _]. apply Forall_cons in Hall as [Hall _].
        apply Hall; [done|].
        by apply delimited_close.
      - apply Forall_cons in Hpl as [Hy Hpl]. apply Forall_cons in Hall as [Hally Hall].
        change (join_with ?sep (?f <$> y :: y' :: r))
          with (f y ++ sep ++ join_with sep (f <$> y' :: r)).
        rewrite <- !app_assoc. rewrite Hally by (done || apply delimited_separator).
        rewrite lex_item_separator. rewrite IHl by done.
        f_equal. rewrite !reverse_app. cbn [reverse]. by rewrite <- !app_assoc. }
    rewrite Hitems; [|done|done|done].
    rewrite lex_newline_indent. reflexivity.
  - destruct d as [|kv d]; [done|].
    rewrite dumps_dict. cbn [tokens_of].
    rewrite reverse_cons, reverse_app, <- !app_assoc. cbn [reverse app].
    change ((123 :: ?a) ++ ?b) with (123 :: (a ++ b)).
    cbn [app lex lex_step]. change (lex_between out 123) with (Some (LBetween, TLBrace :: out)).
    cbn beta iota. rewrite <- !app_assoc, lex_newline_indent.
    apply plain_dict in Hp as [_ Hp].
    assert (Hitems : forall l acc,
               l <> [] -> Forall (fun kv => plain kv.2 = true) l ->
               Forall (fun kv => plain kv.2 = true ->
                         forall ind lvl out rest, delimited rest ->
                           lex LBetween out (dumps ind lvl kv.2 ++ rest)
                           = lex LBetween (reverse (tokens_of kv.2) ++ out) rest) l ->
               lex LBetween acc
                 (join_with (item_separator ind (S lvl))
                    ((fun kv => quote kv.1 ++ [58; 32] ++ dumps ind (S lvl) kv.2) <$> l)
                  ++ newline_indent ind lvl ++ [125] ++ rest)
               = lex LBetween
                   (reverse (join_with [TComma]
                               ((fun kv => TString kv.1 :: TColon :: tokens_of kv.2) <$> l))
                    ++ acc)
                   (newline_indent ind lvl ++ [125] ++ rest)).
    { clear. induction l as [|[k y] [|y' r] IHl]; intros acc Hne Hpl Hall; [done| |].
      - cbn [fmap list_fmap join_with fst snd].
        apply Forall_cons in Hpl as [Hpl _]. apply Forall_cons in Hall as [Hall _].
        cbn [snd] in Hpl, Hall.
        rewrite <- !app_assoc, lex_quote, lex_colon.
        rewrite Hall by (done || by apply delimited_close).
        f_equal. rewrite !reverse_cons. by rewrite <- !app_assoc.
      - apply Forall_cons in Hpl as [Hy Hpl]. apply Forall_cons in Hall as [Hally Hall].
        cbn [snd] in Hy, Hally.
        change (join_with ?sep (?f <$> (k, y) :: y' :: r))
          with (f (k, y) ++ sep ++ join_with sep (f <$> y' :: r)).
        cbn beta. cbn [fst snd].
        rewrite <- !app_assoc, lex_quote, lex_colon.
        rewrite Hally by (done || apply delimited_separator).
        rewrite lex_item_separator. rewrite IHl by done.
        f_equal. rewrite !reverse_app, !reverse_cons. cbn [reverse].
        by rewrite <- !app_assoc. }
    rewrite Hitems; [|done|done|done].
    rewrite lex_newline_indent. reflexivity.
Qed.

(** *** The parser on the tokens of a value *)

Lemma assign_fresh k v (d : dict) :
  k ∉ d.*1 -> Val.assign k v d = d ++ [(k, v)].
Proof.
  induction d as [|[k' v'] d IH]; intros Hk; [done|].
  cbn in *. apply not_elem_of_cons in Hk as [Hne Hk].
  unfold Val.str_eqb. rewrite bool_decide_eq_false_2 by done. by rewrite IH.
Qed.

(** The first token of a value does not close a container. *)
Lemma tokens_of_head v :
  exists t r, tokens_of v = t :: r /\ t <> TRBrack /\ t <> TRBrace.
Proof. destruct v; cbn; eauto. Qed.

Lemma parse_value_or_close v stk ts :
  parse (SValueOrClose stk) (tokens_of v ++ ts) = parse (SValue stk) (tokens_of v ++ ts).
Proof.
  destruct (tokens_of_head v) as (t & r & -> & Ht & _).
  cbn [app parse parse_step]. by destruct t, stk as [|[]].
Qed.

(** A value's tokens are consumed and the value goes into the innermost
    open container. *)
Lemma parse_tokens v :
  plain v = true ->
  forall stk ts,
    parse (SValue stk) (tokens_of v ++ ts)
    = match deliver v stk with
      | Some st => parse st ts
      | None => None
      end.
Proof.
  induction v as [|b|z|l|s|items IH|d IH] using pyval_nested_ind; intros Hp stk ts;
    try done.
  - (* list *)
    cbn [tokens_of app parse parse_step start_value].
    destruct items as [|x items].
    { cbn. by destruct stk as [|[]]. }
    cbn [plain] in Hp. apply forallb_Forall in Hp.
    assert (Hitems : forall l acc,
               l <> [] -> Forall (fun v => plain v = true) l ->
               Forall (fun v => plain v = true -> forall stk ts,
                         parse (SValue stk) (tokens_of v ++ ts)
                         = match deliver v stk with
                           | Some st => parse st ts
                           | None => None
                           end) l ->
               parse (SValue (FList acc :: stk))
                 (join_with [TComma] (tokens_of <$> l) ++ TRBrack :: ts)
               = match deliver (PList (reverse acc ++ l)) stk with
                 | Some st => parse st ts
                 | None => None
                 end).
    { clear. induction l as [|y [|y' r] IHl]; intros acc Hne Hpl Hall; [done| |].
      - cbn [fmap list_fmap join_with].
        apply Forall_cons in Hpl as [Hpl _]. apply Forall_cons in Hall as [Hall _].
        rewrite Hall by done. cbn [deliver parse parse_step].
        by rewrite reverse_cons.
      - apply Forall_cons in Hpl as [Hy Hpl]. apply Forall_cons in Hall as [Hally Hall].
        change (join_with ?sep (?f <$> y :: y' :: r))
          with (f y ++ sep ++ join_with sep (f <$> y' :: r)).
        rewrite <- !app_assoc. rewrite Hally by done. cbn [deliver app parse parse_step].
        rewrite IHl by done. by rewrite reverse_cons, <- app_assoc. }
    rewrite <- app_assoc. cbn [app].
    etrans; [|exact (Hitems (x :: items) [] ltac:(done) Hp IH)].
    destruct (tokens_of_head x) as (t & r & Hx & Ht & _).
    destruct items as [|x' items]; cbn [fmap list_fmap join_with]; rewrite Hx;
      cbn [app parse parse_step]; by destruct t.
  - (* dict *)
    cbn [tokens_of app parse parse_step start_value].
    destruct d as [|kv d].
    { cbn. by destruct stk as [|[]]. }
    apply plain_dict in Hp as [Hnd Hp].
    assert (Hitems : forall l acc (first : bool),
               l <> [] -> NoDup (acc.*1 ++ l.*1) ->
               Forall (fun kv => plain kv.2 = true) l ->
               Forall (fun kv => plain kv.2 = true -> forall stk ts,
                         parse (SValue stk) (tokens_of kv.2 ++ ts)
                         = match deliver kv.2 stk with
                           | Some st => parse st ts
                           | None => None
                           end) l ->
               parse ((if first then SKeyOrClose else SKey) (FDict acc None :: stk))
                 (join_with [TComma]
                    ((fun kv => TString kv.1 :: TColon :: tokens_of kv.2) <$> l)
                  ++ TRBrace :: ts)
               = match deliver (PDict (acc ++ l)) stk with
                 | Some st => parse st ts
                 | None => None
                 end).
    { clear. induction l as [|[k y] [|y' r] IHl]; intros acc first Hne Hnd Hpl Hall; [done| |].
      - cbn [fmap list_fmap join_with fst snd].
        apply Forall_cons in Hpl as [Hpl _]. apply Forall_cons in Hall as [Hall _].
        cbn [snd] in Hpl, Hall.
        assert (Hk : k ∉ acc.*1).
        { apply NoDup_app in Hnd as (_ & Hnd & _). intros Hin. apply (Hnd k Hin).
          cbn. apply list_elem_of_here. }
        destruct first; cbn [app parse parse_step]; rewrite Hall by done;
          cbn [deliver parse parse_step]; by rewrite assign_fresh.
      - apply Forall_cons in Hpl as [Hy Hpl]. apply Forall_cons in Hall as [Hally Hall].
        cbn [snd] in Hy, Hally.
        change (join_with ?sep (?f <$> (k, y) :: y' :: r))
          with (f (k, y) ++ sep ++ join_with sep (f <$> y' :: r)).
        cbn beta. cbn [fst snd].
        assert (Hk : k ∉ acc.*1).
        { apply NoDup_app in Hnd as (_ & Hnd & _). intros Hin. apply (Hnd k Hin).
          cbn. apply list_elem_of_here. }
        assert (Hnd' : NoDup ((acc ++ [(k, y)]).*1 ++ (y' :: r).*1)).
        { rewrite fmap_app, <- app_assoc. exact Hnd. }
        destruct first; cbn [app parse parse_step]; rewrite <- !app_assoc;
          rewrite Hally by done; cbn [deliver app parse parse_step];
          rewrite assign_fresh by done;
          rewrite (IHl _ false) by done; by rewrite <- app_assoc. }
    rewrite <- app_assoc. cbn [app].
    by rewrite (Hitems (kv :: d) [] true).
Qed.

(** What [json.dump] or [json.dumps] writes for a plain value,
    [json.loads] reads back as the value. *)
Lemma json_loads_dumps ind lvl v :
  plain v = true -> json_loads (dumps ind lvl v) = Some v.
Proof.
  intros Hp. unfold json_loads, tokenize.
  rewrite <- (app_nil_r (dumps ind lvl v)), lex_dumps by done.
  cbn [lex lex_finish]. rewrite app_nil_r, reverse_involutive.
  rewrite <- (app_nil_r (tokens_of v)), parse_tokens by done. done.
Qed.

(** The same with white space after the text, as on a line of a file. *)
Lemma json_loads_dumps_line ind lvl v :
  plain v = true -> json_loads (dumps ind lvl v ++ [10]) = Some v.
Proof.
  intros Hp. unfold json_loads, tokenize. rewrite lex_dumps by done.
  cbn [lex lex_step lex_finish]. change (lex_between ?o 10) with (Some (LBetween, o)).
  cbn beta iota. cbn [lex lex_finish]. rewrite app_nil_r, reverse_involutive.
  rewrite <- (app_nil_r (tokens_of v)), parse_tokens by done. done.
Qed.
End RoundTrip.

(** X1: a plain value (no fractional number, no surrogate code point in a
    string or key, no object that repeats a key) is read back unchanged by
    [json.loads] from the text that
    [json.dumps(v, ensure_ascii=False)] returns for it and from the text
    that [json.dump(v, f, ensure_ascii=False, indent=2)] writes for it. *)
Theorem json_round_trip (v : pyval) :
  plain v = true ->
  Json.json_loads (Json.json_dumps v) = Some v
  /\ Json.json_loads (Json.json_dump_indent2 v) = Some v.
Proof. intros Hp. split; by apply json_loads_dumps. Qed.

Lemma json_round_trip_witness :
  let v := PDict [(Py.lit "post_id", PStr (Py.qlit "p'1"));
                  (Py.lit "rounds", PInt (-20));
                  (Py.lit "info_by_round", PList [PStr [10; 233]; PNone; PBool true])] in
  Json.json_loads (Json.json_dumps v) = Some v
  /\ Json.json_loads (Json.json_dump_indent2 v) = Some v.
Proof. intros v. apply (json_round_trip v). reflexivity. Defined.

(** ** Stage 2: what a run persists and what the next run loads *)

Section Persist.
Import Agent2.

Lemma strip_fixed a m b :
  Py.isspace a = false -> Py.isspace b = false ->
  Py.strip (a :: m ++ [b]) = a :: m ++ [b].
Proof.
  intros Ha Hb. unfold Py.strip, Py.rstrip. cbn [Py.lstrip]. rewrite Ha.
  rewrite app_comm_cons, reverse_app, reverse_singleton.
  change ([b] ++ ?x) with (b :: x). cbn [Py.lstrip]. rewrite Hb.
  by rewrite reverse_cons, reverse_involutive.
Qed.

Lemma dumps_list_ends ind lvl items :
  exists m, Json.dumps ind lvl (PList items) = 91 :: m ++ [93].
Proof.
  destruct items as [|x items]; [by exists []|].
  rewrite dumps_list. eexists. rewrite !app_assoc. reflexivity.
Qed.

(** A complete dump of plain, identified records is loaded by the first
    branch of [load_processed_records]. *)
Lemma load_text_dump records ids :
  plain (PList records) = true ->
  post_id_set records [] = Returned ids ->
  load_text (Json.json_dump_indent2 (PList records)) = (records, ids).
Proof.
  intros Hp Hids. unfold load_text.
  destruct (dumps_list_ends (Some 2%nat) 0 records) as [m Hm].
  unfold Json.json_dump_indent2 in *. 
  assert (Hs : Py.strip (Json.dumps (Some 2%nat) 0 (PList records))
               = Json.dumps (Some 2%nat) 0 (PList records)).
  { rewrite Hm. by apply strip_fixed. }
  rewrite Hs. rewrite Hm at 1. cbn [Py.startswith]. change (91 =? 91) with true.
  cbn [andb]. rewrite json_loads_dumps by done. by rewrite Hids.
Qed.

Lemma save_then_load fs output_path records ids :
  plain (PList records) = true ->
  post_id_set records [] = Returned ids ->
  load_processed_records (Fs.run fs (save_progress fs output_path records)) output_path
  = (records, ids).
Proof.
  intros Hp Hids.
  destruct (save_progress_done fs output_path records) as [Hout Htemp].
  rewrite load_without_temp by exact Htemp. rewrite Hout.
  by apply load_text_dump.
Qed.

(** [save_progress] writes to its destination and to the temporary file
    beside it, and to no other file. *)
Lemma save_progress_other fs output_path records p :
  p <> output_path -> p <> temp_of output_path ->
  Fs.run fs (save_progress fs output_path records) !! p = fs !! p.
Proof.
  intros Hp Ht. rewrite save_progress_ops, run_app. unfold flush_writes.
  rewrite run_write_ops. unfold flush_swap.
  assert (Hswap : forall d, Fs.run d [Fs.Rename (temp_of output_path) output_path] !! p
                            = d !! p).
  { intros d. cbn. destruct (d !! temp_of output_path); [|done].
    by rewrite lookup_insert_ne, lookup_delete_ne. }
  case_bool_decide.
  - change ([Fs.Remove output_path] ++ ?l) with (Fs.Remove output_path :: l).
    change (Fs.run ?d (Fs.Remove output_path :: ?l)) with (Fs.run (delete output_path d) l).
    by rewrite Hswap, lookup_delete_ne, lookup_insert_ne.
  - cbn [app]. by rewrite Hswap, lookup_insert_ne.
Qed.

Lemma batch_loop_disk gw existing bs st p :
  p <> TEMP_OUTPUT_PATH -> p <> temp_of TEMP_OUTPUT_PATH ->
  disk (batch_loop gw existing bs st) !! p = disk st !! p.
Proof.
  intros Hp Ht. revert st. induction bs as [|batch rest IH]; intros st; [done|].
  cbn [batch_loop]. destruct (pool_map gw batch) as [[rs|e] log]; [|done].
  rewrite IH. cbn [disk]. by apply save_progress_other.
Qed.

(** The disk a run of [main] leaves behind. *)
Lemma main_final_disk fs gw r :
  main fs gw = Returned r ->
  (pending r = [] /\ new_results r = [] /\ final_disk r = fs)
  \/ (pending r <> []
      /\ exists d,
           final_disk r
           = Fs.run d (save_progress d OUTPUT_PATH
                         ((load_processed_records fs OUTPUT_PATH).1 ++ new_results r))
           /\ forall p, p <> TEMP_OUTPUT_PATH -> p <> temp_of TEMP_OUTPUT_PATH ->
                        d !! p = fs !! p).
Proof.
  unfold main. destruct (load_processed_records fs OUTPUT_PATH) as [existing ids].
  destruct (fs !! INPUT_PATH) as [text|]; [|done].
  destruct (records_to_process _ _) as [todo|]; [|done].
  cbn [mbind outcome_bind]. destruct todo as [|rec todo]; intros [= <-].
  - by left.
  - right. split; [done|]. cbn [final_disk new_results fst].
    eexists. split; [reflexivity|]. intros p Hp Ht.
    by rewrite batch_loop_disk.
Qed.


End Persist.

Section ResultShape.
Import Agent2.

Lemma attempt_shape post_id response v :
  attempt post_id response = Returned v ->
  exists c, v = PDict [(Py.lit "post_id", post_id); (Py.lit "conversation", c)].
Proof.
  unfold attempt. destruct response as [content|]; [|done]. cbn [mbind outcome_bind].
  destruct (parse_content content) as [conv|]; [|done].
  destruct (Val.subscript conv _) as [c|]; [|done]. intros [= <-]. by exists c.
Qed.

Lemma process_record_shape g record result n :
  process_record g record = (Returned (Some result), n) -> result_of record result.
Proof.
  unfold process_record, result_of. fold (identifier record).
  destruct (identifier record) as [pid|]; [|done].
  destruct (Val.subscript record _) as [info|]; [|done].
  destruct (inference_generate_conversation g pid info 0) as [[v|e] m] eqn:E; [|done].
  intros [= <- _]. exists pid.
  destruct (Val.has_len info) eqn:Hlen.
  - destruct (inference_from g pid info 0 Hlen ltac:(lia)) as (_ & _ & Hok & _).
    cbv zeta in Hok. rewrite E in Hok.
    destruct (attempt_shape _ _ _ (Hok v eq_refl)) as [c ->]. by exists c.
  - rewrite inference_no_len in E by done. discriminate.
Qed.

Lemma pool_map_shape gw batch rs log :
  pool_map gw batch = (Returned rs, log) ->
  Forall (fun res => exists rec, rec ∈ batch.*2 /\ result_of rec res) (omap id rs).
Proof.
  revert rs log. induction batch as [|[j record] rest IH]; intros rs log.
  - cbn. intros [= <- _]. constructor.
  - cbn [pool_map].
    destruct (process_record (gw j) record) as [[[result|]|e] n] eqn:Hp;
      destruct (pool_map gw rest) as [[rs'|e'] log'] eqn:Hr; cbn; try done.
    + intros [= <- _]. cbn. constructor.
      * exists record. split; [apply list_elem_of_here|by eapply process_record_shape].
      * eapply Forall_impl; [by eapply IH|]. intros res (rec & Hin & Hres).
        exists rec. split; [by apply list_elem_of_further|done].
    + intros [= <- _]. cbn.
      eapply Forall_impl; [by eapply IH|]. intros res (rec & Hin & Hres).
      exists rec. split; [by apply list_elem_of_further|done].
Qed.

Lemma batch_loop_shape gw existing bs st :
  Forall (fun res => exists rec, rec ∈ (concat bs).*2 /\ result_of rec res)
    (drop (length (results st)) (results (batch_loop gw existing bs st))).
Proof.
  revert st. induction bs as [|batch rest IH]; intros st.
  - cbn [batch_loop]. rewrite drop_all. constructor.
  - cbn [batch_loop concat].
    destruct (pool_map gw batch) as [[rs|e] log] eqn:Hp.
    + match goal with |- context [batch_loop gw existing rest ?s] => set (st1 := s) end.
      specialize (IH st1).
      destruct (batch_loop_results gw existing rest st1) as [(more & Hres & _) _].
      cbv zeta in Hres. rewrite Hres in IH |- *. subst st1. cbn [results] in *.
      rewrite drop_app_length in IH. rewrite <- app_assoc, drop_app_length.
      apply Forall_app. split.
      * eapply Forall_impl; [by eapply pool_map_shape|]. intros res (rec & Hin & Hr).
        exists rec. split; [|done]. rewrite fmap_app. apply elem_of_app. by left.
      * eapply Forall_impl; [exact IH|]. intros res (rec & Hin & Hr).
        exists rec. split; [|done]. rewrite fmap_app. apply elem_of_app. by right.
    + cbn [results]. rewrite drop_all. constructor.
Qed.
End ResultShape.

(** ** Stage 2: batches and progress *)

Section Batches.
Import Agent2.
Context {A : Type}.
Implicit Types (l cur : list A) (n room i : nat).

Lemma batches_from_slice n room cur l :
  (0 < room)%nat -> (length cur + room = n)%nat ->
  batches_from n room cur l
  = match reverse cur ++ l with
    | [] => []
    | _ => take n (reverse cur ++ l) :: batches_from n n [] (drop n (reverse cur ++ l))
    end.
Proof.
  revert room cur. induction l as [|x l IH]; intros room cur Hroom Hlen.
  - cbn [batches_from]. rewrite app_nil_r. destruct cur as [|c cur]; [done|].
    destruct (reverse (c :: cur)) as [|y r] eqn:Hr.
    { apply (f_equal length) in Hr. rewrite length_reverse in Hr. done. }
    rewrite <- Hr. rewrite take_ge, drop_ge by (rewrite length_reverse; lia). done.
  - cbn [batches_from].
    assert (Hne : reverse cur ++ x :: l <> []) by (by destruct (reverse cur)).
    destruct (reverse cur ++ x :: l) as [|y r] eqn:Hr; [done|]. rewrite <- Hr. clear y r Hr Hne.
    destruct room as [|[|room]]; [lia| |].
    + replace (reverse cur ++ x :: l) with (reverse (x :: cur) ++ l)
        by (by rewrite reverse_cons, <- app_assoc).
      rewrite take_app_length', drop_app_length' by (rewrite length_reverse; cbn; lia).
      done.
    + rewrite IH by (cbn; lia).
      replace (reverse (x :: cur) ++ l) with (reverse cur ++ x :: l)
        by (by rewrite reverse_cons, <- app_assoc).
      by destruct (reverse cur ++ x :: l) eqn:E; [destruct (reverse cur)|].
Qed.

Lemma batches_unfold n l :
  (0 < n)%nat ->
  batches n l = match l with
                | [] => []
                | _ => take n l :: batches n (drop n l)
                end.
Proof. intros Hn. unfold batches. by rewrite batches_from_slice by (cbn; lia). Qed.

Lemma batches_lookup n l i :
  (0 < n)%nat ->
  batches n l !! i
  = if decide (i * n < length l)%nat then Some (take n (drop (i * n) l)) else None.
Proof.
  intros Hn. revert l. induction i as [|i IH]; intros l.
  - rewrite batches_unfold by done. destruct l as [|x l]; [done|].
    cbn [lookup list_lookup Nat.mul drop]. rewrite decide_True by (cbn; lia). done.
  - rewrite batches_unfold by done. destruct l as [|x l].
    { cbn. by rewrite decide_False by lia. }
    cbn [lookup list_lookup]. rewrite IH, drop_drop, length_drop.
    replace (n + i * n)%nat with (S i * n)%nat by lia.
    destruct (decide (i * n < _)%nat), (decide (S i * n < _)%nat); try done; lia.
Qed.
End Batches.

Section Progress.
Import Agent2.

Lemma update_progress_from_counts (statuses : list Z) later st :
  update_progress_from ((Some <$> statuses) ++ None :: later) st
  = Some {| success_count :=
              success_count st + length (filter (fun z => z = 1%Z) statuses);
            fail_count :=
              fail_count st + length (filter (fun z => z <> 1%Z) statuses);
            advanced := advanced st + length statuses |}.
Proof.
  revert st. induction statuses as [|z statuses IH]; intros st.
  - cbn [fmap list_fmap app update_progress_from]. rewrite !filter_nil. cbn [length].
    destruct st. cbn. f_equal. f_equal; lia.
  - cbn [fmap list_fmap app update_progress_from]. rewrite IH.
    rewrite !filter_cons. destruct (Z.eqb_spec z 1) as [->|Hz].
    + rewrite decide_True, decide_False by auto. cbn. f_equal. f_equal; lia.
    + rewrite decide_False, decide_True by auto. cbn. f_equal. f_equal; lia.
Qed.

Lemma reported_counts (rs : list (option pyval)) :
  length (filter (fun z => z = 1%Z) (reported <$> rs)) = length (omap id rs)
  /\ length (filter (fun z => z <> 1%Z) (reported <$> rs))
     = (length rs - length (omap id rs))%nat
  /\ (length (omap id rs) <= length rs)%nat.
Proof.
  induction rs as [|[v|] rs (IH1 & IH2 & IH3)]; [by repeat split| |].
  - change (reported <$> Some v :: rs) with (1%Z :: (reported <$> rs)).
    change (omap id (Some v :: rs)) with (v :: omap id rs).
    rewrite filter_cons_True, filter_cons_False by auto. cbn [length].
    rewrite IH1, IH2. lia.
  - change (reported <$> None :: rs) with (0%Z :: (reported <$> rs)).
    change (omap id (None :: rs)) with (omap id rs).
    rewrite filter_cons_False, filter_cons_True by done. cbn [length].
    rewrite IH1, IH2. lia.
Qed.
End Progress.

(** X2: when [save_progress] has completed for a collection of plain
    records, each with an identifier that can be hashed,
    [load_processed_records] on the same path returns that collection and
    the set of its identifiers. *)
Theorem save_progress_then_load
    (fs : gmap string str) (output_path : string) (records ids : list pyval) :
  plain (PList records) = true ->
  Agent2.post_id_set records [] = Returned ids ->
  Agent2.load_processed_records
    (Fs.run fs (Agent2.save_progress fs output_path records)) output_path
  = (records, ids).
Proof. apply save_then_load. Qed.

Lemma save_progress_then_load_witness :
  let records := [PDict [(Py.lit "post_id", PStr (Py.lit "p1"));
                         (Py.lit "conversation", PList [])]] in
  Agent2.load_processed_records
    (Fs.run disk_with_artifact
       (Agent2.save_progress disk_with_artifact Agent2.OUTPUT_PATH records))
    Agent2.OUTPUT_PATH
  = (records, [PStr (Py.lit "p1")]).
Proof. intros records. apply save_progress_then_load; reflexivity. Defined.



(** X4: a run of stage 2 that returns leaves every file other than the
    output file, the checkpoint file and the checkpoint's temporary file as
    it was, the input file among them; with nothing pending it writes
    nothing at all; otherwise, the loaded records and the new results being
    plain (so that the file takes their text), the output file ends up
    holding the loaded records followed by the new results and the
    checkpoint file is gone. *)
Theorem stage2_disk_footprint (fs : gmap string str) gw r :
  Agent2.main fs gw = Returned r ->
  (forall p, p <> Agent2.OUTPUT_PATH -> p <> Agent2.TEMP_OUTPUT_PATH ->
             p <> Agent2.TEMP_OUTPUT_PATH +:+ ".temp" ->
             Agent2.final_disk r !! p = fs !! p)
  /\ Agent2.final_disk r !! Agent2.INPUT_PATH = fs !! Agent2.INPUT_PATH
  /\ (Agent2.pending r = [] -> Agent2.final_disk r = fs)
  /\ (Agent2.pending r <> [] ->
      plain (PList ((Agent2.load_processed_records fs Agent2.OUTPUT_PATH).1
                    ++ Agent2.new_results r)) = true ->
      Agent2.final_disk r !! Agent2.OUTPUT_PATH
      = Some (Json.json_dump_indent2
                (PList ((Agent2.load_processed_records fs Agent2.OUTPUT_PATH).1
                        ++ Agent2.new_results r)))
      /\ Agent2.final_disk r !! Agent2.TEMP_OUTPUT_PATH = None).
Proof.
  intros Hmain.
  assert (Hother : forall p, p <> Agent2.OUTPUT_PATH -> p <> Agent2.TEMP_OUTPUT_PATH ->
             p <> Agent2.TEMP_OUTPUT_PATH +:+ ".temp" ->
             Agent2.final_disk r !! p = fs !! p).
  { intros p Ho Ht Htt.
    destruct (main_final_disk fs gw r Hmain) as [(_ & _ & ->)|(_ & d & -> & Hd)]; [done|].
    rewrite save_progress_other by done. by apply Hd. }
  split; [exact Hother|]. split; [by apply Hother|]. split.
  - intros Hp. by destruct (main_final_disk fs gw r Hmain) as [(_ & _ & ->)|(? & _)].
  - intros Hp _. destruct (main_final_disk fs gw r Hmain) as [(? & _)|(_ & d & -> & _)]; [done|].
    apply save_progress_done.
Qed.

Lemma stage2_disk_footprint_witness :
  match Agent2.main resumed_disk always_answers with
  | Returned r =>
      Agent2.final_disk r !! Agent2.INPUT_PATH = resumed_disk !! Agent2.INPUT_PATH
  | Raised _ => False
  end.
Proof.
  assert (H : returns (Agent2.main resumed_disk always_answers) = true)
    by (vm_compute; reflexivity).
  destruct (Agent2.main resumed_disk always_answers) as [r|e] eqn:E; [|discriminate].
  exact (proj1 (proj2 (stage2_disk_footprint resumed_disk always_answers r E))).
Defined.

(** X5: every new result of a run of stage 2 is the two-field object built
    for one of the pending records, with that record's identifier; the
    results follow the order of the pending records, and there are no more
    results than pending records. *)
Theorem stage2_results_of_pending (fs : gmap string str) gw r :
  Agent2.main fs gw = Returned r ->
  Forall (fun res => exists rec, rec ∈ Agent2.pending r /\ result_of rec res)
    (Agent2.new_results r)
  /\ identifier <$> Agent2.new_results r `sublist_of` identifier <$> Agent2.pending r
  /\ (length (Agent2.new_results r) <= length (Agent2.pending r))%nat.
Proof.
  intros Hmain. destruct (main_flushes_shape fs gw r Hmain) as [Hsub _].
  split; [|split; [done|]].
  - destruct (main_returned gw fs r Hmain) as (text & _ & _ & Hrun). cbv zeta in Hrun.
    destruct Hrun as [(_ & _ & _ & ->)|(_ & -> & _)]; [constructor|].
    match goal with |- context [Agent2.batch_loop gw ?e ?b ?s] =>
      pose proof (batch_loop_shape gw e b s) as H end.
    cbn [Agent2.results length drop] in H.
    by rewrite batches_concat, snd_zip in H by (rewrite length_seq; lia).
  - apply sublist_length in Hsub. by rewrite !length_fmap in Hsub.
Qed.

Lemma stage2_results_of_pending_witness :
  match Agent2.main resumed_disk always_answers with
  | Returned r => (length (Agent2.new_results r) <= length (Agent2.pending r))%nat
  | Raised _ => False
  end.
Proof.
  assert (H : returns (Agent2.main resumed_disk always_answers) = true)
    by (vm_compute; reflexivity).
  destruct (Agent2.main resumed_disk always_answers) as [r|e] eqn:E; [|discriminate].
  exact (proj2 (proj2 (stage2_results_of_pending resumed_disk always_answers r E))).
Defined.

(** X6: for a positive batch size [n], the batches of stage 2 are the
    slices [l[i*n : i*n + n]] for [i*n < len(l)], in order, and there are
    no others; put end to end they give the list back. *)
Theorem batches_are_slices {A : Type} (n : nat) (l : list A) :
  (0 < n)%nat ->
  (forall i, (i * n < length l)%nat ->
             Agent2.batches n l !! i = Some (take n (drop (i * n) l)))
  /\ (forall i, (length l <= i * n)%nat -> Agent2.batches n l !! i = None)
  /\ concat (Agent2.batches n l) = l.
Proof.
  intros Hn. split; [|split].
  - intros i Hi. rewrite batches_lookup by done. by rewrite decide_True.
  - intros i Hi. rewrite batches_lookup by done. by rewrite decide_False by lia.
  - apply batches_concat.
Qed.

Lemma batches_are_slices_witness :
  Agent2.batches Agent2.BATCH_SIZE (seq 0 60) !! 2%nat
  = Some (take Agent2.BATCH_SIZE (drop (2 * Agent2.BATCH_SIZE) (seq 0 60))).
Proof.
  apply (proj1 (batches_are_slices Agent2.BATCH_SIZE (seq 0 60) ltac:(unfold Agent2.BATCH_SIZE; lia))).
  vm_compute. lia.
Defined.

(** X7: when the queue delivers the statuses that [process_record] put for
    a list of results, in any order, and then the sentinel, the progress
    loop ends with the number of results as its success count, the number
    of failure markers as its fail count, and the bar advanced once per
    record; what the queue holds after the sentinel is not read. *)
Theorem update_progress_counts (rs : list (option pyval)) (order : list Z)
    (later : list (option Z)) :
  order ≡ₚ Agent2.reported <$> rs ->
  Agent2.update_progress ((Some <$> order) ++ None :: later)
  = Some {| Agent2.success_count := length (omap id rs);
            Agent2.fail_count := length rs - length (omap id rs);
            Agent2.advanced := length rs |}.
Proof.
  intros Hperm. unfold Agent2.update_progress. rewrite update_progress_from_counts.
  cbn [Agent2.success_count Agent2.fail_count Agent2.advanced].
  rewrite !Hperm. destruct (reported_counts rs) as (-> & -> & _).
  by rewrite length_fmap.
Qed.

Lemma update_progress_counts_witness :
  Agent2.update_progress [Some 0%Z; Some 1%Z; None; Some 1%Z]
  = Some {| Agent2.success_count := 1; Agent2.fail_count := 1; Agent2.advanced := 2 |}.
Proof.
  apply (update_progress_counts [Some PNone; None] [0%Z; 1%Z] [Some 1%Z]).
  apply perm_swap.
Defined.

(** ** Fenced answers and answers with prose *)

Section Fenced.
Import Py.
Implicit Types (s w body : str) (c : N).

Lemma lstrip_spaces w s :
  Forall (fun c => isspace c = true) w -> lstrip (w ++ s) = lstrip s.
Proof. induction 1 as [|c w Hc _ IH]; [done|]. cbn. by rewrite Hc. Qed.

Lemma lstrip_before c s r :
  isspace c = false -> lstrip (s ++ c :: r) = lstrip s ++ c :: r.
Proof.
  intros Hc. induction s as [|x s IH]; cbn; [by rewrite Hc|].
  by destruct (isspace x).
Qed.

Lemma lstrip_idemp s : lstrip (lstrip s) = lstrip s.
Proof.
  induction s as [|x s IH]; [done|]. cbn. destruct (isspace x) eqn:E; [done|].
  cbn. by rewrite E.
Qed.

Lemma rstrip_spaces s w :
  Forall (fun c => isspace c = true) w -> rstrip (s ++ w) = rstrip s.
Proof.
  intros Hw. unfold rstrip. rewrite reverse_app, lstrip_spaces; [done|].
  by apply Forall_reverse.
Qed.

Lemma rstrip_after s c :
  isspace c = false -> rstrip (s ++ [c]) = s ++ [c].
Proof.
  intros Hc. unfold rstrip. rewrite reverse_app, reverse_singleton.
  change ([c] ++ ?x) with (c :: x). cbn [lstrip]. rewrite Hc.
  by rewrite reverse_cons, reverse_involutive.
Qed.

(** Stripping a text whose first and last code points are not spaces
    removes the spaces around it and nothing else. *)
Lemma strip_around w1 c1 m c2 w2 :
  Forall (fun c => isspace c = true) w1 -> Forall (fun c => isspace c = true) w2 ->
  isspace c1 = false -> isspace c2 = false ->
  strip (w1 ++ (c1 :: m ++ [c2]) ++ w2) = c1 :: m ++ [c2].
Proof.
  intros H1 H2 Hc1 Hc2. unfold strip. rewrite lstrip_spaces by done.
  cbn [app lstrip]. rewrite Hc1. rewrite app_comm_cons.
  rewrite rstrip_spaces by done.
  change (c1 :: m ++ [c2]) with ((c1 :: m) ++ [c2]). by apply rstrip_after.
Qed.

(** The statements shared by stages 1 and 2, on a fenced block: what is
    left is the body, stripped. *)
Lemma strip_json_fence_fenced w1 body w2 :
  Forall (fun c => isspace c = true) w1 -> Forall (fun c => isspace c = true) w2 ->
  strip_json_fence (w1 ++ lit "```json" ++ body ++ lit "```" ++ w2) = strip body.
Proof.
  intros H1 H2. unfold strip_json_fence.
  assert (Hs : strip (w1 ++ lit "```json" ++ body ++ lit "```" ++ w2)
               = lit "```json" ++ body ++ lit "```").
  { change (lit "```json" ++ body ++ lit "```" ++ w2)
      with (96 :: (lit "``json" ++ body ++ [96; 96] ++ [96] ++ w2)).
    replace (w1 ++ 96 :: lit "``json" ++ body ++ [96; 96] ++ [96] ++ w2)
      with (w1 ++ (96 :: (lit "``json" ++ body ++ [96; 96]) ++ [96]) ++ w2)
      by (f_equal; cbn [app]; f_equal; by rewrite <- !app_assoc).
    rewrite strip_around by done. cbn [app]. f_equal. by rewrite <- !app_assoc. }
  rewrite Hs. rewrite startswith_app.
  change (slice_from 7 (lit "```json" ++ body ++ lit "```")) with (body ++ lit "```").
  assert (Hb : strip (body ++ lit "```") = lstrip body ++ lit "```").
  { unfold strip. change (lit "```") with (96 :: [96; 96]).
    rewrite lstrip_before by done.
    change (lstrip body ++ 96 :: [96; 96]) with (lstrip body ++ [96; 96] ++ [96]).
    rewrite app_assoc. by apply rstrip_after. }
  rewrite Hb.
  assert (He : endswith (lit "```") (lstrip body ++ lit "```") = true).
  { unfold endswith. rewrite reverse_app. apply startswith_app. }
  rewrite He. unfold slice_to_minus. rewrite length_app.
  replace (length (lstrip body) + length (lit "```") - 3)%nat with (length (lstrip body))
    by (cbn; lia).
  rewrite take_app_length. unfold strip. by rewrite lstrip_idemp.
Qed.
End Fenced.

Section CodeBlock.
Import Py Agent4.
Implicit Types (s body cur lang : str) (c : N).

Lemma splitlines_from_run cur s rest :
  Forall (fun c => is_linebreak c = false) s ->
  splitlines_from cur (s ++ rest) = splitlines_from (reverse s ++ cur) rest.
Proof.
  intros Hs. revert cur. induction Hs as [|c s Hc _ IH]; intros cur; [done|].
  cbn [app splitlines_from]. rewrite Hc, IH. by rewrite reverse_cons, <- app_assoc.
Qed.

Lemma splitlines_from_lf cur rest :
  splitlines_from cur (10 :: rest) = reverse cur :: splitlines_from [] rest.
Proof. done. Qed.

(** A line feed added at the end adds at most an empty line. *)
Lemma splitlines_from_terminated cur body :
  Forall (fun c => is_linebreak c = true -> c = 10) body ->
  Forall no_fence (splitlines_from cur body) ->
  Forall no_fence (splitlines_from cur (body ++ [10])).
Proof.
  intros Hb. revert cur. induction Hb as [|c b Hc _ IH]; intros cur.
  - cbn [app]. rewrite splitlines_from_lf. cbn [splitlines_from].
    destruct cur as [|x cur]; [by repeat constructor|]. done.
  - cbn [app]. destruct (is_linebreak c) eqn:E.
    + rewrite (Hc eq_refl), !splitlines_from_lf.
      intros [H1 H2]%Forall_cons. constructor; [done|by apply IH].
    + cbn [splitlines_from]. rewrite E. apply IH.
Qed.

(** The lines collected from a block whose body has no fence line, joined
    again, are the body. *)
Lemma content_lines_body cur body :
  Forall (fun c => is_linebreak c = true -> c = 10) body ->
  Forall no_fence (splitlines_from cur (body ++ [10])) ->
  content_lines (splitlines_from cur (body ++ 10 :: lit "```")) <> []
  /\ join_nl (content_lines (splitlines_from cur (body ++ 10 :: lit "```")))
     = reverse cur ++ body.
Proof.
  intros Hb. revert cur. induction Hb as [|c b Hc _ IH]; intros cur.
  - cbn [app]. rewrite !splitlines_from_lf.
    change (splitlines_from [] []) with (@nil str).
    change (splitlines_from [] (lit "```")) with [lit "```"].
    intros [H _]%Forall_cons. cbn [content_lines]. unfold no_fence in H. rewrite H.
    change (startswith (lit "```") (strip (lit "```"))) with true. cbn iota.
    split; [done|]. cbn. by rewrite app_nil_r.
  - cbn [app]. destruct (is_linebreak c) eqn:E.
    + rewrite (Hc eq_refl), !splitlines_from_lf.
      intros [H1 H2]%Forall_cons. destruct (IH [] H2) as [Hne Hjoin].
      cbn [content_lines]. unfold no_fence in H1. rewrite H1.
      split; [done|]. cbn [join_nl].
      destruct (content_lines _) as [|l r] eqn:El; [done|].
      rewrite Hjoin. done.
    + cbn [splitlines_from]. rewrite E. intros H.
      destruct (IH (c :: cur) H) as [Hne Hjoin]. split; [done|].
      by rewrite Hjoin, reverse_cons, <- app_assoc.
Qed.

Lemma unwrap_code_block_fenced lang body :
  Forall (fun c => is_linebreak c = false) lang ->
  Forall (fun c => is_linebreak c = true -> c = 10) body ->
  Forall no_fence (splitlines body) ->
  unwrap_code_block (lit "```" ++ lang ++ 10 :: body ++ 10 :: lit "```") = strip body.
Proof.
  intros Hl Hb Hf. unfold unwrap_code_block. rewrite startswith_app.
  unfold splitlines. rewrite app_assoc.
  rewrite splitlines_from_run
    by (apply Forall_app; split; [by repeat constructor|done]).
  rewrite splitlines_from_lf. cbn [tail].
  destruct (content_lines_body [] body Hb) as [_ ->]; [|done].
  by apply splitlines_from_terminated.
Qed.
End CodeBlock.

(** X8: an answer that is a [```json] block around a text that parses,
    with white space before and after, is parsed as that text by stage 1
    and by stage 2: the shared fence stripping leaves the stripped body. *)
Theorem fenced_answer_parses (w1 body w2 : str) (v : pyval) :
  Forall (fun c => Py.isspace c = true) w1 ->
  Forall (fun c => Py.isspace c = true) w2 ->
  Json.json_loads body = Some v ->
  let answer := w1 ++ Py.lit "```json" ++ body ++ Py.lit "```" ++ w2 in
  strip_json_fence answer = Py.strip body
  /\ Agent2.parse_content answer = Some v
  /\ Agent1.parse_output answer = Returned v.
Proof.
  intros H1 H2 Hv answer.
  assert (Hs : strip_json_fence answer = Py.strip body) by by apply strip_json_fence_fenced.
  split; [done|].
  assert (Hp : Agent2.parse_content answer = Some v).
  { unfold Agent2.parse_content. rewrite Hs. by apply json_loads_strip. }
  split; [done|]. unfold Agent1.parse_output.
  unfold Agent2.parse_content in Hp. by rewrite Hp.
Qed.

Lemma fenced_answer_parses_witness :
  Agent2.parse_content
    ([32] ++ Py.lit "```json" ++ Py.qlit "
{'conversation': []}
" ++ Py.lit "```" ++ [10])
  = Some (PDict [(Py.lit "conversation", PList [])]).
Proof.
  refine (proj1 (proj2 (fenced_answer_parses [32] _ [10] _ _ _ _)));
    [by repeat constructor|by repeat constructor|reflexivity].
Defined.

(** X9: in an answer whose text has no opening brace before some
    [{ ... }] span and no closing brace after it, the pattern of stage 1
    finds exactly that span; when the fence-stripped answer does not parse
    and the span does, stage 1 takes the span's value. *)
Theorem prose_around_object (pre m post : str) (data : pyval) :
  Forall (fun c => c <> 123) pre ->
  Forall (fun c => c <> 125) post ->
  let answer := pre ++ 123 :: m ++ 125 :: post in
  Py.search_braces answer = Some (123 :: m ++ [125])
  /\ (Json.json_loads (strip_json_fence answer) = None ->
      Json.json_loads (123 :: m ++ [125]) = Some data ->
      Agent1.parse_output answer = Returned data).
Proof.
  intros Hpre Hpost answer.
  assert (Hs : Py.search_braces answer = Some (123 :: m ++ [125])).
  { unfold Py.search_braces, answer. rewrite from_first_skip by done.
    cbn [Py.from_first]. change (123 =? 123) with true. cbn iota.
    change (m ++ 125 :: post) with (m ++ [125] ++ post).
    rewrite app_assoc, upto_last_app by done.
    unfold Py.upto_last. rewrite reverse_app. cbn [reverse].
    change (reverse [125]) with [125]. cbn [app Py.from_first].
    change (125 =? 125) with true. cbn [fmap option_fmap option_map].
    by rewrite reverse_cons, reverse_involutive. }
  split; [done|]. intros Hnone Hdata. unfold Agent1.parse_output.
  rewrite Hnone, search_braces_strip_json_fence, Hs. by rewrite Hdata.
Qed.

Lemma prose_around_object_witness :
  Agent1.parse_output (Py.lit "Plan: " ++ 123 :: Py.qlit "'rounds': 2" ++ 125 :: Py.lit " Done.")
  = Returned (PDict [(Py.lit "rounds", PInt 2)]).
Proof.
  refine (proj2 (prose_around_object (Py.lit "Plan: ") (Py.qlit "'rounds': 2")
                   (Py.lit " Done.") _ _ _) _ _);
    [vm_compute; repeat (constructor; [discriminate|]); constructor
    |vm_compute; repeat (constructor; [discriminate|]); constructor
    |reflexivity|reflexivity].
Defined.

(** X10: stage 4 unwraps a code block whose body has no line break other
    than line feeds and no line starting with a fence to the stripped
    body; when the body parses, the verdict on the block, with white space
    around it, is the verdict on the body alone. *)
Theorem code_block_answer (w1 lang body w2 : str) (v : pyval) :
  Forall (fun c => Py.isspace c = true) w1 ->
  Forall (fun c => Py.isspace c = true) w2 ->
  Forall (fun c => Py.is_linebreak c = false) lang ->
  Forall (fun c => Py.is_linebreak c = true -> c = 10) body ->
  Forall no_fence (Py.splitlines body) ->
  let block := Py.lit "```" ++ lang ++ 10 :: body ++ 10 :: Py.lit "```" in
  Agent4.unwrap_code_block block = Py.strip body
  /\ (Json.json_loads body = Some v ->
      Agent4.interpret (w1 ++ block ++ w2) = Agent4.interpret body).
Proof.
  intros H1 H2 Hl Hb Hf block.
  assert (Hu : Agent4.unwrap_code_block block = Py.strip body)
    by by apply unwrap_code_block_fenced.
  split; [done|]. intros Hv. unfold Agent4.interpret.
  assert (Hs : Py.strip (w1 ++ block ++ w2) = block).
  { unfold block.
    change (Py.lit "```" ++ lang ++ 10 :: body ++ 10 :: Py.lit "```")
      with (96 :: ([96; 96] ++ lang ++ 10 :: body ++ 10 :: [96; 96] ++ [96])).
    replace ([96; 96] ++ lang ++ 10 :: body ++ 10 :: [96; 96] ++ [96])
      with (([96; 96] ++ lang ++ 10 :: body ++ 10 :: [96; 96]) ++ [96]).
    - by apply strip_around.
    - cbn [app]. do 2 f_equal. rewrite <- app_assoc. f_equal. cbn [app]. f_equal.
      by rewrite <- app_assoc. }
  rewrite Hs, Hu. by rewrite (unwrap_code_block_parsed body v Hv).
Qed.

Lemma code_block_answer_witness :
  let body := Py.qlit "{'keep': true,
 'issues': [], 'reason': 'ok'}" in
  Agent4.unwrap_code_block (Py.lit "```" ++ Py.lit "json" ++ 10 :: body ++ 10 :: Py.lit "```")
  = Py.strip body.
Proof.
  intros body.
  apply (code_block_answer [] (Py.lit "json") body [] PNone).
  - constructor.
  - constructor.
  - vm_compute. repeat constructor.
  - apply Forall_forall. intros c Hc Hb. vm_compute in Hc.
    repeat (apply elem_of_cons in Hc as [->|Hc]; [first [reflexivity|discriminate Hb]|]).
    by apply elem_of_nil in Hc.
  - vm_compute. repeat constructor.
Defined.

(** ** Stage 1: the output file as the next run and stage 2 read it *)

Section Lines.
Import Py.
Implicit Types (s t cur line : str).

Lemma file_lines_from_line cur line rest :
  Forall (fun c => c <> 10) line ->
  file_lines_from cur (line ++ 10 :: rest)
  = (reverse cur ++ line ++ [10]) :: file_lines_from [] rest.
Proof.
  intros Hl. revert cur. induction Hl as [|c line Hc _ IH]; intros cur.
  - cbn [app file_lines_from]. change (10 =? 10) with true. cbn iota.
    by rewrite reverse_cons.
  - cbn [app file_lines_from]. rewrite (proj2 (N.eqb_neq c 10) Hc), IH.
    by rewrite reverse_cons, <- !app_assoc.
Qed.

(** Reading a text that ends with a line feed, and then more, gives the
    lines of the one followed by the lines of the other. *)
Lemma file_lines_from_app cur t rest :
  file_lines_from cur ((t ++ [10]) ++ rest)
  = file_lines_from cur (t ++ [10]) ++ file_lines_from [] rest.
Proof.
  revert cur. induction t as [|c t IH]; intros cur.
  - done.
  - cbn [app file_lines_from]. destruct (c =? 10); [|apply IH].
    cbn [app]. f_equal. apply IH.
Qed.

Lemma file_lines_app t rest :
  line_terminated t -> file_lines (t ++ rest) = file_lines t ++ file_lines rest.
Proof. intros [->|[t' ->]]; [done|]. apply file_lines_from_app. Qed.

Lemma file_lines_one line :
  Forall (fun c => c <> 10) line -> file_lines (line ++ [10]) = [line ++ [10]].
Proof. intros Hl. unfold file_lines. by rewrite file_lines_from_line. Qed.
End Lines.

Section NoLineFeed.
Import Json.

Lemma hex_digit_no_lf n : hex_digit n <> 10.
Proof. unfold hex_digit. case_match; lia. Qed.

Lemma escape_char_no_lf c : Forall (fun x => x <> 10) (escape_char c).
Proof.
  unfold escape_char.
  repeat (case_match; [by repeat constructor|]).
  case_match.
  - repeat (constructor; [done|]).
    constructor; [apply hex_digit_no_lf|]. constructor; [apply hex_digit_no_lf|].
    constructor.
  - constructor; [|constructor]. intros ->. discriminate.
Qed.

Lemma quote_no_lf s : Forall (fun x => x <> 10) (quote s).
Proof.
  unfold quote. constructor; [done|]. apply Forall_app. split; [|by repeat constructor].
  apply Forall_concat, Forall_fmap, Forall_forall. intros c _. apply escape_char_no_lf.
Qed.

Lemma join_with_Forall {A} (P : A -> Prop) sep (parts : list (list A)) :
  Forall P sep -> Forall (Forall P) parts -> Forall P (join_with sep parts).
Proof.
  intros Hsep. induction 1 as [|x [|y r] Hx Hr IH]; [constructor|done|].
  change (join_with sep (x :: y :: r)) with (x ++ sep ++ join_with sep (y :: r)).
  apply Forall_app. split; [done|]. apply Forall_app. by split.
Qed.

(** The compact text of a plain value is one line. *)
Lemma dumps_no_lf v lvl :
  plain v = true -> Forall (fun x => x <> 10) (dumps None lvl v).
Proof.
  revert lvl. induction v as [|b|z|l|s|items IH|d IH] using pyval_nested_ind;
    intros lvl Hp.
  - by repeat constructor.
  - destruct b; by repeat constructor.
  - destruct (atom_value_pretty z) as (_ & Hall & _).
    eapply Forall_impl; [exact Hall|]. by intros c Hc ->.
  - done.
  - apply quote_no_lf.
  - destruct items as [|x items]; [by repeat constructor|].
    rewrite dumps_list. cbn [newline_indent app]. constructor; [done|].
    apply Forall_app. split; [|by repeat constructor].
    apply join_with_Forall; [by repeat constructor|].
    cbn [plain] in Hp. apply forallb_Forall in Hp.
    apply Forall_fmap, Forall_forall. intros y Hy.
    rewrite Forall_forall in IH, Hp. by apply IH, Hp.
  - destruct d as [|kv d]; [by repeat constructor|].
    rewrite dumps_dict. cbn [newline_indent app]. constructor; [done|].
    apply Forall_app. split; [|by repeat constructor].
    apply join_with_Forall; [by repeat constructor|].
    apply plain_dict in Hp as [_ Hp].
    apply Forall_fmap, Forall_forall. intros [k y] Hy. cbn [fst snd].
    rewrite Forall_forall in IH, Hp.
    apply Forall_app. split; [apply quote_no_lf|].
    constructor; [done|]. constructor; [done|].
    apply (IH (k, y) Hy), (Hp (k, y) Hy).
Qed.

Lemma plain_lookup k (d : dict) v :
  plain (PDict d) = true -> Val.lookup k d = Some v -> plain v = true.
Proof.
  intros [_ Hp]%plain_dict.
  induction Hp as [|[k' x] r Hx _ IH]; [done|]. cbn.
  destruct (Val.str_eqb k k'); [by intros [= <-]|done].
Qed.

Lemma plain_get x k v :
  plain x = true -> Val.get x k = Returned v -> plain v = true.
Proof.
  destruct x as [| | | | | |d]; try done. cbn. intros Hp [= <-].
  destruct (Val.lookup k d) as [v|] eqn:E; [by eapply plain_lookup|done].
Qed.
End NoLineFeed.

Section Stage1Output.
Import Agent1.

(** What a worker that writes appends: one line for one record. *)
Lemma worker_step post response st :
  plain post = true ->
  (forall out data, response = Returned out -> parse_output out = Returned data ->
                    plain data = true) ->
  (worker post response st).1 = st
  \/ exists rec pid,
       stage1_record rec /\ plain rec = true
       /\ Val.get rec (Py.lit "post_id") = Returned pid /\ Val.hashable pid = true
       /\ outf (worker post response st).1 = outf st ++ Json.json_dumps rec ++ [10]
       /\ processed_ids (worker post response st).1 = IdSet.add pid (processed_ids st).
Proof.
  intros Hpost Hgw. unfold worker.
  destruct (Val.get post _) as [pid|] eqn:Hpid; [|by left].
  unfold IdSet.contains. destruct (Val.hashable pid) eqn:Hh; [|by left].
  destruct (IdSet.mem pid _); [by left|].
  destruct (Val.get_default _ _ _); [|by left].
  destruct response as [out|]; [|by left].
  unfold worker_try, extract_round_info.
  destruct (parse_output out) as [data|] eqn:Hdata; [|by left].
  pose proof (Hgw out data eq_refl Hdata) as Hpd. cbn [mbind outcome_bind].
  destruct (Val.get data (Py.lit "rounds")) as [rounds|] eqn:Hr; [|by left].
  destruct (Val.get data (Py.lit "info_by_round")) as [info|] eqn:Hi; [|by left].
  cbn [mbind outcome_bind].
  destruct (Val.is_none rounds) eqn:Hnr; [by left|].
  destruct (Val.is_none info) eqn:Hni; [by left|]. cbn [orb].
  destruct (Val.get post (Py.lit "file")) as [file|] eqn:Hf; [|by left].
  cbn [mbind outcome_bind fst outf processed_ids]. right.
  eexists _, pid. split; [|split; [|split; [|split; [|split]]]]; try reflexivity.
  - by exists pid, file, rounds, info.
  - apply plain_dict_intro.
    + vm_compute.
      repeat (constructor; [by repeat (intros [?|H]%elem_of_cons; [done|revert H]);
                               intros ?%elem_of_nil|]). constructor.
    + by repeat constructor.
    + constructor; [exact (plain_get _ _ _ Hpost Hpid)|].
      constructor; [exact (plain_get _ _ _ Hpost Hf)|].
      constructor; [exact (plain_get _ _ _ Hpd Hr)|].
      constructor; [exact (plain_get _ _ _ Hpd Hi)|]. constructor.
  - unfold Val.get, Val.lookup.
    by rewrite (proj2 (str_eqb_eq (Py.lit "post_id") (Py.lit "post_id")) eq_refl).
  - exact Hh.
Qed.

Lemma dict_line rec :
  stage1_record rec ->
  exists m, Json.json_dumps rec = 123 :: m ++ [125].
Proof.
  intros (pid & file & rounds & info & -> & _). unfold Json.json_dumps.
  rewrite dumps_dict. eexists. cbn [Json.newline_indent app]. reflexivity.
Qed.

(** The lines of a file extended by the line of one record. *)
Lemma file_lines_record t rec :
  line_terminated t -> plain rec = true ->
  Py.file_lines (t ++ Json.json_dumps rec ++ [10])
  = Py.file_lines t ++ [Json.json_dumps rec ++ [10]].
Proof.
  intros Ht Hp. rewrite file_lines_app by done. f_equal.
  apply file_lines_one. by apply dumps_no_lf.
Qed.

Lemma load_processed_ids_record t rec pid :
  line_terminated t -> plain rec = true ->
  Val.get rec (Py.lit "post_id") = Returned pid -> Val.hashable pid = true ->
  load_processed_ids (Some (t ++ Json.json_dumps rec ++ [10]))
  = IdSet.add pid (load_processed_ids (Some t)).
Proof.
  intros Ht Hp Hpid Hh. unfold load_processed_ids.
  rewrite file_lines_record, foldl_app by done. cbn [foldl].
  unfold Json.json_dumps. rewrite json_loads_dumps_line by done.
  rewrite Hpid. cbn [mbind outcome_bind]. unfold IdSet.insert. by rewrite Hh.
Qed.

Lemma load_ndjson_record t rec :
  line_terminated t -> plain rec = true -> stage1_record rec ->
  Agent2.load_ndjson (t ++ Json.json_dumps rec ++ [10])
  = Agent2.load_ndjson t ++ [rec].
Proof.
  intros Ht Hp Hrec. unfold Agent2.load_ndjson.
  rewrite file_lines_record, omap_app by done. f_equal.
  destruct (dict_line rec Hrec) as [m Hm]. cbn [omap list_omap].
  assert (Hs : Py.strip (Json.json_dumps rec ++ [10]) = Json.json_dumps rec).
  { rewrite Hm. apply (strip_around [] 123 m 125 [10]); by repeat constructor. }
  rewrite Hs. rewrite bool_decide_eq_false_2 by (by rewrite Hm).
  unfold Json.json_dumps. by rewrite json_loads_dumps.
Qed.

Lemma line_terminated_record t line : line_terminated (t ++ line ++ [10]).
Proof. right. exists (t ++ line). by rewrite <- app_assoc. Qed.

(** What holds of the output text and of the set of identifiers throughout a
    run. *)
Lemma run_workers_output gw posts i st :
  Forall (fun post => plain post = true) posts ->
  (forall i out data, gw i = Returned out -> parse_output out = Returned data ->
                      plain data = true) ->
  line_terminated (outf st) ->
  load_processed_ids (Some (outf st)) = processed_ids st ->
  let st' := (run_workers gw i posts st).1 in
  line_terminated (outf st')
  /\ load_processed_ids (Some (outf st')) = processed_ids st'
  /\ exists news,
       Agent2.load_ndjson (outf st') = Agent2.load_ndjson (outf st) ++ news
       /\ Forall stage1_record news.
Proof.
  intros Hposts Hgw. revert i st.
  induction Hposts as [|post rest Hpost _ IH]; intros i st Ht Hids; cbn zeta.
  - cbn [run_workers fst]. split; [done|]. split; [done|].
    exists []. by rewrite app_nil_r.
  - cbn [run_workers].
    destruct (worker post (gw i) st) as [st1 n] eqn:Hw.
    destruct (run_workers gw (S i) rest st1) as [st2 log] eqn:Hrun. cbn [fst].
    assert (H1 : line_terminated (outf st1)
                 /\ load_processed_ids (Some (outf st1)) = processed_ids st1
                 /\ exists news,
                      Agent2.load_ndjson (outf st1) = Agent2.load_ndjson (outf st) ++ news
                      /\ Forall stage1_record news).
    { destruct (worker_step post (gw i) st Hpost (Hgw i))
        as [Hsame|(rec & pid & Hrec & Hp & Hpid & Hh & Hout & Hproc)];
        rewrite Hw in *; cbn [fst] in *.
      - subst st1. split; [done|]. split; [done|]. exists []. by rewrite app_nil_r.
      - rewrite Hout, Hproc. split; [apply line_terminated_record|].
        split; [by rewrite (load_processed_ids_record _ rec pid), Hids|].
        exists [rec]. split; [by apply load_ndjson_record|by constructor]. }
    destruct H1 as (Ht1 & Hids1 & news1 & Hn1 & Hr1).
    specialize (IH (S i) st1 Ht1 Hids1). cbn zeta in IH. rewrite Hrun in IH.
    cbn [fst] in IH. destruct IH as (Ht2 & Hids2 & news2 & Hn2 & Hr2).
    split; [done|]. split; [done|]. exists (news1 ++ news2).
    split; [by rewrite Hn2, Hn1, <- app_assoc|by apply Forall_app].
Qed.
End Stage1Output.

(** X11: at the end of a run of stage 1 (workers taken one after the
    other), [load_processed_ids] on the text of the output file gives the set
    of identifiers the run held as processed: a restart resumes from what the
    run knew.  (The file was absent, empty or ended with a line feed; posts
    and parsed answers are plain.) *)
Theorem stage1_reload (posts : list pyval) (output_file : option str)
    (gw : nat -> outcome str) :
  Forall (fun post => plain post = true) posts ->
  (forall i out data, gw i = Returned out -> Agent1.parse_output out = Returned data ->
                      plain data = true) ->
  line_terminated (default [] output_file) ->
  let st := (Agent1.main posts output_file gw).1 in
  Agent1.load_processed_ids (Some (Agent1.outf st)) = Agent1.processed_ids st.
Proof.
  intros Hposts Hgw Ht st.
  refine (proj1 (proj2 (run_workers_output gw posts 0 _ Hposts Hgw _ _))); cbn [Agent1.outf Agent1.processed_ids].
  - exact Ht.
  - by destruct output_file.
Qed.

Lemma stage1_reload_witness :
  let st := (Agent1.main two_posts None plans_one_round).1 in
  Agent1.load_processed_ids (Some (Agent1.outf st)) = Agent1.processed_ids st.
Proof.
  apply (stage1_reload two_posts None plans_one_round).
  - by repeat constructor.
  - intros i out data [= <-] H. vm_compute in H. by injection H as <-.
  - by left.
Defined.

(** X12: what a run of stage 1 appends to its output file, stage 2's
    [load_ndjson] reads as records with the four fields [post_id], [file],
    [rounds] and [info_by_round], the last two not [None]; the records the
    file held before stay in front.  (Same conditions as for X11.) *)
Theorem stage1_output_for_stage2 (posts : list pyval) (output_file : option str)
    (gw : nat -> outcome str) :
  Forall (fun post => plain post = true) posts ->
  (forall i out data, gw i = Returned out -> Agent1.parse_output out = Returned data ->
                      plain data = true) ->
  line_terminated (default [] output_file) ->
  let st := (Agent1.main posts output_file gw).1 in
  exists news,
    Agent2.load_ndjson (Agent1.outf st)
    = Agent2.load_ndjson (default [] output_file) ++ news
    /\ Forall stage1_record news.
Proof.
  intros Hposts Hgw Ht st.
  refine (proj2 (proj2 (run_workers_output gw posts 0 _ Hposts Hgw _ _))); cbn [Agent1.outf Agent1.processed_ids].
  - exact Ht.
  - by destruct output_file.
Qed.

Lemma stage1_output_for_stage2_witness :
  let st := (Agent1.main two_posts None plans_one_round).1 in
  exists news,
    Agent2.load_ndjson (Agent1.outf st) = Agent2.load_ndjson [] ++ news
    /\ Forall stage1_record news.
Proof.
  apply (stage1_output_for_stage2 two_posts None plans_one_round).
  - by repeat constructor.
  - intros i out data [= <-] H. vm_compute in H. by injection H as <-.
  - by left.
Defined.

(** ** Stage 3: what a request carries *)

Section Histories.
Import Agent3.


(** Turns without a reply contribute user messages only. *)
Lemma conversation_history_fresh prev h :
  conversation_history prev = Returned h ->
  Forall (fun conv => has_response conv = false) prev ->
  Forall (fun m => m.1 = "user"%string) h.
Proof.
  revert h. induction prev as [|conv rest IH]; intros h.
  - intros [= <-] _. constructor.
  - cbn [conversation_history]. unfold has_response at 1.
    destruct (Val.get conv (Py.lit "counselor_content")) as [cc|] eqn:Hcc; [|done].
    destruct (Val.get conv (Py.lit "patient")) as [p|] eqn:Hp; [|done].
    cbn [mbind outcome_bind].
    destruct (conversation_history rest) as [more|] eqn:Hmore; [|done].
    cbn [mbind outcome_bind]. intros [= <-] [Hc Hrest]%Forall_cons.
    unfold has_response in Hc. rewrite Hcc in Hc. rewrite Hc. cbn [app].
    apply Forall_app. split; [by destruct (Val.truthy p); repeat constructor|].
    by apply IH.
Qed.

(** What a task of [conv_tasks] holds. *)
Lemma conv_tasks_content i conversation j convs ts t :
  conv_tasks i conversation j convs = Returned ts -> t ∈ ts ->
  (j <= conv_idx t)%nat
  /\ (exists conv, convs !! (conv_idx t - j)%nat = Some conv
                   /\ Val.subscript conv (Py.lit "patient") = Returned (patient t))
  /\ conversation_history (take (conv_idx t) conversation) = Returned (history t).
Proof.
  revert j ts. induction convs as [|conv rest IH]; intros j ts.
  - intros [= <-] H. by apply elem_of_nil in H.
  - rewrite conv_tasks_cons. destruct (needs_reply conv) as [pending|] eqn:Hn; [|done].
    destruct (if pending then _ else _) as [here|] eqn:Hhere; [|done].
    cbn [mbind outcome_bind].
    destruct (conv_tasks i conversation (S j) rest) as [more|] eqn:Hmore; [|done].
    cbn [mbind outcome_bind]. intros [= <-] Hin.
    apply elem_of_app in Hin as [Hin|Hin].
    + destruct pending; [|injection Hhere as <-; by apply elem_of_nil in Hin].
      destruct (conversation_history (take j conversation)) as [h|] eqn:Hh; [|done].
      destruct (Val.subscript conv (Py.lit "patient")) as [p|] eqn:Hp; [|done].
      injection Hhere as <-. apply list_elem_of_singleton in Hin as ->. cbn.
      split; [lia|]. split; [|done]. exists conv.
      replace (j - j)%nat with 0%nat by lia. done.
    + destruct (IH (S j) more Hmore Hin) as (Hj & (conv' & Hl & Hp) & Hh).
      split; [lia|]. split; [|done]. exists conv'. split; [|done].
      replace (conv_idx t - j)%nat with (S (conv_idx t - S j)) by lia. done.
Qed.

Lemma post_tasks_content i post ts t :
  post_tasks i post = Returned ts -> t ∈ ts ->
  exists d convs conv,
    post = PDict d
    /\ Val.lookup (Py.lit "conversation") d = Some (PList convs)
    /\ convs !! conv_idx t = Some conv
    /\ Val.subscript conv (Py.lit "patient") = Returned (patient t)
    /\ conversation_history (take (conv_idx t) convs) = Returned (history t).
Proof.
  intros Hts Hin.
  destruct (post_tasks_target _ _ _ _ Hts Hin) as (_ & d & convs & conv & -> & Hd & Hc & _).
  unfold post_tasks in Hts. cbn [Val.get_default mbind outcome_bind] in Hts.
  rewrite Hd in Hts. cbn [default from_option id Val.iterate mbind outcome_bind] in Hts.
  destruct (conv_tasks_content _ _ _ _ _ _ Hts Hin) as (_ & (conv' & Hl & Hp) & Hh).
  rewrite Nat.sub_0_r in Hl. exists d, convs, conv'. done.
Qed.

Lemma build_tasks_content i posts ts t :
  build_tasks i posts = Returned ts -> t ∈ ts ->
  (i <= post_idx t)%nat
  /\ exists d convs conv,
       posts !! (post_idx t - i)%nat = Some (PDict d)
       /\ Val.lookup (Py.lit "conversation") d = Some (PList convs)
       /\ convs !! conv_idx t = Some conv
       /\ Val.subscript conv (Py.lit "patient") = Returned (patient t)
       /\ conversation_history (take (conv_idx t) convs) = Returned (history t).
Proof.
  revert i ts. induction posts as [|post rest IH]; intros i ts; cbn [build_tasks].
  - intros [= <-] H. by apply elem_of_nil in H.
  - destruct (post_tasks i post) as [here|] eqn:Hhere; [|done]. cbn [mbind outcome_bind].
    destruct (build_tasks (S i) rest) as [more|] eqn:Hmore; [|done].
    cbn [mbind outcome_bind]. intros [= <-] Hin.
    apply elem_of_app in Hin as [Hin|Hin].
    + destruct (post_tasks_target _ _ _ _ Hhere Hin) as (Hi & _).
      destruct (post_tasks_content _ _ _ _ Hhere Hin) as (d & convs & conv & -> & H).
      split; [lia|]. exists d, convs, conv. rewrite Hi, Nat.sub_diag. done.
    + destruct (IH _ _ Hmore Hin) as (Hi & d & convs & conv & Hl & H).
      split; [lia|]. exists d, convs, conv. split; [|done].
      replace (post_idx t - i)%nat with (S (post_idx t - S i)) by lia. done.
Qed.

(** A settled post schedules nothing. *)
Lemma conv_tasks_settled i conversation j convs :
  Forall (fun conv => needs_reply conv = Returned false) convs ->
  conv_tasks i conversation j convs = Returned [].
Proof.
  intros H. revert j. induction H as [|conv rest Hc _ IH]; intros j; [done|].
  rewrite conv_tasks_cons, Hc. cbn [mbind outcome_bind]. by rewrite IH.
Qed.

End Histories.

Section Stage3Disk.
Import Agent3.

Lemma completion_loop_disk tasks answers order st st' p :
  completion_loop tasks answers order st = Returned st' ->
  p <> output_file -> disk st' !! p = disk st !! p.
Proof.
  intros Hloop Hp. revert st Hloop. induction order as [|k rest IH]; intros st.
  - by intros [= <-].
  - cbn [completion_loop]. destruct (tasks !! k) as [t|]; [|apply IH].
    destruct (answers k) as [[reply think]|]; [|apply IH].
    destruct (update_turn _ _ _ _ _) as [posts'|]; [|done]. cbn [mbind outcome_bind].
    intros H%IH. rewrite H. cbn [disk]. case_bool_decide; [|done].
    exact (run_writes_other (disk st) output_file p
             (write_json_file output_file posts')
             (write_ops_writes_into _ _) Hp).
Qed.

Lemma main_from_disk posts fs answers order posts' fs' :
  main_from posts fs answers order = Returned (posts', fs') ->
  (forall p, p <> output_file -> fs' !! p = fs !! p)
  /\ ((posts' = posts /\ fs' = fs)
      \/ fs' !! output_file = Some (Json.json_dump_indent2 (PList posts'))).
Proof.
  unfold main_from. destruct (build_tasks 0 posts) as [tasks|]; [|done].
  cbn [mbind outcome_bind]. destruct tasks as [|t tasks].
  - intros [= <- <-]. split; [done|by left].
  - destruct (completion_loop _ _ _ _) as [st|] eqn:Hloop; [|done].
    cbn [mbind outcome_bind]. intros [= <- <-]. split.
    + intros p Hp. transitivity (disk st !! p);
        [|by apply (completion_loop_disk _ _ _ _ _ p Hloop)].
      exact (run_writes_other (disk st) output_file p
               (write_json_file output_file (posts_now st))
               (write_ops_writes_into _ _) Hp).
    + right.
      change (Fs.run (disk st)
                (Fs.write_ops output_file (Json.json_dump_indent2 (PList (posts_now st))))
              !! output_file = Some (Json.json_dump_indent2 (PList (posts_now st)))).
      rewrite run_write_ops. apply lookup_insert_eq.
Qed.

Lemma main_from_written posts fs answers order tasks posts' fs' :
  build_tasks 0 posts = Returned tasks -> tasks <> [] ->
  main_from posts fs answers order = Returned (posts', fs') ->
  fs' !! output_file = Some (Json.json_dump_indent2 (PList posts')).
Proof.
  unfold main_from. intros -> Hne. cbn [mbind outcome_bind].
  destruct tasks as [|t tasks]; [done|].
  destruct (completion_loop _ _ _ _) as [st|] eqn:Hloop; [|done].
  cbn [mbind outcome_bind]. intros [= <- <-].
  change (Fs.run (disk st)
            (Fs.write_ops output_file (Json.json_dump_indent2 (PList (posts_now st))))
          !! output_file = Some (Json.json_dump_indent2 (PList (posts_now st)))).
  rewrite run_write_ops. apply lookup_insert_eq.
Qed.
End Stage3Disk.



(** X14: the histories are built before the first call; so when no turn
    of the loaded posts has a reply yet, every history consists of user
    messages only, also for the later turns of a post: the replies obtained
    in the same run are not part of them. *)
Theorem stage3_fresh_histories (posts : list pyval) (tasks : list Agent3.task) :
  Agent3.build_tasks 0 posts = Returned tasks ->
  (forall post d convs,
     post ∈ posts -> post = PDict d ->
     Val.lookup (Py.lit "conversation") d = Some (PList convs) ->
     Forall (fun conv => has_response conv = false) convs) ->
  Forall (fun t => Forall (fun m => m.1 = "user"%string) (Agent3.history t)) tasks.
Proof.
  intros Htasks Hfresh. apply Forall_forall. intros t Hin.
  destruct (build_tasks_content _ _ _ _ Htasks Hin)
    as (_ & d & convs & conv & Hp & Hd & Hc & Hpat & Hh).
  eapply conversation_history_fresh; [exact Hh|].
  apply Forall_take. eapply Hfresh; [|reflexivity|exact Hd].
  by eapply list_elem_of_lookup_2.
Qed.

Lemma stage3_fresh_histories_witness :
  match Agent3.build_tasks 0 unanswered with
  | Returned tasks =>
      Forall (fun t => Forall (fun m => m.1 = "user"%string) (Agent3.history t)) tasks
  | Raised _ => False
  end.
Proof.
  assert (H : returns (Agent3.build_tasks 0 unanswered) = true)
    by (vm_compute; reflexivity).
  destruct (Agent3.build_tasks 0 unanswered) as [tasks|e] eqn:E; [|discriminate].
  apply (stage3_fresh_histories unanswered tasks E).
  intros post d convs Hin -> Hd. apply list_elem_of_singleton in Hin.
  injection Hin as ->. vm_compute in Hd. injection Hd as <-.
  by repeat constructor.
Defined.



(** X16: a run of stage 3 that returns changes no file other than its
    output file (the input file is untouched); if it changed the disk at
    all, and the posts as they are at the end are plain (so that the file
    takes their text), the output file holds the dump of those posts. *)
Theorem stage3_disk_footprint (fs : gmap string str)
    (answers : nat -> outcome (pyval * pyval)) (order : list nat) posts' fs' :
  Agent3.main fs answers order = Returned (posts', fs') ->
  (forall p, p <> Agent3.output_file -> fs' !! p = fs !! p)
  /\ fs' !! Agent3.input_file = fs !! Agent3.input_file
  /\ (fs' <> fs -> plain (PList posts') = true ->
      fs' !! Agent3.output_file = Some (Json.json_dump_indent2 (PList posts'))).
Proof.
  intros Hmain.
  assert (H : (forall p, p <> Agent3.output_file -> fs' !! p = fs !! p)
              /\ (fs' = fs
                  \/ fs' !! Agent3.output_file
                     = Some (Json.json_dump_indent2 (PList posts')))).
  { unfold Agent3.main in Hmain.
    destruct (fs !! _) as [text|]; [|done].
    destruct (Json.json_loads text) as [v|]; [|done].
    destruct v as [| | | | |posts|];
      try (cbn in Hmain; discriminate Hmain).
    - cbn [Val.iterate mbind outcome_bind] in Hmain.
      destruct (Agent3.build_tasks 0 _) as [[|? ?]|]; try done.
      injection Hmain as <- <-. split; [done|by left].
    - destruct (main_from_disk _ _ _ _ _ _ Hmain) as [Ho [[_ ->]|Hf]]; auto.
    - cbn [Val.iterate mbind outcome_bind] in Hmain.
      destruct (Agent3.build_tasks 0 _) as [[|? ?]|]; try done.
      injection Hmain as <- <-. split; [done|by left]. }
  destruct H as [Ho Hf]. split; [done|]. split; [by apply Ho|].
  intros Hne _. by destruct Hf.
Qed.

Lemma stage3_disk_footprint_witness :
  match Agent3.main reply_stage_disk one_reply [0%nat] with
  | Returned (posts', fs') =>
      fs' !! Agent3.input_file = reply_stage_disk !! Agent3.input_file
  | Raised _ => False
  end.
Proof.
  assert (H : returns (Agent3.main reply_stage_disk one_reply [0%nat]) = true)
    by (vm_compute; reflexivity).
  destruct (Agent3.main reply_stage_disk one_reply [0%nat]) as [[posts' fs']|e] eqn:E;
    [|discriminate].
  exact (proj1 (proj2 (stage3_disk_footprint reply_stage_disk one_reply [0%nat] posts' fs' E))).
Defined.

(** ** Stage 3: a second pass *)

Section SecondPass.
Import Agent3.

Lemma has_response_needs_reply conv :
  has_response conv = true -> needs_reply conv = Returned false.
Proof.
  unfold has_response, needs_reply. destruct conv as [| | | | | |dc]; try done.
  cbn. by intros ->.
Qed.

(** A completed task leaves its turn answered, and the turns answered
    before stay so. *)
Lemma update_turn_answered cur i j reply think cur' :
  update_turn cur i j reply think = Returned cur' ->
  Val.truthy reply = true ->
  (forall t, post_idx t = i -> conv_idx t = j -> answered cur' t)
  /\ (forall t, answered cur t -> answered cur' t).
Proof.
  unfold update_turn.
  destruct (cur !! i) as [[| | | | | |d]|] eqn:Hcur; try done.
  destruct (Val.lookup (Py.lit "conversation") d) as [[| | | | |convs|]|] eqn:Hd; try done.
  destruct (convs !! j) as [conv|] eqn:Hj; [|done].
  destruct conv as [| | | | | |dc]; try done.
  cbn [Val.setitem mbind outcome_bind]. intros [= <-] Hreply.
  set (conv2 := PDict (Val.assign (Py.lit "counselor_think") think
                         (Val.assign (Py.lit "counselor_content") reply dc))).
  assert (Hi : (i < length cur)%nat) by (by eapply lookup_lt_Some).
  assert (Hjl : (j < length convs)%nat) by (by eapply lookup_lt_Some).
  assert (H2 : has_response conv2 = true).
  { unfold has_response, conv2. cbn [Val.get].
    rewrite lookup_assign_ne by done. by rewrite lookup_assign_eq. }
  split.
  - intros t <- <-. exists conv2. split; [|done].
    exists (Val.assign (Py.lit "conversation") (PList (<[conv_idx t := conv2]> convs)) d),
      (<[conv_idx t := conv2]> convs).
    split; [by apply list_lookup_insert_eq|].
    split; [apply lookup_assign_eq|]. by apply list_lookup_insert_eq.
  - intros t (conv & (d' & convs' & Hp & Hc & Hl) & Hr).
    destruct (decide (post_idx t = i)) as [Hti|Hti].
    + rewrite Hti, Hcur in Hp. injection Hp as <-. rewrite Hd in Hc. injection Hc as <-.
      destruct (decide (conv_idx t = j)) as [Htj|Htj].
      * exists conv2. split; [|done].
        exists (Val.assign (Py.lit "conversation") (PList (<[j := conv2]> convs)) d),
          (<[j := conv2]> convs).
        rewrite Hti, Htj. split; [by apply list_lookup_insert_eq|].
        split; [apply lookup_assign_eq|]. by apply list_lookup_insert_eq.
      * exists conv. split; [|done].
        exists (Val.assign (Py.lit "conversation") (PList (<[j := conv2]> convs)) d),
          (<[j := conv2]> convs).
        rewrite Hti. split; [by apply list_lookup_insert_eq|].
        split; [apply lookup_assign_eq|]. by rewrite list_lookup_insert_ne.
    + exists conv. split; [|done]. exists d', convs'.
      split; [by rewrite list_lookup_insert_ne|done].
Qed.

(** After the loop, every task whose future completed with a reply has its
    turn answered. *)
Lemma completion_loop_answered tasks answers order st st' :
  (forall k t, tasks !! k = Some t ->
               exists reply think, answers k = Returned (reply, think)
                                   /\ Val.truthy reply = true) ->
  completion_loop tasks answers order st = Returned st' ->
  (forall t, answered (posts_now st) t -> answered (posts_now st') t)
  /\ (forall k t, k ∈ order -> tasks !! k = Some t -> answered (posts_now st') t).
Proof.
  intros Hans. revert st. induction order as [|k rest IH]; intros st.
  - intros [= <-]. split; [done|]. intros k t Hk. by apply elem_of_nil in Hk.
  - cbn [completion_loop]. destruct (tasks !! k) as [t|] eqn:Ht.
    + destruct (Hans k t Ht) as (reply & think & -> & Hreply).
      destruct (update_turn _ _ _ _ _) as [posts1|] eqn:Hup; [|done].
      cbn [mbind outcome_bind]. intros Hloop.
      destruct (IH _ Hloop) as [Hkeep Hnew]. cbn [posts_now] in Hkeep.
      destruct (update_turn_answered _ _ _ _ _ _ Hup Hreply) as [Hhere Hbefore].
      split; [auto|]. intros k' t' Hk' Ht'.
      apply elem_of_cons in Hk' as [->|Hk']; [|eauto].
      rewrite Ht in Ht'. injection Ht' as <-. apply Hkeep. by apply Hhere.
    + intros Hloop. destruct (IH _ Hloop) as [Hkeep Hnew]. split; [done|].
      intros k' t' Hk' Ht'. apply elem_of_cons in Hk' as [->|Hk']; [congruence|eauto].
Qed.

(** Every scheduled turn has its task. *)
Lemma conv_tasks_complete i conversation j convs ts n conv :
  conv_tasks i conversation j convs = Returned ts ->
  convs !! n = Some conv -> scheduled conv = true ->
  exists t, t ∈ ts /\ post_idx t = i /\ conv_idx t = (j + n)%nat.
Proof.
  revert j ts n. induction convs as [|c rest IH]; intros j ts n; [done|].
  rewrite conv_tasks_cons. destruct (needs_reply c) as [pending|] eqn:Hn; [|done].
  destruct (if pending then _ else _) as [here|] eqn:Hhere; [|done].
  cbn [mbind outcome_bind].
  destruct (conv_tasks i conversation (S j) rest) as [more|] eqn:Hmore; [|done].
  cbn [mbind outcome_bind]. intros [= <-] Hl Hs. destruct n as [|n].
  - injection Hl as <-. unfold scheduled in Hs. rewrite Hn in Hs. subst pending.
    destruct (conversation_history (take j conversation)) as [h|]; [|done].
    destruct (Val.subscript c (Py.lit "patient")) as [p|]; [|done].
    injection Hhere as <-. eexists. split; [apply elem_of_app; left; apply list_elem_of_here|].
    cbn. split; [done|lia].
  - destruct (IH (S j) more n Hmore Hl Hs) as (t & Ht & Hi & Hj).
    exists t. split; [apply elem_of_app; by right|]. split; [done|lia].
Qed.

Lemma conv_tasks_returned i conversation j convs ts :
  conv_tasks i conversation j convs = Returned ts ->
  Forall (fun c => exists b, needs_reply c = Returned b) convs.
Proof.
  revert j ts. induction convs as [|c rest IH]; intros j ts; [constructor|].
  rewrite conv_tasks_cons. destruct (needs_reply c) as [pending|] eqn:Hn; [|done].
  destruct (if pending then _ else _) as [here|]; [|done]. cbn [mbind outcome_bind].
  destruct (conv_tasks i conversation (S j) rest) as [more|] eqn:Hmore; [|done].
  intros _. constructor; [by eexists|by eapply IH].
Qed.

(** The tasks of one post, as [build_tasks] collects them. *)
Lemma build_tasks_lookup i posts ts k post :
  build_tasks i posts = Returned ts -> posts !! k = Some post ->
  exists here, post_tasks (i + k) post = Returned here /\ here ⊆ ts.
Proof.
  revert i ts k. induction posts as [|p rest IH]; intros i ts k; [done|].
  cbn [build_tasks]. destruct (post_tasks i p) as [here|] eqn:Hhere; [|done].
  cbn [mbind outcome_bind].
  destruct (build_tasks (S i) rest) as [more|] eqn:Hmore; [|done].
  cbn [mbind outcome_bind]. intros [= <-] Hk. destruct k as [|k].
  - injection Hk as <-. exists here. rewrite Nat.add_0_r. split; [done|].
    intros t Ht. apply elem_of_app. by left.
  - destruct (IH (S i) more k Hmore Hk) as (h & Hh & Hsub).
    exists h. replace (i + S k)%nat with (S i + k)%nat by lia. split; [done|].
    intros t Ht. apply elem_of_app. right. by apply Hsub.
Qed.

Lemma build_tasks_nil i posts :
  (forall k post, posts !! k = Some post -> post_tasks (i + k) post = Returned []) ->
  build_tasks i posts = Returned [].
Proof.
  revert i. induction posts as [|p rest IH]; intros i H; [done|].
  cbn [build_tasks]. pose proof (H 0%nat p eq_refl) as H0. rewrite Nat.add_0_r in H0.
  rewrite H0. cbn [mbind outcome_bind]. rewrite IH; [done|].
  intros k post Hk. replace (S i + k)%nat with (i + S k)%nat by lia. by apply H.
Qed.

(** When every scheduled turn got a reply, nothing is left to schedule. *)
Lemma build_tasks_after posts tasks posts' :
  build_tasks 0 posts = Returned tasks ->
  Forall2 post_frame posts posts' ->
  (forall t, t ∈ tasks -> answered posts' t) ->
  build_tasks 0 posts' = Returned [].
Proof.
  intros Htasks Hframe Hall. apply build_tasks_nil. intros k post' Hk'. cbn [Nat.add].
  destruct (Forall2_lookup_r _ _ _ _ _ Hframe Hk') as (post & Hk & Hpf).
  destruct (build_tasks_lookup 0 posts tasks k post Htasks Hk) as (here & Hhere & Hsub).
  cbn [Nat.add] in Hhere.
  assert (Hcase : (post' = post /\ here = [])
                  \/ exists d convs convs',
                       post = PDict d
                       /\ Val.lookup (Py.lit "conversation") d = Some (PList convs)
                       /\ (post' = post
                           \/ post' = PDict (Val.assign (Py.lit "conversation")
                                               (PList convs') d))
                       /\ Val.get_default post' (Py.lit "conversation") (PList [])
                          = Returned (PList convs')
                       /\ Forall2 turn_frame convs convs').
  { destruct Hpf as [->|(d & convs & convs' & -> & Hd & -> & Hturns)].
    - destruct here as [|t here]; [by left|]. right.
      destruct (post_tasks_target k post (t :: here) t Hhere (list_elem_of_here _ _))
        as (_ & d & convs & conv & -> & Hd & _).
      exists d, convs, convs. split; [done|]. split; [done|]. split; [by left|].
      split; [cbn [Val.get_default]; by rewrite Hd|].
      apply Forall_Forall2_diag, Forall_forall. intros; apply turn_frame_refl.
    - right. exists d, convs, convs'. split; [done|]. split; [done|].
      split; [by right|]. split; [cbn [Val.get_default]; by rewrite lookup_assign_eq|done]. }
  destruct Hcase as [[-> ->]|(d & convs & convs' & -> & Hd & Hpost' & Hget & Hturns)].
  { exact Hhere. }
  unfold post_tasks in Hhere. cbn [Val.get_default mbind outcome_bind] in Hhere.
  rewrite Hd in Hhere. cbn [default from_option id Val.iterate mbind outcome_bind] in Hhere.
  unfold post_tasks. rewrite Hget. cbn [Val.iterate mbind outcome_bind].
  apply conv_tasks_settled. apply Forall_forall. intros conv' Hin.
  apply list_elem_of_lookup_1 in Hin as [j Hj'].
  destruct (Forall2_lookup_r _ _ _ _ _ Hturns Hj') as (conv & Hj & Hsame & _).
  pose proof (conv_tasks_returned _ _ _ _ _ Hhere) as Hret.
  rewrite Forall_forall in Hret.
  destruct (Hret conv (list_elem_of_lookup_2 _ _ _ Hj)) as [b Hb].
  destruct b.
  - assert (Hs : scheduled conv = true) by (unfold scheduled; by rewrite Hb).
    destruct (conv_tasks_complete _ _ _ _ _ _ _ Hhere Hj Hs) as (t & Ht & Hti & Htj).
    destruct (Hall t (Hsub t Ht)) as (c & (d2 & convs2 & Hp2 & Hc2 & Hl2) & Hr).
    rewrite Hti, Hk' in Hp2. cbn [Nat.add] in Htj. rewrite Htj in Hl2.
    assert (convs2 = convs') as ->.
    { destruct Hpost' as [->| ->]; injection Hp2 as <-.
      - cbn [Val.get_default] in Hget. rewrite Hc2 in Hget. cbn in Hget. congruence.
      - rewrite lookup_assign_eq in Hc2. congruence. }
    rewrite Hj' in Hl2. injection Hl2 as <-. by apply has_response_needs_reply.
  - assert (Hs : scheduled conv = false) by (unfold scheduled; by rewrite Hb).
    by rewrite (Hsame Hs).
Qed.
End SecondPass.

(** X17: when every future of a run of stage 3 completes with a reply
    that is not empty, the posts the run ends with hold no turn for which a
    task would be scheduled: a second pass over them makes no call and
    writes nothing.  So, when the run had a task and its final posts are
    plain, running the script again on the disk it left, which resumes from
    the output file, returns the same posts and leaves the disk as it is. *)
Theorem stage3_second_pass (posts : list pyval) (fs : gmap string str)
    (answers : nat -> outcome (pyval * pyval)) (order : list nat)
    (tasks : list Agent3.task) posts' fs' :
  Agent3.build_tasks 0 posts = Returned tasks ->
  (forall k, (k < length tasks)%nat -> k ∈ order) ->
  (forall k, (k < length tasks)%nat ->
             exists reply think, answers k = Returned (reply, think)
                                 /\ Val.truthy reply = true) ->
  Agent3.main_from posts fs answers order = Returned (posts', fs') ->
  Agent3.build_tasks 0 posts' = Returned []
  /\ (forall answers2 order2,
       Agent3.main_from posts' fs' answers2 order2 = Returned (posts', fs'))
  /\ (tasks <> [] -> plain (PList posts') = true ->
      forall answers2 order2,
        Agent3.main fs' answers2 order2 = Returned (posts', fs')).
Proof.
  intros Htasks Horder Hans Hmain.
  assert (Hnil : Agent3.build_tasks 0 posts' = Returned []).
  { pose proof (main_from_frame _ _ _ _ _ _ Hmain) as Hframe.
    eapply build_tasks_after; [exact Htasks|exact Hframe|].
    unfold Agent3.main_from in Hmain. rewrite Htasks in Hmain.
    cbn [mbind outcome_bind] in Hmain. destruct tasks as [|t0 tasks0] eqn:Et.
    { intros t Ht. by apply elem_of_nil in Ht. }
    rewrite <- Et in *.
    destruct (Agent3.completion_loop _ _ _ _) as [st|] eqn:Hloop.
    2:{ by destruct tasks. }
    assert (Hst : posts' = Agent3.posts_now st).
    { destruct tasks; [done|]. cbn in Hmain. by injection Hmain as <- _. }
    subst posts'.
    assert (Hans' : forall k t, tasks !! k = Some t ->
                       exists reply think, answers k = Returned (reply, think)
                                           /\ Val.truthy reply = true).
    { intros k t Hk. apply Hans. by eapply lookup_lt_Some. }
    destruct (completion_loop_answered tasks answers order _ st Hans' Hloop) as [_ Hnew].
    intros t Ht. apply list_elem_of_lookup_1 in Ht as [k Hk].
    eapply Hnew; [|exact Hk]. apply Horder. by eapply lookup_lt_Some. }
  assert (Hagain : forall answers2 order2,
             Agent3.main_from posts' fs' answers2 order2 = Returned (posts', fs')).
  { intros answers2 order2. unfold Agent3.main_from. by rewrite Hnil. }
  split; [done|]. split; [done|]. intros Hne Hplain answers2 order2.
  pose proof (main_from_written _ _ _ _ _ _ _ Htasks Hne Hmain) as Hw.
  unfold Agent3.main. rewrite bool_decide_eq_true_2 by (by rewrite Hw).
  rewrite Hw. unfold Json.json_dump_indent2. rewrite json_loads_dumps by done.
  apply Hagain.
Qed.

Lemma stage3_second_pass_witness :
  match Agent3.main_from half_answered ∅ one_reply [0%nat] with
  | Returned (posts', fs') => Agent3.build_tasks 0 posts' = Returned []
  | Raised _ => False
  end.
Proof.
  assert (Hlen : match Agent3.build_tasks 0 half_answered with
                 | Returned tasks => length tasks = 1%nat
                 | Raised _ => False
                 end) by (vm_compute; reflexivity).
  assert (H : returns (Agent3.main_from half_answered ∅ one_reply [0%nat]) = true)
    by (vm_compute; reflexivity).
  destruct (Agent3.build_tasks 0 half_answered) as [tasks|e0] eqn:Et; [|done].
  destruct (Agent3.main_from half_answered ∅ one_reply [0%nat]) as [[posts' fs']|e] eqn:E;
    [|discriminate].
  refine (proj1 (stage3_second_pass half_answered ∅ one_reply [0%nat] tasks posts' fs'
                   Et _ _ E)).
  - intros k Hk. rewrite Hlen in Hk. replace k with 0%nat by lia. apply list_elem_of_here.
  - intros k _. eexists _, _. split; [reflexivity|reflexivity].
Defined.

(** ** Stage 4: the records of the output *)

Section FilterResults.
Import Agent4.

Lemma has_required_keys_dict d :
  has_required_keys (PDict d) = Returned true ->
  is_Some (Val.lookup (Py.lit "keep") d)
  /\ is_Some (Val.lookup (Py.lit "issues") d)
  /\ is_Some (Val.lookup (Py.lit "reason") d).
Proof.
  unfold has_required_keys, Val.contains. cbn [mbind outcome_bind].
  repeat case_bool_decide; cbn; try done.
Qed.

(** The loop, when it returns: position by position, the answer was
    received, [interpret] made an object of it, and the result is that
    object with the identifier of the post put in. *)
Lemma filter_posts_spec gw i posts results :
  filter_posts gw i posts = Returned results ->
  length results = length posts
  /\ forall k post,
       posts !! k = Some post ->
       exists content d pid,
         gw (i + k)%nat = Returned content
         /\ interpret content = PDict d
         /\ Val.get post (Py.lit "post_id") = Returned pid
         /\ results !! k = Some (PDict (Val.assign (Py.lit "post_id") pid d)).
Proof.
  revert i results. induction posts as [|post rest IH]; intros i results.
  - intros [= <-]. split; [done|]. intros k post Hk. by rewrite lookup_nil in Hk.
  - cbn [filter_posts].
    destruct (Val.get post (Py.lit "post_id")) as [pid|] eqn:Hpid; [|done].
    cbn [mbind outcome_bind]. unfold inference_with_deepseek_v3.
    destruct (gw i) as [content|] eqn:Hgw; [|done]. cbn [mbind outcome_bind].
    destruct (interpret content) as [| | | | | |d] eqn:Hint; try done.
    cbn [Val.setitem mbind outcome_bind].
    destruct (filter_posts gw (S i) rest) as [results'|] eqn:Hrest; [|done].
    cbn [mbind outcome_bind]. intros [= <-].
    destruct (IH (S i) results' Hrest) as [Hlen Hspec].
    split; [cbn; by rewrite Hlen|].
    intros [|k] p Hk.
    + injection Hk as <-. exists content, d, pid. rewrite Nat.add_0_r. done.
    + destruct (Hspec k p Hk) as (c & d' & pid' & H1 & H2 & H3 & H4).
      exists c, d', pid'. replace (i + S k)%nat with (S i + k)%nat by lia. done.
Qed.
End FilterResults.

(** X18: when stage 4 returns, it has changed no file other than the
    output file, which, the results being plain (so that the file takes
    their text), holds the dump of the results; there is one result per
    input post, in input order, each an object with the fields [keep],
    [issues] and [reason] and with [post_id] set to the identifier of its
    post, whatever the answer itself said about [post_id]. *)
Theorem stage4_records (fs : gmap string str) (gw : nat -> outcome str)
    (results : list pyval) (fs' : gmap string str) :
  Agent4.main fs gw = Returned (results, fs') ->
  (forall p, p <> Agent4.output_file -> fs' !! p = fs !! p)
  /\ (plain (PList results) = true ->
      fs' = <[Agent4.output_file := Json.json_dump_indent2 (PList results)]> fs)
  /\ exists posts,
       (Agent4.filter_posts gw 0 posts = Returned results)
       /\ length results = length posts
       /\ forall k post,
            posts !! k = Some post ->
            exists d pid,
              Val.get post (Py.lit "post_id") = Returned pid
              /\ results !! k = Some (PDict d)
              /\ Val.lookup (Py.lit "post_id") d = Some pid
              /\ is_Some (Val.lookup (Py.lit "keep") d)
              /\ is_Some (Val.lookup (Py.lit "issues") d)
              /\ is_Some (Val.lookup (Py.lit "reason") d).
Proof.
  unfold Agent4.main. destruct (fs !! _) as [text|]; [|done].
  destruct (Json.json_loads text) as [v|]; [|done].
  destruct (Val.iterate v) as [posts|]; [|done]. cbn [mbind outcome_bind].
  destruct (Agent4.filter_posts gw 0 posts) as [rs|] eqn:Hf; [|done].
  cbn [mbind outcome_bind]. intros [= <- <-].
  assert (Hw : Fs.run fs (Agent4.write_json_file Agent4.output_file rs)
               = <[Agent4.output_file := Json.json_dump_indent2 (PList rs)]> fs)
    by apply run_write_ops.
  split; [|split].
  - intros p Hp.
    change (Fs.run fs (Agent4.write_json_file Agent4.output_file rs) !! p = fs !! p).
    rewrite Hw. by apply lookup_insert_ne.
  - intros _. exact Hw.
  - exists posts. split; [done|].
    destruct (filter_posts_spec gw 0 posts rs Hf) as [Hlen Hspec]. split; [done|].
    intros k post Hk. destruct (Hspec k post Hk) as (content & d & pid & _ & Hint & Hpid & Hr).
    exists (Val.assign (Py.lit "post_id") pid d), pid.
    pose proof (interpret_passes_key_test content) as Hkeys. rewrite Hint in Hkeys.
    apply has_required_keys_dict in Hkeys as (Hk1 & Hk2 & Hk3).
    split; [done|]. split; [done|]. split; [apply lookup_assign_eq|].
    rewrite !lookup_assign_ne by done. done.
Qed.

Lemma stage4_records_witness :
  match Agent4.main {[ Agent4.input_file := Py.qlit "[{'post_id': 'p1'}]" ]}
          (fun _ => Returned (Py.qlit "not json")) with
  | Returned (results, fs') =>
      fs' = <[Agent4.output_file := Json.json_dump_indent2 (PList results)]>
              {[ Agent4.input_file := Py.qlit "[{'post_id': 'p1'}]" ]}
  | Raised _ => False
  end.
Proof.
  assert (H : returns (Agent4.main {[ Agent4.input_file := Py.qlit "[{'post_id': 'p1'}]" ]}
                         (fun _ => Returned (Py.qlit "not json"))) = true)
    by (vm_compute; reflexivity).
  assert (Hp : match Agent4.main {[ Agent4.input_file := Py.qlit "[{'post_id': 'p1'}]" ]}
                       (fun _ => Returned (Py.qlit "not json")) with
               | Returned (results, _) => plain (PList results) = true
               | Raised _ => False
               end) by (vm_compute; reflexivity).
  destruct (Agent4.main _ _) as [[results fs']|e] eqn:E; [|discriminate].
  exact (proj1 (proj2 (stage4_records _ _ results fs' E)) Hp).
Defined.

(** ** What is sent to the hosted model *)

(** X19: the prompt of stage 1 is its fixed text with the post put in as
    it is, between [["] and ["]]: the final [strip] removes the first and
    the last line feed of the template and nothing of the post, whose white
    space, quotes and brackets all stay. *)
Theorem build_prompt_verbatim (content : str) :
  Agent1.build_prompt content
  = tail Agent1.prompt_before ++ content
    ++ take (length Agent1.prompt_after - 1) Agent1.prompt_after.
Proof.
  unfold Agent1.build_prompt.
  assert (Hb : exists m, Agent1.prompt_before = [10] ++ 89 :: m) by (by eexists).
  assert (Ha : exists m, Agent1.prompt_after = m ++ [125] ++ [10]
                         /\ take (length Agent1.prompt_after - 1) Agent1.prompt_after
                            = m ++ [125]).
  { exists (take (length Agent1.prompt_after - 2) Agent1.prompt_after).
    split; by vm_compute. }
  destruct Hb as [mb Hb], Ha as (ma & Ha & Ht). rewrite Ht, Hb, Ha. cbn [tail app].
  replace (10 :: 89 :: mb ++ content ++ ma ++ 125 :: [10])
    with ([10] ++ (89 :: (mb ++ content ++ ma) ++ [125]) ++ [10])
    by (cbn [app]; do 2 f_equal; by rewrite <- !app_assoc).
  rewrite strip_around by (done || by repeat constructor).
  cbn [app]. f_equal. by rewrite <- !app_assoc.
Qed.

(** X20: for a plain plan that has a length, the user
    message of stage 2 is [Input JSON:], a line feed and a text that parses
    to the object with [rounds] set to [len(info_by_round)] and
    [info_by_round] set to the plan. *)
Theorem user_message_payload (info_by_round : pyval) :
  plain info_by_round = true ->
  Val.has_len info_by_round = true ->
  exists n text,
    Val.len info_by_round = Returned n
    /\ Agent2.user_message info_by_round
       = Returned (Py.lit "Input JSON:" ++ [10] ++ text)
    /\ Json.json_loads text
       = Some (PDict [(Py.lit "rounds", PInt (Z.of_nat n));
                      (Py.lit "info_by_round", info_by_round)]).
Proof.
  intros Hp Hlen. unfold Agent2.user_message.
  destruct (Val.len info_by_round) as [n|] eqn:Hn; [|by destruct info_by_round].
  cbn [mbind outcome_bind]. eexists n, _. split; [done|]. split; [done|].
  apply json_loads_dumps. apply plain_dict_intro.
  - apply NoDup_cons. split; [|apply NoDup_singleton].
    intros H%list_elem_of_singleton. by vm_compute in H.
  - by repeat constructor.
  - by repeat constructor.
Qed.

Lemma user_message_payload_witness :
  exists n text,
    Val.len (PList [PStr (Py.lit "worry"); PStr (Py.lit "sleep")]) = Returned n
    /\ Agent2.user_message (PList [PStr (Py.lit "worry"); PStr (Py.lit "sleep")])
       = Returned (Py.lit "Input JSON:" ++ [10] ++ text)
    /\ Json.json_loads text
       = Some (PDict [(Py.lit "rounds", PInt (Z.of_nat n));
                      (Py.lit "info_by_round",
                       PList [PStr (Py.lit "worry"); PStr (Py.lit "sleep")])]).
Proof. apply user_message_payload; reflexivity. Defined.

(** ** Stage 2: how a record ends *)

Section Outcomes.
Import Agent2.

End Outcomes.

(** X21: [process_record] raises only when the record itself lacks
    [post_id] or [info_by_round], and then before any call.  With a plan
    that has no length it makes no call and returns the failure marker.
    Otherwise it makes between one and [MAX_RETRIES + 1] calls, every
    attempt before the last one failed, and it returns the result of the
    last attempt, or the failure marker after [MAX_RETRIES + 1] failed
    attempts. *)
Theorem process_record_outcomes (gw : nat -> outcome str) (record : pyval) :
  let res := Agent2.process_record gw record in
  (forall e, identifier record = Raised e -> res = (Raised e, 0%nat))
  /\ (forall pid e,
        identifier record = Returned pid ->
        Val.subscript record (Py.lit "info_by_round") = Raised e ->
        res = (Raised e, 0%nat))
  /\ (forall pid info,
        identifier record = Returned pid ->
        Val.subscript record (Py.lit "info_by_round") = Returned info ->
        (Val.has_len info = false -> res = (Returned None, 0%nat))
        /\ (Val.has_len info = true ->
            (1 <= res.2 <= Agent2.MAX_RETRIES + 1)%nat
            /\ (forall k, (k < res.2 - 1)%nat -> attempt_fails gw pid k)
            /\ ((exists v, res.1 = Returned (Some v)
                           /\ Agent2.attempt pid (gw (res.2 - 1)%nat) = Returned v)
                \/ (res.1 = Returned None /\ res.2 = (Agent2.MAX_RETRIES + 1)%nat
                    /\ attempt_fails gw pid Agent2.MAX_RETRIES)))).
Proof.
  cbn zeta. unfold Agent2.process_record. fold (identifier record).
  split; [by intros e ->|]. split.
  - intros pid e -> He. by rewrite He.
  - intros pid info -> Hi. rewrite Hi. split.
    + intros Hlen. by rewrite inference_no_len.
    + intros Hlen.
      destruct (inference_from gw pid info 0 Hlen ltac:(lia)) as (Hn & Hfail & Hok & Hex).
      cbn zeta in *.
      destruct (Agent2.inference_generate_conversation gw pid info 0) as [[v|e] n];
        cbn [fst snd] in *.
      * split; [unfold Agent2.MAX_RETRIES in *; lia|]. split; [intros k Hk; apply Hfail; lia|].
        left. exists v. split; [done|]. by apply Hok.
      * destruct (Hex e eq_refl) as (_ & Hcalls & Hlast).
        split; [unfold Agent2.MAX_RETRIES in *; lia|]. split; [intros k Hk; apply Hfail; lia|].
        right. split; [done|]. split; [unfold Agent2.MAX_RETRIES in *; lia|].
        rewrite Hcalls in Hlast.
        by replace (0 + (S Agent2.MAX_RETRIES - 0) - 1)%nat
          with Agent2.MAX_RETRIES in Hlast by lia.
Qed.

Lemma process_record_outcomes_witness :
  Agent2.process_record never_answers
    (PDict [(Py.lit "post_id", PStr (Py.lit "p1")); (Py.lit "info_by_round", PInt 3)])
  = (Returned None, 0%nat).
Proof.
  refine (proj1 (proj2 (proj2 (process_record_outcomes never_answers _))
                  (PStr (Py.lit "p1")) (PInt 3) _ _) _); reflexivity.
Defined.



(** ** Stage 2: an output file in line-delimited form *)

Section Ndjson.
Import Agent2.

Lemma rstrip_head c r :
  Py.isspace c = false -> exists r', Py.rstrip (c :: r) = c :: r'.
Proof.
  intros Hc. destruct (rstrip_split (c :: r)) as (w & Hs & Hw).
  destruct (Py.rstrip (c :: r)) as [|c' r'].
  - cbn in Hs. subst w. apply Forall_cons in Hw as [Hw _]. congruence.
  - injection Hs as -> _. by exists r'.
Qed.

Lemma dumps_dict_ends (d : dict) :
  exists m, Json.json_dumps (PDict d) = 123 :: m ++ [125].
Proof.
  unfold Json.json_dumps. destruct d as [|kv d]; [by exists []|].
  rewrite dumps_dict. eexists. cbn [Json.newline_indent app]. reflexivity.
Qed.

Lemma rstrip_char_last x s c :
  c <> x -> Py.rstrip_char x (s ++ [c]) = s ++ [c].
Proof.
  intros Hc. unfold Py.rstrip_char. rewrite reverse_app, reverse_singleton.
  change ([c] ++ ?l) with (c :: l). cbn [Py.lstrip_char].
  rewrite (proj2 (N.eqb_neq c x) Hc). by rewrite reverse_cons, reverse_involutive.
Qed.

Lemma file_lines_ndjson records :
  Forall (fun rec => plain rec = true) records ->
  Py.file_lines (ndjson records) = (fun rec => Json.json_dumps rec ++ [10]) <$> records.
Proof.
  unfold Py.file_lines, ndjson. induction 1 as [|rec rest Hp _ IH]; [done|].
  cbn [fmap list_fmap concat]. rewrite <- app_assoc. cbn [app].
  rewrite file_lines_from_line by (by apply dumps_no_lf). by rewrite IH.
Qed.

Lemma load_lines_ndjson records acc ids ids' :
  Forall (fun rec => plain rec = true /\ exists d, rec = PDict d) records ->
  post_id_set records ids = Returned ids' ->
  load_lines ((fun rec => Json.json_dumps rec ++ [10]) <$> records) acc ids
  = (acc ++ records, ids').
Proof.
  intros H. revert acc ids. induction H as [|rec rest [Hp [d ->]] _ IH]; intros acc ids.
  - cbn. intros [= <-]. by rewrite app_nil_r.
  - rewrite post_id_set_cons. cbn [fmap list_fmap]. rewrite load_lines_cons. cbv zeta.
    destruct (dumps_dict_ends d) as [m Hm].
    assert (Hs : Py.rstrip_char 44 (Py.strip (Json.json_dumps (PDict d) ++ [10]))
                 = Json.json_dumps (PDict d)).
    { rewrite Hm.
      pose proof (strip_around [] 123 m 125 [10]) as Hst. cbn [app] in Hst.
      cbn [app]. rewrite Hst by (by repeat constructor).
      change (123 :: m ++ [125]) with ((123 :: m) ++ [125]). by apply rstrip_char_last. }
    rewrite Hs.
    assert (Hne : Json.json_dumps (PDict d) <> [] /\ Json.json_dumps (PDict d) <> [91]
                  /\ Json.json_dumps (PDict d) <> [93]) by (by rewrite Hm).
    destruct Hne as (Hn1 & Hn2 & Hn3).
    rewrite !bool_decide_eq_false_2 by done.
    cbn [orb]. pose proof (json_loads_dumps None 0 (PDict d) Hp) as Hl.
    change (Json.dumps None 0 (PDict d)) with (Json.json_dumps (PDict d)) in Hl.
    rewrite Hl.
    fold (identifier (PDict d)). destruct (identifier (PDict d)) as [pid|]; [|done].
    cbn [mbind outcome_bind]. unfold IdSet.insert.
    destruct (Val.hashable pid); [|done].
    cbn [mbind outcome_bind]. intros Hrest. rewrite (IH _ _ Hrest).
    by rewrite <- app_assoc.
Qed.
End Ndjson.

(** X23: the line-by-line branch of [load_processed_records]: from an
    output file that holds one compact plain object per line, each with a
    hashable [post_id], and with no checkpoint file beside it, the records
    are loaded in file order with the set of their identifiers. *)
Theorem load_processed_records_ndjson (fs : gmap string str) (output_path : string)
    (records ids : list pyval) :
  fs !! (output_path +:+ ".temp") = None ->
  fs !! output_path = Some (ndjson records) ->
  Forall (fun rec => plain rec = true /\ exists d, rec = PDict d) records ->
  Agent2.post_id_set records [] = Returned ids ->
  Agent2.load_processed_records fs output_path = (records, ids).
Proof.
  intros Htemp Hout Hrec Hids. rewrite load_without_temp, Hout by done.
  unfold Agent2.load_text.
  assert (Hstart : Py.startswith [91] (Py.strip (ndjson records)) = false).
  { destruct Hrec as [|rec rest [_ [d ->]] _]; [done|].
    unfold ndjson. cbn [fmap list_fmap concat].
    destruct (dumps_dict_ends d) as [m ->].
    set (tl := concat ((fun rec => Json.json_dumps rec ++ [10]) <$> rest)).
    change ((123 :: m ++ [125]) ++ [10]) with (123 :: ((m ++ [125]) ++ [10])).
    change ((123 :: ?a) ++ tl) with (123 :: (a ++ tl)).
    unfold Py.strip. cbn [Py.lstrip]. change (Py.isspace 123) with false. cbn iota.
    destruct (rstrip_head 123 (((m ++ [125]) ++ [10]) ++ tl) eq_refl) as [r' ->].
    done. }
  rewrite Hstart. rewrite file_lines_ndjson
    by (eapply Forall_impl; [exact Hrec|]; by intros ? [? _]).
  by apply (load_lines_ndjson records [] [] ids).
Qed.

Lemma load_processed_records_ndjson_witness :
  let records := [PDict [(Py.lit "post_id", PStr (Py.lit "p1"));
                         (Py.lit "conversation", PList [])];
                  PDict [(Py.lit "post_id", PStr (Py.lit "p2"));
                         (Py.lit "conversation", PList [PInt 1])]] in
  Agent2.load_processed_records {[ Agent2.OUTPUT_PATH := ndjson records ]} Agent2.OUTPUT_PATH
  = (records, [PStr (Py.lit "p1"); PStr (Py.lit "p2")]).
Proof.
  intros records. apply load_processed_records_ndjson.
  - reflexivity.
  - reflexivity.
  - repeat constructor; by eexists.
  - reflexivity.
Defined.


(** ** Stage 3: the order of the messages of a request *)

Section RequestOrder.
Import Agent3.

End RequestOrder.


